(** * A shallow embedding of the MHT corner tracker

    The development follows the C++ sources of the tracker:

    - [mht.h]         the hypothesis engine ([MHT], [T_HYPO], [T_TREE], ...);
    - [mdlmht.h]      the model-based layer ([MDL_MHT], the seven node kinds);
    - [motionModel.c] the constant-velocity corner model ([CONSTVEL_MDL],
                      [CONSTVEL_STATE]) with its texture correlation, and
                      the output collector ([CORNER_TRACK_MHT]);
    - the driver      its reader of the parameter file ([read_param]).

    Conventions.

    - A C++ [double] is a value of a type [D] carrying the operations of the
      class [Double] (and [Libm] for [exp] and [log]).  Every function of the
      sources is translated once, over an arbitrary [D].  Two instances are
      given: the real numbers (exact arithmetic, used for the algebraic
      statements) and IEEE 754 binary64 (the kernel's primitive floats, used
      to run the code on concrete inputs).  In exact arithmetic the
      assertion of [getCorr] cannot fail, in binary64 it can: what is
      stated of a call that reaches [getCorr] is stated for any [D], with
      the return of [getCorr] as a premise.
    - An [int] is a [Z]; no counter of the modelled code gets near 2^31.
    - A failed [assert], a null dereference and any other abort of the
      program is the value [None] of the monad [M].
    - Objects reached through pointers (track-tree nodes, reports) carry an
      address; lists of pointers are lists of addresses. *)

From Stdlib Require Import ZArith List Bool Reals Lra Lia Floats.
From Stdlib Require Uint63.
From Stdlib Require Ascii String.
Import ListNotations.

Set Implicit Arguments.
Set Warnings "-register-all".

(* ------------------------------------------------------------------ *)
(** * Numbers *)

(** The operations the sources apply to [double] values. *)
Class Double (D : Type) : Type := {
  dofZ : Z -> D;                 (* an integer literal, or an int converted *)
  dadd : D -> D -> D;
  dsub : D -> D -> D;
  dmul : D -> D -> D;
  ddiv : D -> D -> D;
  dopp : D -> D;
  dsqrt : D -> D;
  deqb : D -> D -> bool;         (* a == b *)
  dltb : D -> D -> bool;         (* a <  b *)
  dleb : D -> D -> bool;         (* a <= b *)
  dHUGE : D;                     (* HUGE of <math.h>, the largest float *)
  dis_neg_inf : D -> bool        (* a == -INFINITY *)
}.

(** [exp] and [log] of <cmath>. *)
Class Libm (D : Type) : Type := {
  dexp : D -> D;
  dlog : D -> D
}.

Declare Scope double_scope.
Delimit Scope double_scope with D.
Infix "+" := dadd : double_scope.
Infix "-" := dsub : double_scope.
Infix "*" := dmul : double_scope.
Infix "/" := ddiv : double_scope.
Notation "- x" := (dopp x) : double_scope.

(** The abort monad. *)
Definition M (A : Type) : Type := option A.
Definition ret {A} (a : A) : M A := Some a.
Definition abort {A} : M A := None.
Definition bind {A B} (m : M A) (k : A -> M B) : M B :=
  match m with
  | Some a => k a
  | None => None
  end.
Notation "'do' x <- m ; k" := (bind m (fun x => k))
  (at level 10, x pattern, m at level 100, k at level 200).

Definition assert (b : bool) : M unit := if b then ret tt else abort.

(** Monadic left fold: a loop whose body may abort. *)
Fixpoint foldM {A B} (f : A -> B -> M A) (l : list B) (a : A) : M A :=
  match l with
  | [] => ret a
  | b :: l' => do a' <- f a b; foldM f l' a'
  end.

(* ------------------------------------------------------------------ *)
(** * Matrices *)

Section Matrices.
Context {D : Type} {DD : Double D}.
Local Open Scope double_scope.

(** Modelled from the spec: the class MATRIX of matrix.h is not among the
    sources.  Section 4.1 of the specification asks for dense real matrices
    with set-from-row-major-literals, element access, addition, subtraction,
    multiplication (also non-square), scalar multiplication, transpose,
    inverse and determinant.  A matrix is the list of its rows; inverse and
    determinant are given for the 2 x 2 shape, the only one the model
    applies them to (the innovation covariance S). *)
Definition MATRIX : Type := list (list D).

Definition mget (m : MATRIX) (i j : nat) : D := nth j (nth i m []) (dofZ 0).

Definition dot (r c : list D) : D :=
  fold_left (fun acc ab => acc + fst ab * snd ab) (combine r c) (dofZ 0).

Definition mcol (m : MATRIX) (j : nat) : list D :=
  map (fun r => nth j r (dofZ 0)) m.

Definition mtrans (m : MATRIX) : MATRIX :=
  match m with
  | [] => []
  | r :: _ => map (mcol m) (seq 0 (length r))
  end.

Definition mmul (a b : MATRIX) : MATRIX :=
  map (fun r => map (dot r) (mtrans b)) a.

Fixpoint zipWith {A B C} (f : A -> B -> C) (l : list A) (l' : list B) : list C :=
  match l, l' with
  | a :: l, b :: l' => f a b :: zipWith f l l'
  | _, _ => []
  end.

Definition madd (a b : MATRIX) : MATRIX := zipWith (zipWith dadd) a b.
Definition msub (a b : MATRIX) : MATRIX := zipWith (zipWith dsub) a b.
Definition mscale (a : MATRIX) (k : D) : MATRIX := map (map (fun x => x * k)) a.

Definition mdet (m : MATRIX) : D :=
  mget m 0 0 * mget m 1 1 - mget m 0 1 * mget m 1 0.

Definition minv (m : MATRIX) : MATRIX :=
  let d := mdet m in
  [ [ mget m 1 1 / d ; - mget m 0 1 / d ];
    [ - mget m 1 0 / d ; mget m 0 0 / d ] ].

(** A column vector from its entries, and the entry [v(i)] of one. *)
Definition colvec (l : list D) : MATRIX := map (fun x => [x]) l.
Definition vget (v : MATRIX) (i : nat) : D := mget v i 0.

End Matrices.

Arguments MATRIX : clear implicits.

(* ------------------------------------------------------------------ *)
(** * Texture correlation: [CONSTVEL_MDL::getCorr] (CORR_COEFF build) *)

Section Texture.
Context {D : Type} {DD : Double D}.
Local Open Scope double_scope.

(** A 5 x 5 texture descriptor, row-major; its entries are read as doubles. *)
Definition Texture_t : Type := list D.

Definition width : Z := 5.

(** [t[index]] *)
Definition tex (t : Texture_t) (index : Z) : D := nth (Z.to_nat index) t (dofZ 0).

(** The pairs (j, i) of the two nested loops [for j = -1..1] [for i = -1..1]. *)
Definition offsets : list Z := [-1; 0; 1]%Z.
Definition ji : list (Z * Z) := flat_map (fun j => map (fun i => (j, i)) offsets) offsets.

(** [index = width * y + x] with [y = ym + j], [x = xm + i]. *)
Definition index_of (ym xm : Z) (p : Z * Z) : Z :=
  (width * (ym + fst p) + (xm + snd p))%Z.

(** Mean and sigma of the 3 x 3 window centred at (ym, xm):
    the accumulations, the divisions by 9, [sigma - mean * mean], [sqrt]. *)
Definition windowMean (t : Texture_t) (ym xm : Z) : D :=
  fold_left (fun acc p => acc + tex t (index_of ym xm p)) ji (dofZ 0) / dofZ 9.

Definition windowSigma (t : Texture_t) (ym xm : Z) : D :=
  let mean := windowMean t ym xm in
  let sigma :=
    fold_left (fun acc p => acc + tex t (index_of ym xm p) * tex t (index_of ym xm p))
              ji (dofZ 0) / dofZ 9 in
  dsqrt (sigma - mean * mean).

(** The centred covariance sum of the pattern window (the central 3 x 3 of
    the state's texture) against the search window at (ym, xm). *)
Definition corrSum (st rp : Texture_t) (ym xm : Z) : D :=
  let stateMean := windowMean st 2 2 in
  let reportMean := windowMean rp ym xm in
  fold_left (fun acc p =>
               acc + (tex st (index_of 2 2 p) - stateMean)
                     * (tex rp (index_of ym xm p) - reportMean))
            ji (dofZ 0).

(** The value of [corr] once the conditional expression has been assigned. *)
Definition corrAt (st rp : Texture_t) (ym xm : Z) : D :=
  let stateSigma := windowSigma st 2 2 in
  let reportSigma := windowSigma rp ym xm in
  let corr := corrSum st rp ym xm in
  if negb (deqb corr (dofZ 0)) || negb (deqb (reportSigma * stateSigma) (dofZ 0))
  then corr / (dofZ 9 * reportSigma * stateSigma)
  else dofZ 1.

(** [assert(corr >= -1.0 && corr <= 1.0)] *)
Definition corr_in_range (corr : D) : bool :=
  dleb (- dofZ 1) corr && dleb corr (dofZ 1).

(** The pairs (p, q) of the sliding loops [for p = 1..3] [for q = 1..3]. *)
Definition pq : list (Z * Z) :=
  flat_map (fun p => map (fun q => (p, q)) [1; 2; 3]%Z) [1; 2; 3]%Z.

(** One iteration of the sliding loop: compute [corr], check the assertion,
    update [maxCorr]. *)
Definition corrStep (st rp : Texture_t) (maxCorr : D) (p : Z * Z) : M D :=
  let corr := corrAt st rp (fst p) (snd p) in
  do _ <- assert (corr_in_range corr);
  ret (if dltb maxCorr corr then corr else maxCorr).

Definition getCorr (st rp : Texture_t) : M D :=
  foldM (corrStep st rp) pq (- dHUGE).

End Texture.

Arguments Texture_t : clear implicits.

(* ------------------------------------------------------------------ *)
(** * The two number instances *)

Definition Rbool_eq (a b : R) : bool := if Req_dec_T a b then true else false.
Definition Rbool_lt (a b : R) : bool := if Rlt_dec a b then true else false.
Definition Rbool_le (a b : R) : bool := if Rle_dec a b then true else false.

(** Exact real arithmetic.  No real number is an infinity. *)
#[export] Instance Double_R : Double R := {|
  dofZ := IZR;
  dadd := Rplus; dsub := Rminus; dmul := Rmult; ddiv := Rdiv;
  dopp := Ropp; dsqrt := R_sqrt.sqrt;
  deqb := Rbool_eq; dltb := Rbool_lt; dleb := Rbool_le;
  dHUGE := 340282346638528859811704183484516925440%R;
  dis_neg_inf := fun _ => false
|}.

#[export] Instance Libm_R : Libm R := {| dexp := exp; dlog := ln |}.

(** An [int] as a binary64 number (exact below 2^53 in magnitude). *)
Definition float_of_Z (z : Z) : float :=
  if (z <? 0)%Z then PrimFloat.opp (PrimFloat.of_uint63 (Uint63.of_Z (- z)))
  else PrimFloat.of_uint63 (Uint63.of_Z z).

(** IEEE 754 binary64, round to nearest even. *)
#[export] Instance Double_float : Double float := {|
  dofZ := float_of_Z;
  dadd := PrimFloat.add; dsub := PrimFloat.sub; dmul := PrimFloat.mul;
  ddiv := PrimFloat.div; dopp := PrimFloat.opp; dsqrt := PrimFloat.sqrt;
  deqb := PrimFloat.eqb; dltb := PrimFloat.ltb; dleb := PrimFloat.leb;
  dHUGE := 0x1.fffffep+127%float;
  dis_neg_inf := fun x => PrimFloat.eqb x neg_infinity
|}.

(* ------------------------------------------------------------------ *)
(** * The constant-velocity model: reports, states, the Kalman step *)

Section Model.
Context {D : Type} {DD : Double D} {LD : Libm D}.
Local Open Scope double_scope.

(** [LOG_NORMFACTOR = 1.5963597] and [EPSILON = 0.00000000000001]. *)
Definition LOG_NORMFACTOR : D := dofZ 15963597 / dofZ 10000000.
Definition EPSILON : D := dofZ 1 / dofZ 100000000000000.

(** Modelled from the spec: the class CONSTPOS_REPORT of motionModel.h is
    not among the sources; its fields are those of a detection in Section 3
    of the specification, in the order of the constructor call in
    [CORNER_TRACK_MHT::measure], after the members of the base class REPORT
    of mht.h ([m_rowNum], [m_groupId]).  [r_addr] is the address of the
    object. *)
Record CONSTPOS_REPORT : Type := {
  r_addr : nat;
  m_rowNum : Z;
  m_groupId : Z;
  m_falarmLogLikelihood : D;
  r_x : D;
  r_y : D;
  m_textureInfo : Texture_t D;
  m_frameNo : Z;
  m_cornerID : Z
}.

(** [report->getZ()]: the measured position as a 2 x 1 matrix. *)
Definition getZ (r : CONSTPOS_REPORT) : MATRIX D := colvec [r_x r; r_y r].

(** The members the constructor of [CONSTVEL_MDL] initialises. *)
Record CONSTVEL_MDL : Type := {
  m_startLogLikelihood : D;
  m_lambda_x : D;
  m_skipLogLikelihood : D;
  m_detectLogLikelihood : D;
  m_maxDistance : D;
  m_processVariance : D;
  m_intensityVariance : D;
  m_intensityThreshold : D;
  m_stateVariance : D;
  m_R : MATRIX D;
  m_startP : MATRIX D;
  type : Z
}.

(** [CONSTVEL_MDL::CONSTVEL_MDL] (the local Q of the constructor is dead). *)
Definition CONSTVEL_MDL_new
    (positionMeasureVarianceX positionMeasureVarianceY gradientMeasureVariance
     intensityVariance processVariance startProb lambda_x detectProb stateVar
     intensityThreshold maxDistance : D) : CONSTVEL_MDL :=
  let pVx := positionMeasureVarianceX in
  let pVy := positionMeasureVarianceY in
  {| m_startLogLikelihood := dlog startProb;
     m_lambda_x := lambda_x;
     m_skipLogLikelihood := dlog (dofZ 1 - detectProb);
     m_detectLogLikelihood := dlog detectProb;
     m_maxDistance := maxDistance;
     m_processVariance := processVariance;
     m_intensityVariance := intensityVariance;
     m_intensityThreshold := intensityThreshold;
     m_stateVariance := stateVar;
     m_R := [ [pVx; dofZ 0]; [dofZ 0; pVy] ];
     m_startP := [ [pVx; dofZ 0; dofZ 0; dofZ 0];
                   [dofZ 0; stateVar; dofZ 0; dofZ 0];
                   [dofZ 0; dofZ 0; pVy; dofZ 0];
                   [dofZ 0; dofZ 0; dofZ 0; stateVar] ];
     type := 2 |}.

(** Modelled from the spec: the class CONSTVEL_STATE of motionModel.h is
    not among the sources.  Its members are those [setup] and
    [getNextState] read and write: the mean [m_x] (a 4 x 1 matrix
    x, dx, y, dy), the covariance [m_P], the previous texture, the
    log-likelihood, the skip count, the owning model, and the derived block
    ([m_ds], [m_logLikelihoodCoef] and the four matrices allocated by
    [setup], null before). *)
Record CONSTVEL_STATE : Type := {
  m_mdl : CONSTVEL_MDL;
  m_x : MATRIX D;
  m_P : MATRIX D;
  m_prevTextureInfo : Texture_t D;
  m_logLikelihood : D;
  m_numSkipped : Z;
  m_hasBeenSetup : bool;
  m_ds : D;
  m_logLikelihoodCoef : D;
  m_Sinv : option (MATRIX D);
  m_W : option (MATRIX D);
  m_nextP : option (MATRIX D);
  m_x1 : option (MATRIX D)
}.

(** Modelled from the spec: the constructor of CONSTVEL_STATE, as
    [getNextState] calls it: model, x, dx, y, dy, texture, covariance,
    log-likelihood, skip count; the derived block is not populated. *)
Definition CONSTVEL_STATE_new (mdl : CONSTVEL_MDL) (x dx y dy : D)
    (t : Texture_t D) (P : MATRIX D) (logLikelihood : D) (numSkipped : Z)
    : CONSTVEL_STATE :=
  {| m_mdl := mdl; m_x := colvec [x; dx; y; dy]; m_P := P;
     m_prevTextureInfo := t; m_logLikelihood := logLikelihood;
     m_numSkipped := numSkipped; m_hasBeenSetup := false;
     m_ds := dofZ 0; m_logLikelihoodCoef := dofZ 0;
     m_Sinv := None; m_W := None; m_nextP := None; m_x1 := None |}.

Definition getX (s : CONSTVEL_STATE) : D := vget (m_x s) 0.
Definition getDX (s : CONSTVEL_STATE) : D := vget (m_x s) 1.
Definition getY (s : CONSTVEL_STATE) : D := vget (m_x s) 2.
Definition getDY (s : CONSTVEL_STATE) : D := vget (m_x s) 3.

Definition set_m_x (s : CONSTVEL_STATE) (x : MATRIX D) : CONSTVEL_STATE :=
  {| m_mdl := m_mdl s; m_x := x; m_P := m_P s;
     m_prevTextureInfo := m_prevTextureInfo s;
     m_logLikelihood := m_logLikelihood s; m_numSkipped := m_numSkipped s;
     m_hasBeenSetup := m_hasBeenSetup s; m_ds := m_ds s;
     m_logLikelihoodCoef := m_logLikelihoodCoef s;
     m_Sinv := m_Sinv s; m_W := m_W s; m_nextP := m_nextP s; m_x1 := m_x1 s |}.

Definition setDX (s : CONSTVEL_STATE) (dx : D) : CONSTVEL_STATE :=
  set_m_x s (colvec [getX s; dx; getY s; getDY s]).
Definition setDY (s : CONSTVEL_STATE) (dy : D) : CONSTVEL_STATE :=
  set_m_x s (colvec [getX s; getDX s; getY s; dy]).

(** The null-checked reads of the derived block. *)
Definition getPrediction (s : CONSTVEL_STATE) : M (MATRIX D) := m_x1 s.
Definition getSinv (s : CONSTVEL_STATE) : M (MATRIX D) := m_Sinv s.
Definition getW (s : CONSTVEL_STATE) : M (MATRIX D) := m_W s.
Definition getNextP (s : CONSTVEL_STATE) : M (MATRIX D) := m_nextP s.

(** The matrices [F], [Q] (before scaling) and [H] as [setup] sets them. *)
Definition F_of (ds : D) : MATRIX D :=
  [ [dofZ 1; ds; dofZ 0; dofZ 0];
    [dofZ 0; dofZ 1; dofZ 0; dofZ 0];
    [dofZ 0; dofZ 0; dofZ 1; ds];
    [dofZ 0; dofZ 0; dofZ 0; dofZ 1] ].

Definition Q_of (ds : D) : MATRIX D :=
  let ds2 := ds * ds in
  let ds3 := ds2 * ds in
  [ [ds3 / dofZ 3; ds2 / dofZ 2; dofZ 0; dofZ 0];
    [ds2 / dofZ 2; ds; dofZ 0; dofZ 0];
    [dofZ 0; dofZ 0; ds3 / dofZ 3; ds2 / dofZ 2];
    [dofZ 0; dofZ 0; ds2 / dofZ 2; ds] ].

Definition H_mat : MATRIX D :=
  [ [dofZ 1; dofZ 0; dofZ 0; dofZ 0];
    [dofZ 0; dofZ 0; dofZ 1; dofZ 0] ].

(** [CONSTVEL_STATE::setup]: the report-independent part of the Kalman
    step, computed at most once per state.  The time step [m_ds] is set to
    1 before [F] and [Q] are built. *)
Definition setup (processVariance : D) (R : MATRIX D) (s : CONSTVEL_STATE)
    : CONSTVEL_STATE :=
  if m_hasBeenSetup s then s
  else
    let ds := dofZ 1 in
    let F := F_of ds in
    let Q := mscale (Q_of ds) processVariance in
    let P1 := madd (mmul (mmul F (m_P s)) (mtrans F)) Q in
    let S := madd (mmul (mmul H_mat P1) (mtrans H_mat)) R in
    let logLikelihoodCoef := - (LOG_NORMFACTOR + dlog (mdet S) / dofZ 2) in
    let Sinv := minv S in
    let W := mmul (mmul P1 (mtrans H_mat)) Sinv in
    let tmp := mmul (mmul W S) (mtrans W) in
    let tmp1 := msub P1 tmp in
    {| m_mdl := m_mdl s; m_x := m_x s; m_P := m_P s;
       m_prevTextureInfo := m_prevTextureInfo s;
       m_logLikelihood := m_logLikelihood s; m_numSkipped := m_numSkipped s;
       m_hasBeenSetup := true; m_ds := ds;
       m_logLikelihoodCoef := logLikelihoodCoef;
       m_Sinv := Some Sinv; m_W := Some W; m_nextP := Some tmp1;
       m_x1 := Some (mmul F (m_x s)) |}.

(** [CONSTVEL_MDL::getEndLogLikelihood] and [getContinueLogLikelihood].
    The member each of them also assigns ([m_endLogLikelihood],
    [m_continueLogLikelihood]) is a scratch copy of the value returned. *)
Definition endProb_of (mdl : CONSTVEL_MDL) (s : CONSTVEL_STATE) : D :=
  let m := m_numSkipped s in
  let endProb := dofZ 1 - dexp (dofZ (- m) / m_lambda_x mdl) in
  endProb + (if deqb endProb (dofZ 0) then EPSILON else dofZ 0).

Definition getEndLogLikelihood (mdl : CONSTVEL_MDL) (s : CONSTVEL_STATE) : D :=
  dlog (endProb_of mdl s).

Definition getContinueLogLikelihood (mdl : CONSTVEL_MDL) (s : CONSTVEL_STATE) : D :=
  dlog (dofZ 1 - endProb_of mdl s).

Definition getSkipLogLikelihood (mdl : CONSTVEL_MDL) (s : CONSTVEL_STATE) : D :=
  m_skipLogLikelihood mdl.

(** Modelled from the spec: [getDetectLogLikelihood] is defined in
    motionModel.h, not among the sources; Section 4.4: the detect
    log-likelihood is the model constant ln p_detect. *)
Definition getDetectLogLikelihood (mdl : CONSTVEL_MDL) (s : CONSTVEL_STATE) : D :=
  m_detectLogLikelihood mdl.

(** [CONSTVEL_MDL::getNextState].  The result is the previous state as the
    call leaves it (the lazy [setup] writes into it) and the pointer
    returned: a new state, or null. *)
Definition getNextState (mdl : CONSTVEL_MDL)
    (state : option CONSTVEL_STATE) (report : option CONSTPOS_REPORT)
    : M (option CONSTVEL_STATE * option CONSTVEL_STATE) :=
  match state with
  | None =>
      (* starting a new track *)
      do r <- report;
      ret (None,
           Some (CONSTVEL_STATE_new mdl (r_x r) (dofZ 0) (r_y r) (dofZ 0)
                   (m_textureInfo r) (m_startP mdl)
                   (m_startLogLikelihood mdl) 0))
  | Some s0 =>
      let s := setup (m_processVariance mdl) (m_R mdl) s0 in
      match report with
      | None =>
          (* continuing, skipping a measurement *)
          do x1 <- getPrediction s;
          do nextP <- getNextP s;
          ret (Some s,
               Some (CONSTVEL_STATE_new mdl (vget x1 0) (vget x1 1)
                       (vget x1 2) (vget x1 3) (m_prevTextureInfo s) nextP
                       (dofZ 0) (m_numSkipped s + 1)))
      | Some r =>
          (* continuing, with a measurement *)
          do x1 <- getPrediction s;
          do Sinv <- getSinv s;
          let v := msub (getZ r) (mmul H_mat x1) in
          let distance := mget (mmul (mmul (mtrans v) Sinv) v) 0 0 in
          if dltb (m_maxDistance mdl) distance then ret (Some s, None)
          else
            do intDistance <- getCorr (m_prevTextureInfo s) (m_textureInfo r);
            let intValidated := dltb (m_intensityThreshold mdl) intDistance in
            if negb intValidated then ret (Some s, None)
            else
              do W <- getW s;
              do nextP <- getNextP s;
              let new_m_x := madd x1 (mmul W v) in
              ret (Some s,
                   Some (CONSTVEL_STATE_new mdl (vget new_m_x 0)
                           (vget new_m_x 1) (vget new_m_x 2) (vget new_m_x 3)
                           (m_textureInfo r) nextP
                           (m_logLikelihoodCoef s - distance / dofZ 2) 0))
      end
  end.

(** [CONSTVEL_MDL::getNewState]. *)
Definition getNewState (mdl : CONSTVEL_MDL) (stateNum : Z)
    (state : option CONSTVEL_STATE) (report : option CONSTPOS_REPORT)
    : M (option CONSTVEL_STATE * option CONSTVEL_STATE) :=
  if (stateNum =? 0)%Z then
    let state' :=
      match state, report with
      | Some s, Some r =>
          if deqb (getDX s) (dofZ 0) && deqb (getDY s) (dofZ 0) then
            let dx := r_x r - getX s in
            let dy := r_y r - getY s in
            Some (setDY (setDX s dx) dy)
          else state
      | _, _ => state
      end in
    getNextState mdl state' report
  else abort.

(** [CONSTVEL_MDL::beginNewStates]. *)
Definition beginNewStates (mdl : CONSTVEL_MDL)
    (state : option CONSTVEL_STATE) (report : option CONSTPOS_REPORT) : Z := 1.

End Model.

Arguments CONSTPOS_REPORT : clear implicits.
Arguments CONSTVEL_MDL : clear implicits.
Arguments CONSTVEL_STATE : clear implicits.

(* ------------------------------------------------------------------ *)
(** * Track trees and their nodes *)

Section Engine.
Context {D : Type} {DD : Double D} {LD : Libm D}.
Local Open Scope double_scope.

(** The seven classes of mdlmht.h that derive from [T_HYPO]. *)
Inductive KIND : Type := ROOT | DUMMY | FALARM | START | CONTINUE | SKIP | END.

(** A node of a track tree: the members of [T_HYPO] ([m_timeStamp], the
    link to at most one report, [m_endsTrack], [m_mustVerify],
    [m_logLikelihood]) and [m_state] of [MDL_CONTINUE_T_HYPO].  The links
    to group hypotheses are kept on the side of [G_HYPO]. *)
Record T_HYPO : Type := {
  t_addr : nat;
  t_kind : KIND;
  m_timeStamp : Z;
  m_reportLink : option nat;
  m_endsTrack : bool;
  m_mustVerify : bool;
  t_logLikelihood : D;
  t_state : option (CONSTVEL_STATE D)
}.

Inductive TNODE : Type := Node : T_HYPO -> list TNODE -> TNODE.

Definition node_hypo (t : TNODE) : T_HYPO := let 'Node h _ := t in h.
Definition node_children (t : TNODE) : list TNODE := let 'Node _ cs := t in cs.

(** Modelled from the spec: tree.h is not among the sources.  A node has
    its children in order; [hasOneChild] counts them,
    [insertFirstChild] puts a child in front, and [removeRoot] (in
    [verifyRoot] below) makes the only child of the root the new root, as
    the comments of mht.h describe it. *)
Definition hasOneChild (t : TNODE) : bool :=
  match node_children t with [_] => true | _ => false end.

Definition setStamp (h : T_HYPO) (timeStamp : Z) : T_HYPO :=
  {| t_addr := t_addr h; t_kind := t_kind h; m_timeStamp := timeStamp;
     m_reportLink := m_reportLink h; m_endsTrack := m_endsTrack h;
     m_mustVerify := m_mustVerify h; t_logLikelihood := t_logLikelihood h;
     t_state := t_state h |}.

Definition set_state (h : T_HYPO) (s : option (CONSTVEL_STATE D)) : T_HYPO :=
  {| t_addr := t_addr h; t_kind := t_kind h; m_timeStamp := m_timeStamp h;
     m_reportLink := m_reportLink h; m_endsTrack := m_endsTrack h;
     m_mustVerify := m_mustVerify h; t_logLikelihood := t_logLikelihood h;
     t_state := s |}.

(** [T_HYPO::installChild]: the child becomes the first child and is
    stamped with the parent's time plus one. *)
Definition installChild (parent : TNODE) (child : T_HYPO) : TNODE :=
  let 'Node h cs := parent in
  Node h (Node (setStamp child (m_timeStamp h + 1)) [] :: cs).

(** The constructors of the node classes; [a] is the address [new] returns. *)
Definition MDL_ROOT_T_HYPO_new (a : nat) : T_HYPO :=
  {| t_addr := a; t_kind := ROOT; m_timeStamp := 0; m_reportLink := None;
     m_endsTrack := false; m_mustVerify := false;
     t_logLikelihood := dofZ 0; t_state := None |}.

Definition MDL_DUMMY_T_HYPO_new (a : nat) (logLikelihood : D) : T_HYPO :=
  {| t_addr := a; t_kind := DUMMY; m_timeStamp := 0; m_reportLink := None;
     m_endsTrack := true; m_mustVerify := false;
     t_logLikelihood := logLikelihood; t_state := None |}.

Definition MDL_FALARM_T_HYPO_new (a : nat) (report : CONSTPOS_REPORT D) : T_HYPO :=
  {| t_addr := a; t_kind := FALARM; m_timeStamp := 0;
     m_reportLink := Some (r_addr report);
     m_endsTrack := true; m_mustVerify := true;
     t_logLikelihood := m_falarmLogLikelihood report; t_state := None |}.

Definition MDL_CONTINUE_T_HYPO_new (a : nat)
    (trackLogLikelihood continueLogLikelihood detectLogLikelihood : D)
    (state : CONSTVEL_STATE D) (report : CONSTPOS_REPORT D) : T_HYPO :=
  {| t_addr := a; t_kind := CONTINUE; m_timeStamp := 0;
     m_reportLink := Some (r_addr report);
     m_endsTrack := false; m_mustVerify := true;
     t_logLikelihood := trackLogLikelihood + continueLogLikelihood
                        + detectLogLikelihood + m_logLikelihood state;
     t_state := Some state |}.

Definition MDL_START_T_HYPO_new (a : nat)
    (state : CONSTVEL_STATE D) (report : CONSTPOS_REPORT D) : T_HYPO :=
  {| t_addr := a; t_kind := START; m_timeStamp := 0;
     m_reportLink := Some (r_addr report);
     m_endsTrack := false; m_mustVerify := true;
     t_logLikelihood := m_logLikelihood state; t_state := Some state |}.

Definition MDL_SKIP_T_HYPO_new (a : nat)
    (trackLogLikelihood continueLogLikelihood skipLogLikelihood : D)
    (state : CONSTVEL_STATE D) : T_HYPO :=
  {| t_addr := a; t_kind := SKIP; m_timeStamp := 0; m_reportLink := None;
     m_endsTrack := false; m_mustVerify := true;
     t_logLikelihood := trackLogLikelihood + continueLogLikelihood
                        + skipLogLikelihood + m_logLikelihood state;
     t_state := Some state |}.

Definition MDL_END_T_HYPO_new (a : nat)
    (trackLogLikelihood skipLogLikelihood endLogLikelihood : D) : T_HYPO :=
  {| t_addr := a; t_kind := END; m_timeStamp := 0; m_reportLink := None;
     m_endsTrack := true; m_mustVerify := true;
     t_logLikelihood := trackLogLikelihood + skipLogLikelihood + endLogLikelihood;
     t_state := None |}.

(** The values 0, 1, ..., n-1 of a loop counter. *)
Definition iota (n : Z) : list Z := map Z.of_nat (seq 0 (Z.to_nat n)).

(** A node under construction together with the next fresh address. *)
Definition GROWN : Type := (TNODE * nat)%type.

(** [MDL_ROOT_T_HYPO::makeDefaultChildren] *)
Definition ROOT_makeDefaultChildren (g : GROWN) : M GROWN :=
  let '(n, next) := g in
  ret (installChild n (MDL_DUMMY_T_HYPO_new next (dofZ 0)), S next).

(** [MDL_ROOT_T_HYPO::makeChildrenFor]: a FALARM child, then, for every
    model of the list, a START child for each state the model gives. *)
Definition ROOT_makeChildrenFor (modelList : list (CONSTVEL_MDL D))
    (report : CONSTPOS_REPORT D) (g : GROWN) : M GROWN :=
  let '(n, next) := g in
  let g1 := (installChild n (MDL_FALARM_T_HYPO_new next report), S next) in
  foldM (fun g mdl =>
           let numStartStates := beginNewStates mdl None (Some report) in
           foldM (fun (g : GROWN) i =>
                    let '(n, next) := g in
                    do r <- getNewState mdl i None (Some report);
                    match snd r with
                    | Some state =>
                        ret (installChild n (MDL_START_T_HYPO_new next state report),
                             S next)
                    | None => ret (n, next)
                    end)
                 (iota numStartStates) g)
        modelList g1.

(** [MDL_DUMMY_T_HYPO::makeDefaultChildren], inherited by FALARM and END. *)
Definition DUMMY_makeDefaultChildren (g : GROWN) : M GROWN :=
  let '(n, next) := g in
  ret (installChild n (MDL_DUMMY_T_HYPO_new next (t_logLikelihood (node_hypo n))),
       S next).

Definition node_set_state (n : TNODE) (s : option (CONSTVEL_STATE D)) : TNODE :=
  let 'Node h cs := n in Node (set_state h s) cs.

(** [MDL_CONTINUE_T_HYPO::makeDefaultChildren], inherited by START and SKIP. *)
Definition CONTINUE_makeDefaultChildren (g : GROWN) : M GROWN :=
  let '(n, next) := g in
  do m_state <- t_state (node_hypo n);
  let mdl := m_mdl m_state in
  let endLogLikelihood := getEndLogLikelihood mdl m_state in
  let continueLogLikelihood := getContinueLogLikelihood mdl m_state in
  let skipLogLikelihood := getSkipLogLikelihood mdl m_state in
  let g1 :=
    if negb (dis_neg_inf endLogLikelihood) then
      (installChild n (MDL_END_T_HYPO_new next (t_logLikelihood (node_hypo n))
                         skipLogLikelihood endLogLikelihood), S next)
    else (n, next) in
  if negb (dis_neg_inf continueLogLikelihood) then
    let numNewStates := beginNewStates mdl (Some m_state) None in
    foldM (fun (g : GROWN) i =>
             let '(n, next) := g in
             do r <- getNewState mdl i (t_state (node_hypo n)) None;
             let n := node_set_state n (fst r) in
             match snd r with
             | Some state =>
                 ret (installChild n
                        (MDL_SKIP_T_HYPO_new next (t_logLikelihood (node_hypo n))
                           continueLogLikelihood skipLogLikelihood state),
                      S next)
             | None => ret (n, next)
             end)
          (iota numNewStates) g1
  else ret g1.

(** [MDL_CONTINUE_T_HYPO::makeChildrenFor], inherited by START and SKIP. *)
Definition CONTINUE_makeChildrenFor (report : CONSTPOS_REPORT D) (g : GROWN)
    : M GROWN :=
  let '(n, next) := g in
  do m_state <- t_state (node_hypo n);
  let mdl := m_mdl m_state in
  let continueLogLikelihood := getContinueLogLikelihood mdl m_state in
  let detectLogLikelihood := getDetectLogLikelihood mdl m_state in
  let numNewStates := beginNewStates mdl (Some m_state) (Some report) in
  foldM (fun (g : GROWN) i =>
           let '(n, next) := g in
           do r <- getNewState mdl i (t_state (node_hypo n)) (Some report);
           let n := node_set_state n (fst r) in
           match snd r with
           | Some state =>
               ret (installChild n
                      (MDL_CONTINUE_T_HYPO_new next
                         (t_logLikelihood (node_hypo n)) continueLogLikelihood
                         detectLogLikelihood state report),
                    S next)
           | None => ret (n, next)
           end)
        (iota numNewStates) (n, next).

(** The virtual calls, dispatched on the class of the node. *)
Definition makeDefaultChildren (g : GROWN) : M GROWN :=
  match t_kind (node_hypo (fst g)) with
  | ROOT => ROOT_makeDefaultChildren g
  | DUMMY | FALARM | END => DUMMY_makeDefaultChildren g
  | CONTINUE | START | SKIP => CONTINUE_makeDefaultChildren g
  end.

Definition makeChildrenFor (modelList : list (CONSTVEL_MDL D))
    (report : CONSTPOS_REPORT D) (g : GROWN) : M GROWN :=
  match t_kind (node_hypo (fst g)) with
  | ROOT => ROOT_makeChildrenFor modelList report g
  | DUMMY | FALARM | END => ret g
  | CONTINUE | START | SKIP => CONTINUE_makeChildrenFor report g
  end.

(** The node at an address, and its replacement. *)
Fixpoint findNode (a : nat) (t : TNODE) : option TNODE :=
  let 'Node h cs := t in
  if Nat.eqb (t_addr h) a then Some t
  else (fix go (l : list TNODE) : option TNODE :=
          match l with
          | [] => None
          | c :: l' => match findNode a c with
                       | Some r => Some r
                       | None => go l'
                       end
          end) cs.

Fixpoint replaceNode (a : nat) (new : TNODE) (t : TNODE) : TNODE :=
  let 'Node h cs := t in
  if Nat.eqb (t_addr h) a then new
  else Node h (map (replaceNode a new) cs).

(** The leaves of a tree, in the order of a traversal from the root. *)
Fixpoint leaves (t : TNODE) : list T_HYPO :=
  let 'Node h cs := t in
  match cs with
  | [] => [h]
  | _ => flat_map leaves cs
  end.

(* ------------------------------------------------------------------ *)
(** * The engine *)

(** [T_TREE]: the tree (empty or rooted), the track id, the group id. *)
Record T_TREE : Type := {
  m_tree : option TNODE;
  m_id : Z;
  t_groupId : Z
}.

(** [G_HYPO] and [GROUP]. *)
Record G_HYPO : Type := {
  g_logLikelihood : D;
  m_numTHyposUsedInProblem : Z;
  m_tHypoLinks : list nat
}.

Record GROUP : Type := { m_gHypoList : list G_HYPO }.

(** Modelled from the spec: corner.h is not among the sources.  A
    detection (CORNERXY) is the tuple (x, y, texture[25], frame number,
    detection id) and a batch (CORNERLIST) is (time_delta, detections),
    Section 6 of the specification. *)
Record CORNERXY : Type := {
  c_x : D;
  c_y : D;
  c_textureInfo : Texture_t D;
  c_frameNo : Z;
  c_cornerID : Z
}.

Record CORNERLIST : Type := {
  c_list : list CORNERXY;
  m_dT : D
}.

(** A call of one of the virtual members [falseAlarm], [startTrack],
    [continueTrack], [skipTrack], [endTrack] of [MDL_MHT], with its
    arguments. *)
Inductive EVENT : Type :=
| falseAlarm (t : Z) (report : option nat)
| startTrack (id t : Z) (state : option (CONSTVEL_STATE D)) (report : option nat)
| continueTrack (id t : Z) (state : option (CONSTVEL_STATE D)) (report : option nat)
| skipTrack (id t : Z) (state : option (CONSTVEL_STATE D))
| endTrack (id t : Z).

(** The members of [MHT], [MDL_MHT] and [CORNER_TRACK_MHT]. *)
Record MHT : Type := {
  m_lastTrackIdUsed : Z;
  m_currentTime : Z;
  m_maxDepth : Z;
  m_logMinGHypoRatio : D;
  m_maxGHypos : Z;
  m_tTreeList : list T_TREE;
  (* the id of the first tree not yet in a group *)
  m_nextNewTTree : option Z;
  m_groupList : list GROUP;
  m_oldReportList : list (CONSTPOS_REPORT D);
  m_newReportList : list (CONSTPOS_REPORT D);
  (* addresses of the leaves *)
  m_activeTHypoList : list nat;
  m_reportsQueue : list CORNERLIST;
  m_isFirstScan : bool;
  (* MDL_MHT *)
  m_modelList : list (CONSTVEL_MDL D);
  (* CORNER_TRACK_MHT::m_falarmLogLikelihood *)
  mht_falarmLogLikelihood : D;
  (* the calls made into the application, oldest first *)
  m_verified : list EVENT;
  (* the next fresh node address *)
  m_nextTHypo : nat;
  (* the next fresh report address *)
  m_nextReport : nat
}.

Definition set_lastTrackIdUsed (v : Z) (st : MHT) : MHT :=
  {| m_lastTrackIdUsed := v; m_currentTime := m_currentTime st; m_maxDepth
     := m_maxDepth st; m_logMinGHypoRatio := m_logMinGHypoRatio st;
     m_maxGHypos := m_maxGHypos st; m_tTreeList := m_tTreeList st;
     m_nextNewTTree := m_nextNewTTree st; m_groupList := m_groupList st;
     m_oldReportList := m_oldReportList st; m_newReportList :=
     m_newReportList st; m_activeTHypoList := m_activeTHypoList st;
     m_reportsQueue := m_reportsQueue st; m_isFirstScan := m_isFirstScan
     st; m_modelList := m_modelList st; mht_falarmLogLikelihood :=
     mht_falarmLogLikelihood st; m_verified := m_verified st; m_nextTHypo
     := m_nextTHypo st; m_nextReport := m_nextReport st |}.
Definition set_currentTime (v : Z) (st : MHT) : MHT :=
  {| m_lastTrackIdUsed := m_lastTrackIdUsed st; m_currentTime := v;
     m_maxDepth := m_maxDepth st; m_logMinGHypoRatio := m_logMinGHypoRatio
     st; m_maxGHypos := m_maxGHypos st; m_tTreeList := m_tTreeList st;
     m_nextNewTTree := m_nextNewTTree st; m_groupList := m_groupList st;
     m_oldReportList := m_oldReportList st; m_newReportList :=
     m_newReportList st; m_activeTHypoList := m_activeTHypoList st;
     m_reportsQueue := m_reportsQueue st; m_isFirstScan := m_isFirstScan
     st; m_modelList := m_modelList st; mht_falarmLogLikelihood :=
     mht_falarmLogLikelihood st; m_verified := m_verified st; m_nextTHypo
     := m_nextTHypo st; m_nextReport := m_nextReport st |}.
Definition set_tTreeList (v : list T_TREE) (st : MHT) : MHT :=
  {| m_lastTrackIdUsed := m_lastTrackIdUsed st; m_currentTime :=
     m_currentTime st; m_maxDepth := m_maxDepth st; m_logMinGHypoRatio :=
     m_logMinGHypoRatio st; m_maxGHypos := m_maxGHypos st; m_tTreeList :=
     v; m_nextNewTTree := m_nextNewTTree st; m_groupList := m_groupList
     st; m_oldReportList := m_oldReportList st; m_newReportList :=
     m_newReportList st; m_activeTHypoList := m_activeTHypoList st;
     m_reportsQueue := m_reportsQueue st; m_isFirstScan := m_isFirstScan
     st; m_modelList := m_modelList st; mht_falarmLogLikelihood :=
     mht_falarmLogLikelihood st; m_verified := m_verified st; m_nextTHypo
     := m_nextTHypo st; m_nextReport := m_nextReport st |}.
Definition set_nextNewTTree (v : option Z) (st : MHT) : MHT :=
  {| m_lastTrackIdUsed := m_lastTrackIdUsed st; m_currentTime :=
     m_currentTime st; m_maxDepth := m_maxDepth st; m_logMinGHypoRatio :=
     m_logMinGHypoRatio st; m_maxGHypos := m_maxGHypos st; m_tTreeList :=
     m_tTreeList st; m_nextNewTTree := v; m_groupList := m_groupList st;
     m_oldReportList := m_oldReportList st; m_newReportList :=
     m_newReportList st; m_activeTHypoList := m_activeTHypoList st;
     m_reportsQueue := m_reportsQueue st; m_isFirstScan := m_isFirstScan
     st; m_modelList := m_modelList st; mht_falarmLogLikelihood :=
     mht_falarmLogLikelihood st; m_verified := m_verified st; m_nextTHypo
     := m_nextTHypo st; m_nextReport := m_nextReport st |}.
Definition set_groupList (v : list GROUP) (st : MHT) : MHT :=
  {| m_lastTrackIdUsed := m_lastTrackIdUsed st; m_currentTime :=
     m_currentTime st; m_maxDepth := m_maxDepth st; m_logMinGHypoRatio :=
     m_logMinGHypoRatio st; m_maxGHypos := m_maxGHypos st; m_tTreeList :=
     m_tTreeList st; m_nextNewTTree := m_nextNewTTree st; m_groupList :=
     v; m_oldReportList := m_oldReportList st; m_newReportList :=
     m_newReportList st; m_activeTHypoList := m_activeTHypoList st;
     m_reportsQueue := m_reportsQueue st; m_isFirstScan := m_isFirstScan
     st; m_modelList := m_modelList st; mht_falarmLogLikelihood :=
     mht_falarmLogLikelihood st; m_verified := m_verified st; m_nextTHypo
     := m_nextTHypo st; m_nextReport := m_nextReport st |}.
Definition set_oldReportList (v : list (CONSTPOS_REPORT D)) (st : MHT) : MHT :=
  {| m_lastTrackIdUsed := m_lastTrackIdUsed st; m_currentTime :=
     m_currentTime st; m_maxDepth := m_maxDepth st; m_logMinGHypoRatio :=
     m_logMinGHypoRatio st; m_maxGHypos := m_maxGHypos st; m_tTreeList :=
     m_tTreeList st; m_nextNewTTree := m_nextNewTTree st; m_groupList :=
     m_groupList st; m_oldReportList := v; m_newReportList :=
     m_newReportList st; m_activeTHypoList := m_activeTHypoList st;
     m_reportsQueue := m_reportsQueue st; m_isFirstScan := m_isFirstScan
     st; m_modelList := m_modelList st; mht_falarmLogLikelihood :=
     mht_falarmLogLikelihood st; m_verified := m_verified st; m_nextTHypo
     := m_nextTHypo st; m_nextReport := m_nextReport st |}.
Definition set_newReportList (v : list (CONSTPOS_REPORT D)) (st : MHT) : MHT :=
  {| m_lastTrackIdUsed := m_lastTrackIdUsed st; m_currentTime :=
     m_currentTime st; m_maxDepth := m_maxDepth st; m_logMinGHypoRatio :=
     m_logMinGHypoRatio st; m_maxGHypos := m_maxGHypos st; m_tTreeList :=
     m_tTreeList st; m_nextNewTTree := m_nextNewTTree st; m_groupList :=
     m_groupList st; m_oldReportList := m_oldReportList st;
     m_newReportList := v; m_activeTHypoList := m_activeTHypoList st;
     m_reportsQueue := m_reportsQueue st; m_isFirstScan := m_isFirstScan
     st; m_modelList := m_modelList st; mht_falarmLogLikelihood :=
     mht_falarmLogLikelihood st; m_verified := m_verified st; m_nextTHypo
     := m_nextTHypo st; m_nextReport := m_nextReport st |}.
Definition set_activeTHypoList (v : list nat) (st : MHT) : MHT :=
  {| m_lastTrackIdUsed := m_lastTrackIdUsed st; m_currentTime :=
     m_currentTime st; m_maxDepth := m_maxDepth st; m_logMinGHypoRatio :=
     m_logMinGHypoRatio st; m_maxGHypos := m_maxGHypos st; m_tTreeList :=
     m_tTreeList st; m_nextNewTTree := m_nextNewTTree st; m_groupList :=
     m_groupList st; m_oldReportList := m_oldReportList st;
     m_newReportList := m_newReportList st; m_activeTHypoList := v;
     m_reportsQueue := m_reportsQueue st; m_isFirstScan := m_isFirstScan
     st; m_modelList := m_modelList st; mht_falarmLogLikelihood :=
     mht_falarmLogLikelihood st; m_verified := m_verified st; m_nextTHypo
     := m_nextTHypo st; m_nextReport := m_nextReport st |}.
Definition set_reportsQueue (v : list CORNERLIST) (st : MHT) : MHT :=
  {| m_lastTrackIdUsed := m_lastTrackIdUsed st; m_currentTime :=
     m_currentTime st; m_maxDepth := m_maxDepth st; m_logMinGHypoRatio :=
     m_logMinGHypoRatio st; m_maxGHypos := m_maxGHypos st; m_tTreeList :=
     m_tTreeList st; m_nextNewTTree := m_nextNewTTree st; m_groupList :=
     m_groupList st; m_oldReportList := m_oldReportList st;
     m_newReportList := m_newReportList st; m_activeTHypoList :=
     m_activeTHypoList st; m_reportsQueue := v; m_isFirstScan :=
     m_isFirstScan st; m_modelList := m_modelList st;
     mht_falarmLogLikelihood := mht_falarmLogLikelihood st; m_verified :=
     m_verified st; m_nextTHypo := m_nextTHypo st; m_nextReport :=
     m_nextReport st |}.
Definition set_isFirstScan (v : bool) (st : MHT) : MHT :=
  {| m_lastTrackIdUsed := m_lastTrackIdUsed st; m_currentTime :=
     m_currentTime st; m_maxDepth := m_maxDepth st; m_logMinGHypoRatio :=
     m_logMinGHypoRatio st; m_maxGHypos := m_maxGHypos st; m_tTreeList :=
     m_tTreeList st; m_nextNewTTree := m_nextNewTTree st; m_groupList :=
     m_groupList st; m_oldReportList := m_oldReportList st;
     m_newReportList := m_newReportList st; m_activeTHypoList :=
     m_activeTHypoList st; m_reportsQueue := m_reportsQueue st;
     m_isFirstScan := v; m_modelList := m_modelList st;
     mht_falarmLogLikelihood := mht_falarmLogLikelihood st; m_verified :=
     m_verified st; m_nextTHypo := m_nextTHypo st; m_nextReport :=
     m_nextReport st |}.
Definition set_verified (v : list EVENT) (st : MHT) : MHT :=
  {| m_lastTrackIdUsed := m_lastTrackIdUsed st; m_currentTime :=
     m_currentTime st; m_maxDepth := m_maxDepth st; m_logMinGHypoRatio :=
     m_logMinGHypoRatio st; m_maxGHypos := m_maxGHypos st; m_tTreeList :=
     m_tTreeList st; m_nextNewTTree := m_nextNewTTree st; m_groupList :=
     m_groupList st; m_oldReportList := m_oldReportList st;
     m_newReportList := m_newReportList st; m_activeTHypoList :=
     m_activeTHypoList st; m_reportsQueue := m_reportsQueue st;
     m_isFirstScan := m_isFirstScan st; m_modelList := m_modelList st;
     mht_falarmLogLikelihood := mht_falarmLogLikelihood st; m_verified :=
     v; m_nextTHypo := m_nextTHypo st; m_nextReport := m_nextReport st |}.
Definition set_nextTHypo (v : nat) (st : MHT) : MHT :=
  {| m_lastTrackIdUsed := m_lastTrackIdUsed st; m_currentTime :=
     m_currentTime st; m_maxDepth := m_maxDepth st; m_logMinGHypoRatio :=
     m_logMinGHypoRatio st; m_maxGHypos := m_maxGHypos st; m_tTreeList :=
     m_tTreeList st; m_nextNewTTree := m_nextNewTTree st; m_groupList :=
     m_groupList st; m_oldReportList := m_oldReportList st;
     m_newReportList := m_newReportList st; m_activeTHypoList :=
     m_activeTHypoList st; m_reportsQueue := m_reportsQueue st;
     m_isFirstScan := m_isFirstScan st; m_modelList := m_modelList st;
     mht_falarmLogLikelihood := mht_falarmLogLikelihood st; m_verified :=
     m_verified st; m_nextTHypo := v; m_nextReport := m_nextReport st |}.
Definition set_nextReport (v : nat) (st : MHT) : MHT :=
  {| m_lastTrackIdUsed := m_lastTrackIdUsed st; m_currentTime :=
     m_currentTime st; m_maxDepth := m_maxDepth st; m_logMinGHypoRatio :=
     m_logMinGHypoRatio st; m_maxGHypos := m_maxGHypos st; m_tTreeList :=
     m_tTreeList st; m_nextNewTTree := m_nextNewTTree st; m_groupList :=
     m_groupList st; m_oldReportList := m_oldReportList st;
     m_newReportList := m_newReportList st; m_activeTHypoList :=
     m_activeTHypoList st; m_reportsQueue := m_reportsQueue st;
     m_isFirstScan := m_isFirstScan st; m_modelList := m_modelList st;
     mht_falarmLogLikelihood := mht_falarmLogLikelihood st; m_verified :=
     m_verified st; m_nextTHypo := m_nextTHypo st; m_nextReport := v |}.

(** [MHT::installReport] *)
Definition installReport (report : CONSTPOS_REPORT D) (st : MHT) : MHT :=
  set_newReportList (m_newReportList st ++ [report]) st.

(** [CORNER_TRACK_MHT::measure]: one report per corner of the frame.  The
    base class REPORT starts with row number 0 and group id 0.  (The call
    [measure(newReports, deltaT)] of [measureAndValidate] is taken to reach
    this member, which has no parameter for [deltaT].) *)
Definition measure (newReports : list CORNERXY) (st : MHT) : MHT :=
  fold_left
    (fun st cornerPtr =>
       let report :=
         {| r_addr := m_nextReport st; m_rowNum := 0; m_groupId := 0;
            m_falarmLogLikelihood := mht_falarmLogLikelihood st;
            r_x := c_x cornerPtr; r_y := c_y cornerPtr;
            m_textureInfo := c_textureInfo cornerPtr;
            m_frameNo := c_frameNo cornerPtr;
            m_cornerID := c_cornerID cornerPtr |} in
       installReport report (set_nextReport (S (m_nextReport st)) st))
    newReports st.

(** [MHT::installTree] *)
Definition installTree (rootNode : T_HYPO) (timeOffset : Z) (st : MHT) : MHT :=
  let tree :=
    {| m_tree := Some (Node (setStamp rootNode (m_currentTime st + timeOffset)) []);
       m_id := m_lastTrackIdUsed st;
       t_groupId := 0 |} in
  let st := set_lastTrackIdUsed (m_lastTrackIdUsed st + 1) st in
  let st := set_activeTHypoList (m_activeTHypoList st ++ [t_addr rootNode]) st in
  let st := set_tTreeList (m_tTreeList st ++ [tree]) st in
  match m_nextNewTTree st with
  | Some _ => st
  | None => set_nextNewTTree (Some (m_id tree)) st
  end.

(** A member called through a pointer to a node: the node is looked up in
    the trees, the member runs, the node is written back.  A pointer to no
    node of any tree is an abort. *)
Fixpoint findInTrees (a : nat) (l : list T_TREE) : option TNODE :=
  match l with
  | [] => None
  | t :: l' =>
      match m_tree t with
      | Some root =>
          match findNode a root with
          | Some n => Some n
          | None => findInTrees a l'
          end
      | None => findInTrees a l'
      end
  end.

Definition set_tree (t : T_TREE) (r : option TNODE) : T_TREE :=
  {| m_tree := r; m_id := m_id t; t_groupId := t_groupId t |}.

Definition setGroupId (t : T_TREE) (groupId : Z) : T_TREE :=
  {| m_tree := m_tree t; m_id := m_id t; t_groupId := groupId |}.

Definition replaceInTrees (a : nat) (new : TNODE) (l : list T_TREE) : list T_TREE :=
  map (fun t => set_tree t (option_map (replaceNode a new) (m_tree t))) l.

Definition growAt (a : nat) (f : GROWN -> M GROWN) (st : MHT) : M MHT :=
  do n <- findInTrees a (m_tTreeList st);
  do g <- f (n, m_nextTHypo st);
  ret (set_nextTHypo (snd g)
         (set_tTreeList (replaceInTrees a (fst g) (m_tTreeList st)) st)).

(** The two loop bodies of [MDL_MHT::measureAndValidate]: an active leaf
    is given its default children and its children for every new report;
    a report gets a track tree of its own, rooted one scan back, whose
    root is given its default children and its children for the report. *)
Definition growLeaf (st : MHT) (tHypo : nat) : M MHT :=
  do st <- growAt tHypo makeDefaultChildren st;
  foldM (fun st report =>
           growAt tHypo (makeChildrenFor (m_modelList st) report) st)
        (m_newReportList st) st.

Definition rootNewTree (st : MHT) (report : CONSTPOS_REPORT D) : M MHT :=
  let a := m_nextTHypo st in
  let root := MDL_ROOT_T_HYPO_new a in
  let st := installTree root (-1) (set_nextTHypo (S a) st) in
  do st <- growAt a makeDefaultChildren st;
  growAt a (makeChildrenFor (m_modelList st) report) st.

(** [MDL_MHT::measureAndValidate] *)
Definition measureAndValidate (newReports : list CORNERXY) (deltaT : D)
    (st : MHT) : M MHT :=
  (* get reports of measurements *)
  let st := measure newReports st in
  (* make children for each active track hypothesis *)
  do st <- foldM growLeaf (m_activeTHypoList st) st;
  (* make a new track tree for each reported measurement *)
  foldM rootNewTree (m_newReportList st) st.

(** [MHT::importNewReports]: number the new reports from 0, then move them
    to the end of the old list. *)
Definition setRowNum (r : CONSTPOS_REPORT D) (rowNum : Z) : CONSTPOS_REPORT D :=
  {| r_addr := r_addr r; m_rowNum := rowNum; m_groupId := m_groupId r;
     m_falarmLogLikelihood := m_falarmLogLikelihood r;
     r_x := r_x r; r_y := r_y r; m_textureInfo := m_textureInfo r;
     m_frameNo := m_frameNo r; m_cornerID := m_cornerID r |}.

Fixpoint number_from (rowNum : Z) (l : list (CONSTPOS_REPORT D))
    : list (CONSTPOS_REPORT D) :=
  match l with
  | [] => []
  | r :: l' => setRowNum r rowNum :: number_from (rowNum + 1) l'
  end.

Definition importNewReports (st : MHT) : MHT :=
  set_newReportList []
    (set_oldReportList (m_oldReportList st ++ number_from 0 (m_newReportList st)) st).

(** [GROUP::GROUP( T_TREE * )]: one group hypothesis that postulates the root. *)
Definition GROUP_new (tree : T_TREE) : M GROUP :=
  do root <- m_tree tree;
  ret {| m_gHypoList :=
           [ {| g_logLikelihood := dofZ 0 + t_logLikelihood (node_hypo root);
                m_numTHyposUsedInProblem := 0;
                m_tHypoLinks := [t_addr (node_hypo root)] |} ] |}.

Fixpoint from_tree (id : Z) (l : list T_TREE) : list T_TREE :=
  match l with
  | [] => []
  | t :: l' => if (m_id t =? id)%Z then l else from_tree id l'
  end.

(** [MHT::makeNewGroups] *)
Definition makeNewGroups (st : MHT) : M MHT :=
  match m_nextNewTTree st with
  | None => ret st
  | Some id =>
      do st <- foldM (fun st tree =>
                        do g <- GROUP_new tree;
                        ret (set_groupList (m_groupList st ++ [g]) st))
                     (from_tree id (m_tTreeList st)) st;
      ret (set_nextNewTTree None st)
  end.

(** The virtual [verify] of a node: the call it makes into the application.
    The base member [T_HYPO::verify], which ROOT and DUMMY keep, is
    [assert(false)]. *)
Definition verify (id : Z) (h : T_HYPO) : M EVENT :=
  match t_kind h with
  | FALARM => ret (falseAlarm (m_timeStamp h) (m_reportLink h))
  | CONTINUE => ret (continueTrack id (m_timeStamp h) (t_state h) (m_reportLink h))
  | START => ret (startTrack id (m_timeStamp h) (t_state h) (m_reportLink h))
  | SKIP => ret (skipTrack id (m_timeStamp h) (t_state h))
  | END => ret (endTrack id (m_timeStamp h))
  | ROOT | DUMMY => abort
  end.

Definition verify_if (b : bool) (id : Z) (h : T_HYPO) : M (list EVENT) :=
  if b then do e <- verify id h; ret [e] else ret [].

(** The body of the loop of [MHT::verifyTTreeRoots] for one non-empty tree:
    the events of the calls of [verify], and the root that is left. *)
Fixpoint verifyRoot (id : Z) (root : TNODE) : M (list EVENT * TNODE) :=
  let final h :=
    do ev <- verify_if (m_endsTrack h && m_mustVerify h) id h;
    ret (ev, root) in
  match root with
  | Node h [c] =>
      if negb (m_endsTrack h) then
        do ev <- verify_if (m_mustVerify h) id h;
        do r <- verifyRoot id c;
        ret (ev ++ fst r, snd r)
      else final h
  | Node h _ => final h
  end.

(** [MHT::verifyTTreeRoots] *)
Definition verifyTTreeRoots (st : MHT) : M MHT :=
  do r <- foldM
    (fun (acc : list EVENT * list T_TREE) tTree =>
       match m_tree tTree with
       | None => ret (fst acc, snd acc ++ [tTree])
       | Some root =>
           do r <- verifyRoot (m_id tTree) root;
           ret (fst acc ++ fst r, snd acc ++ [set_tree tTree (Some (snd r))])
       end)
    (m_tTreeList st) (m_verified st, []);
  ret (set_tTreeList (snd r) (set_verified (fst r) st)).

(** [MHT::updateActiveTHypoList] *)
Definition updateActiveTHypoList (st : MHT) : MHT :=
  set_activeTHypoList
    (m_activeTHypoList st
     ++ flat_map (fun tTree =>
                    match m_tree tTree with
                    | Some root => map t_addr (leaves root)
                    | None => []
                    end) (m_tTreeList st))
    st.

(** The members of [MHT] whose bodies rest on GROUP, G_HYPO, REPORT and the
    link sets of links.h, defined in files that are not among the sources:
    they are parameters of [scan]. *)
Record GROUPING : Type := {
  findGroupLabels : MHT -> M MHT;
  splitGroups : MHT -> M MHT;
  mergeGroups : MHT -> M MHT;
  pruneAndHypothesize : MHT -> M MHT;
  removeUnusedTHypos : MHT -> M MHT;
  removeUnusedTTrees : MHT -> M MHT;
  removeUnusedReports : MHT -> M MHT;
  removeUnusedGroups : MHT -> M MHT
}.

Variable G : GROUPING.

(** [MHT::addReports] *)
Definition addReports (newReports : CORNERLIST) (st : MHT) : MHT :=
  set_reportsQueue (m_reportsQueue st ++ [newReports]) st.

(** [MHT::scan].  The three debugging hooks only print, and their windows
    [m_dbgStartA .. m_dbgEndC] are private and empty. *)
Definition scan (st : MHT) : M (Z * MHT) :=
  match m_reportsQueue st with
  | [] => ret (0%Z, st)
  | newReports :: queue =>
      let st := set_reportsQueue queue st in
      do st <- measureAndValidate (c_list newReports) (m_dT newReports) st;
      let st := set_currentTime (m_currentTime st + 1) st in
      let st := set_activeTHypoList [] st in
      let st := importNewReports st in
      match m_tTreeList st with
      | [] => ret (0%Z, st)
      | _ =>
          do st <- makeNewGroups st;
          do st <- findGroupLabels G st;
          do st <- splitGroups G st;
          do st <- mergeGroups G st;
          do st <- pruneAndHypothesize G st;
          do st <- removeUnusedTHypos G st;
          do st <- verifyTTreeRoots st;
          do st <- removeUnusedTTrees G st;
          do st <- removeUnusedReports G st;
          do st <- removeUnusedGroups G st;
          let st := updateActiveTHypoList st in
          let st := set_isFirstScan false st in
          ret (1%Z, st)
      end
  end.

End Engine.

Arguments T_HYPO : clear implicits.
Arguments TNODE : clear implicits.
Arguments T_TREE : clear implicits.
Arguments G_HYPO : clear implicits.
Arguments GROUP : clear implicits.
Arguments CORNERXY : clear implicits.
Arguments CORNERLIST : clear implicits.
Arguments EVENT : clear implicits.
Arguments MHT : clear implicits.
Arguments GROUPING : clear implicits.
Arguments GROWN : clear implicits.

(* ------------------------------------------------------------------ *)
(** * The engine as the constructors leave it *)

Section Construction.
Context {D : Type} {DD : Double D} {LD : Libm D}.

(** [MHT::MHT], [MDL_MHT::MDL_MHT] and the constructor of
    [CORNER_TRACK_MHT], whose arguments are the three pruning parameters,
    the model list and the false-alarm log-likelihood. *)
Definition MHT_new (maxDepth : Z) (minGHypoRatio : D) (maxGHypos : Z)
    (modelList : list (CONSTVEL_MDL D)) (falarmLogLikelihood : D) : MHT D :=
  {| m_lastTrackIdUsed := 0; m_currentTime := 0; m_maxDepth := maxDepth;
     m_logMinGHypoRatio := dlog minGHypoRatio; m_maxGHypos := maxGHypos;
     m_tTreeList := []; m_nextNewTTree := None; m_groupList := [];
     m_oldReportList := []; m_newReportList := []; m_activeTHypoList := [];
     m_reportsQueue := []; m_isFirstScan := true;
     m_modelList := modelList; mht_falarmLogLikelihood := falarmLogLikelihood;
     m_verified := []; m_nextTHypo := 0%nat; m_nextReport := 0%nat |}.

(** A stand-in for the grouping members that does nothing; it is used to
    run [scan] on inputs that never reach them. *)
Definition no_grouping : GROUPING D :=
  {| findGroupLabels := ret; splitGroups := ret; mergeGroups := ret;
     pruneAndHypothesize := ret; removeUnusedTHypos := ret;
     removeUnusedTTrees := ret; removeUnusedReports := ret;
     removeUnusedGroups := ret |}.

End Construction.

(* ------------------------------------------------------------------ *)
(** * What the properties are stated with *)

Section EngineSpec.
Context {D : Type} {DD : Double D} {LD : Libm D}.

(** What [measureAndValidate] never touches: the clock, the queue, the
    groups, the old reports, the first-scan flag, the calls made into the
    application. *)
Definition frame (st st' : MHT D) : Prop :=
  m_currentTime st' = m_currentTime st /\
  m_reportsQueue st' = m_reportsQueue st /\
  m_groupList st' = m_groupList st /\
  m_oldReportList st' = m_oldReportList st /\
  m_isFirstScan st' = m_isFirstScan st /\
  m_verified st' = m_verified st /\
  m_modelList st' = m_modelList st.

(** [popsTo t popped final]: starting from the root of [t], as long as the
    root has exactly one child and does not end the track it is popped and
    its child takes its place; [popped] lists the popped roots, oldest
    first, and [final] is the tree whose root stays. *)
Inductive popsTo : TNODE D -> list (T_HYPO D) -> TNODE D -> Prop :=
| pops_stop t :
    hasOneChild t && negb (m_endsTrack (node_hypo t)) = false ->
    popsTo t [] t
| pops_step h c popped final :
    m_endsTrack h = false ->
    popsTo c popped final ->
    popsTo (Node h [c]) (h :: popped) final.


(** The derived block of a state, with the flag that guards it. *)
Definition derived_of (s : CONSTVEL_STATE D) :=
  (m_hasBeenSetup s, m_ds s, m_logLikelihoodCoef s, m_Sinv s, m_W s, m_nextP s,
   m_x1 s).


(** The addresses of the nodes of a tree. *)
Fixpoint addrs (t : TNODE D) : list nat :=
  let 'Node h cs := t in t_addr h :: flat_map addrs cs.

(** Every node of the tree was allocated before the address [k]. *)
Definition below (k : nat) (t : TNODE D) : Prop :=
  Forall (fun a => (a < k)%nat) (addrs t).

(** The allocation invariant of the engine: the next fresh node address is
    above the address of every node of every tree. *)
Definition fresh_above (k : nat) (l : list (T_TREE D)) : Prop :=
  Forall (fun t => match m_tree t with
                   | Some root => below k root
                   | None => True
                   end) l.

(** A member that grows children under a node allocates them at the fresh
    addresses it is given, and upwards. *)
Definition grower_ok (f : GROWN D -> M (GROWN D)) : Prop :=
  forall n next n' next',
    below next n -> f (n, next) = Some (n', next') ->
    (next <= next')%nat /\ below next' n'.

(** The tree rooted for a report starts a track: its root is a ROOT
    with a START child linked to the report, before the FALARM and DUMMY
    children. *)
Definition starts_track (report : CONSTPOS_REPORT D) (T : T_TREE D) : Prop :=
  exists root start falarm dummy,
    m_tree T = Some (Node root [Node start []; Node falarm []; Node dummy []]) /\
    t_kind root = ROOT /\
    t_kind start = START /\
    m_reportLink start = Some (r_addr report) /\
    t_kind falarm = FALARM /\
    t_kind dummy = DUMMY.

End EngineSpec.

Section RealSpec.
Local Open Scope R_scope.

(** The end probability the two functions take the logarithm of. *)
Definition p_end (lambda : R) (m : Z) : R :=
  let p := 1 - exp (- IZR m / lambda) in
  if Req_dec_T p 0 then p + / 100000000000000 else p.

(** Sums over a list, and the accumulation loops of the sources as sums. *)
Definition rsum {X} (f : X -> R) (l : list X) : R :=
  fold_right (fun p acc => f p + acc) 0 l.

(** The variance of a window: what [windowSigma] takes the square root of. *)
Definition variance (t : Texture_t R) (ym xm : Z) : R :=
  rsum (fun p => tex t (index_of ym xm p) * tex t (index_of ym xm p)) ji / 9
  - windowMean t ym xm * windowMean t ym xm.

(** The sliding loop never aborts in exact arithmetic; it computes the
    running maximum. *)
Definition run_max (st rp : Texture_t R) (l : list (Z * Z)) (m : R) : R :=
  fold_left (fun m p => Rmax m (corrAt st rp (fst p) (snd p))) l m.

(** The derived block as Section 4.4 of the specification words it, for an
    inter-frame interval [dt]. *)
Definition F_spec (dt : R) : MATRIX R :=
  [ [1; dt; 0; 0]; [0; 1; 0; 0]; [0; 0; 1; dt]; [0; 0; 0; 1] ].

Definition Q_spec (sigma2_process dt : R) : MATRIX R :=
  map (map (Rmult sigma2_process))
    [ [dt ^ 3 / 3; dt ^ 2 / 2; 0; 0];
      [dt ^ 2 / 2; dt; 0; 0];
      [0; 0; dt ^ 3 / 3; dt ^ 2 / 2];
      [0; 0; dt ^ 2 / 2; dt] ].

Definition H_spec : MATRIX R := [ [1; 0; 0; 0]; [0; 0; 1; 0] ].

Record DERIVED : Type := {
  P1_spec : MATRIX R;
  S_spec : MATRIX R;
  W_spec : MATRIX R;
  P_next_spec : MATRIX R;
  x_pred_spec : MATRIX R;
  log_coef_spec : R
}.

Definition derived_spec (dt sigma2_process : R) (Rm P x : MATRIX R) : DERIVED :=
  let F := F_spec dt in
  let P1 := madd (mmul (mmul F P) (mtrans F)) (Q_spec sigma2_process dt) in
  let S := madd (mmul (mmul H_spec P1) (mtrans H_spec)) Rm in
  let W := mmul (mmul P1 (mtrans H_spec)) (minv S) in
  {| P1_spec := P1;
     S_spec := S;
     W_spec := W;
     P_next_spec := msub P1 (mmul (mmul W S) (mtrans W));
     x_pred_spec := mmul F x;
     log_coef_spec := - (1.5963597 + / 2 * ln (mdet S)) |}.

(** A black 5 x 5 texture. *)
Definition texture_black : Texture_t R := repeat 0 25.

(** A state at (0, 1, 0, 0) with a zero covariance, for a model with the
    process variance 1 and the measurement covariance I. *)
Definition state_moving : CONSTVEL_STATE R :=
  CONSTVEL_STATE_new
    (CONSTVEL_MDL_new 1 1 1 1 1 1 1 (1 / 2) 1 0 10)
    0 1 0 0 texture_black
    [ [0; 0; 0; 0]; [0; 0; 0; 0]; [0; 0; 0; 0]; [0; 0; 0; 0] ] 0 0.

(** A model, a state at rest at the origin as a START node holds it, and a
    report at (1, 0). *)
Definition mdl_unit : CONSTVEL_MDL R :=
  CONSTVEL_MDL_new 1 1 1 1 1 1 1 (1 / 2) 1 0 10.

Definition state_at_rest : CONSTVEL_STATE R :=
  CONSTVEL_STATE_new mdl_unit 0 0 0 0 texture_black (m_startP mdl_unit) 0 0.

Definition report_east : CONSTPOS_REPORT R :=
  {| r_addr := 0; m_rowNum := 0; m_groupId := 0; m_falarmLogLikelihood := 0;
     r_x := 1; r_y := 0; m_textureInfo := texture_black; m_frameNo := 1;
     m_cornerID := 0 |}.

(** An engine as [main] builds it, with one model. *)
Definition engine0 : MHT R := MHT_new 3 (1 / 1000) 10 [mdl_unit] (-5).

(** The same engine once its first scan is over and its trees are gone. *)
Definition engine1 : MHT R := set_isFirstScan false (set_currentTime 1 engine0).

Definition corner_east : CORNERXY R :=
  {| c_x := 1; c_y := 0; c_textureInfo := texture_black; c_frameNo := 1;
     c_cornerID := 0 |}.

Definition empty_batch : CORNERLIST R := {| c_list := []; m_dT := 1 |}.

End RealSpec.

(** A 5 x 5 texture that is black but for its centre pixel. *)
Definition texture_dot : Texture_t float :=
  map float_of_Z
    [0; 0; 0; 0; 0;
     0; 0; 0; 0; 0;
     0; 0; 1; 0; 0;
     0; 0; 0; 0; 0;
     0; 0; 0; 0; 0]%Z.

(* ------------------------------------------------------------------ *)
(** * Specification vocabulary of the model and of a scan *)

Section ModelSpec.
Context {D : Type} {DD : Double D} {LD : Libm D}.

(** A state whose flag [m_hasBeenSetup] is raised holds its derived block:
    only [setup] raises the flag, after it has allocated the four
    matrices. *)
Definition populated (s : CONSTVEL_STATE D) : Prop :=
  m_hasBeenSetup s = true ->
  exists Sinv W nextP x1,
    m_Sinv s = Some Sinv /\ m_W s = Some W /\ m_nextP s = Some nextP /\
    m_x1 s = Some x1.

End ModelSpec.

Section GrowthSpec.
Context {D : Type} {DD : Double D} {LD : Libm D}.
Local Open Scope double_scope.

(** The state a model starts a track with on a report. *)
Definition start_state (mdl : CONSTVEL_MDL D) (report : CONSTPOS_REPORT D)
    : CONSTVEL_STATE D :=
  CONSTVEL_STATE_new mdl (r_x report) (dofZ 0) (r_y report) (dofZ 0)
    (m_textureInfo report) (m_startP mdl) (m_startLogLikelihood mdl) 0.

(** The START children of a root for a report, one per model, in the
    order of the models; the first is allocated at [first]. *)
Fixpoint start_children (timeStamp : Z) (report : CONSTPOS_REPORT D)
    (first : nat) (modelList : list (CONSTVEL_MDL D)) : list (TNODE D) :=
  match modelList with
  | [] => []
  | mdl :: modelList' =>
      Node (setStamp (MDL_START_T_HYPO_new first (start_state mdl report) report)
              timeStamp) []
      :: start_children timeStamp report (S first) modelList'
  end.

(** The calls [measureAndValidate] makes on one node: the default children,
    then the children for each report in turn. *)
Definition grow (modelList : list (CONSTVEL_MDL D))
    (reports : list (CONSTPOS_REPORT D)) (g : GROWN D) : M (GROWN D) :=
  do g <- makeDefaultChildren g;
  foldM (fun g report => makeChildrenFor modelList report g) reports g.

(** [grown n next n' next']: the node [n'] is the node [n] with children
    added in front of the ones it had: leaves, stamped with the time of
    [n] plus one, allocated at the addresses [next], [next + 1], ... (the
    latest in front), up to [next']; of the members of the node itself
    only the state may differ. *)
Definition grown (n : TNODE D) (next : nat) (n' : TNODE D) (next' : nat) : Prop :=
  exists added,
    node_children n' = added ++ node_children n /\
    Forall (fun c => node_children c = [] /\
                     m_timeStamp (node_hypo c) = (m_timeStamp (node_hypo n) + 1)%Z)
           added /\
    map (fun c => t_addr (node_hypo c)) added = rev (seq next (length added)) /\
    next' = (next + length added)%nat /\
    node_hypo n' = set_state (node_hypo n) (t_state (node_hypo n')).

End GrowthSpec.

Section IngestSpec.
Context {D : Type} {DD : Double D} {LD : Libm D}.

(** What a report carries of a detection, and the same of the detection. *)
Definition report_data (r : CONSTPOS_REPORT D) :=
  (r_x r, r_y r, m_textureInfo r, m_frameNo r, m_cornerID r).

Definition corner_data (c : CORNERXY D) :=
  (c_x c, c_y c, c_textureInfo c, c_frameNo c, c_cornerID c).

(** The numbers [first], [first + 1], ..., [first + n - 1]. *)
Definition count_from (first : Z) (n : nat) : list Z :=
  map (fun i => (first + Z.of_nat i)%Z) (seq 0 n).

(** The root of a tree is stable: the loop of [verifyTTreeRoots] would not
    pop it. *)
Definition root_is_stable (t : T_TREE D) : Prop :=
  match m_tree t with
  | Some root => hasOneChild root && negb (m_endsTrack (node_hypo root)) = false
  | None => True
  end.

(** The tree [t'] is what popping roots leaves of the tree [t]. *)
Definition popped_from (t t' : T_TREE D) : Prop :=
  m_id t' = m_id t /\ t_groupId t' = t_groupId t /\
  match m_tree t, m_tree t' with
  | Some root, Some root' => exists popped, popsTo root popped root'
  | None, None => True
  | _, _ => False
  end.

End IngestSpec.

Section TreeSpec.
Context {D : Type} {DD : Double D} {LD : Libm D}.
Local Open Scope double_scope.

(** The tree [rootNewTree] makes for a report in the engine [st]: the root
    is stamped one scan back, its children with the current time. *)
Definition new_tree (st : MHT D) (report : CONSTPOS_REPORT D) : T_TREE D :=
  let a := m_nextTHypo st in
  let t := (m_currentTime st + -1 + 1)%Z in
  {| m_tree :=
       Some (Node (setStamp (MDL_ROOT_T_HYPO_new a) (m_currentTime st + -1))
               (rev (start_children t report (S (S (S a))) (m_modelList st))
                ++ [ Node (setStamp (MDL_FALARM_T_HYPO_new (S (S a)) report) t) [];
                     Node (setStamp (MDL_DUMMY_T_HYPO_new (S a) (dofZ 0)) t) [] ]));
     m_id := m_lastTrackIdUsed st;
     t_groupId := 0 |}.

(** The group [makeNewGroups] makes for a tree rooted at [root]. *)
Definition new_group (root : T_HYPO D) : GROUP D :=
  {| m_gHypoList :=
       [ {| g_logLikelihood := dofZ 0 + t_logLikelihood root;
            m_numTHyposUsedInProblem := 0;
            m_tHypoLinks := [t_addr root] |} ] |}.

End TreeSpec.

Section TrackIdSpec.
Context {D : Type} {DD : Double D} {LD : Libm D}.
Local Open Scope double_scope.

(** Growing children under nodes changes the trees and the allocation
    counter, and no other member of the engine; every tree keeps its track
    id and its group id, and an empty tree stays empty. *)
Definition grown_from (st st' : MHT D) : Prop :=
  st' = set_nextTHypo (m_nextTHypo st') (set_tTreeList (m_tTreeList st') st) /\
  Forall2 (fun t t' => m_id t' = m_id t /\ t_groupId t' = t_groupId t /\
                       (m_tree t = None <-> m_tree t' = None))
          (m_tTreeList st) (m_tTreeList st').

(** The track ids in use are distinct and below the counter they come
    from. *)
Definition track_ids_fresh (st : MHT D) : Prop :=
  NoDup (map (@m_id D) (m_tTreeList st)) /\
  Forall (fun t => (m_id t < m_lastTrackIdUsed st)%Z) (m_tTreeList st).

(** A tree as a report gets it: rooted at a ROOT of log-likelihood 0. *)
Definition rooted_at_ROOT (t : T_TREE D) : Prop :=
  exists root children,
    m_tree t = Some (Node root children) /\
    t_kind root = ROOT /\ t_logLikelihood root = dofZ 0.

(** The group [g] is the group [makeNewGroups] makes for the tree [t]: one
    group hypothesis, which postulates the root of the tree. *)
Definition group_of_tree (t : T_TREE D) (g : GROUP D) : Prop :=
  exists root children,
    m_tree t = Some (Node root children) /\ t_kind root = ROOT /\
    g = new_group root.

End TrackIdSpec.

(* ------------------------------------------------------------------ *)
(** * The output collector: [CORNER_TRACK_MHT::findTrack], [verify] *)

(** [getTrackColor]: the palette, and [color[ trackId % sizeof( color ) ]].
    The operand [trackId] is an [int] and [sizeof] gives a [size_t]: the
    remainder is taken after the conversion of [trackId] to [size_t] (64
    bits wide, as on the platforms the tracker is built for). *)
Definition color : list Z :=
  [1; 2; 3; 4; 5; 6; 8; 9; 10; 11; 12; 13; 14; 15;
   67; 72; 75; 81; 85; 90; 97; 101; 153; 156; 164]%Z.

Definition sizeof_color : Z := 25.

Definition size_t_of_int (i : Z) : Z := (i mod 2 ^ 64)%Z.

Definition getTrackColor (trackId : Z) : Z :=
  nth (Z.to_nat (size_t_of_int trackId mod sizeof_color)) color 0%Z.

Section Collector.
Context {D : Type} {DD : Double D}.

(** Modelled from the spec: the classes CORNER_TRACK_ELEMENT and
    CORNER_TRACK of motionModel.h are not among the sources.  Section 4.8
    of the specification has one element list per track id, each track
    created on first sight with its colour; an element is the tuple of the
    arguments of the constructor call in [verify]. *)
Record CORNER_TRACK_ELEMENT : Type := {
  e_sx : D;
  e_sy : D;
  e_rx : D;
  e_ry : D;
  e_logLikelihood : D;
  e_model : Z;
  e_time : Z;
  e_frameNo : Z;
  e_cornerID : Z
}.

Record CORNER_TRACK : Type := {
  ct_id : Z;
  ct_color : Z;
  ct_list : list CORNER_TRACK_ELEMENT
}.

Definition CORNER_TRACK_new (id color : Z) : CORNER_TRACK :=
  {| ct_id := id; ct_color := color; ct_list := [] |}.

(** The loop of [findTrack]: the position of the first track with the id. *)
Fixpoint findTrack_loop (id : Z) (p : list CORNER_TRACK) : option nat :=
  match p with
  | [] => None
  | t :: p' =>
      if (ct_id t =? id)%Z then Some 0%nat
      else option_map S (findTrack_loop id p')
  end.

(** [CORNER_TRACK_MHT::findTrack]: the track list as the call leaves it and
    the position of the track the returned pointer points to. *)
Definition findTrack (id : Z) (m_cornerTracks : list CORNER_TRACK)
    : list CORNER_TRACK * nat :=
  match findTrack_loop id m_cornerTracks with
  | Some i => (m_cornerTracks, i)
  | None =>
      (m_cornerTracks ++ [CORNER_TRACK_new id (getTrackColor id)],
       length m_cornerTracks)
  end.

(** [track->list.push_back( e )] through the pointer [findTrack] returned. *)
Fixpoint push_back_at (i : nat) (e : CORNER_TRACK_ELEMENT)
    (l : list CORNER_TRACK) : list CORNER_TRACK :=
  match l, i with
  | [], _ => []
  | t :: l', O =>
      {| ct_id := ct_id t; ct_color := ct_color t; ct_list := ct_list t ++ [e] |}
      :: l'
  | t :: l', S i' => t :: push_back_at i' e l'
  end.

(** [CORNER_TRACK_MHT::verify]; [g_time] is the global the element is
    stamped with. *)
Definition CORNER_TRACK_MHT_verify (g_time : Z) (trackId : Z)
    (r_x r_y s_x s_y logLikelihood : D) (modelType frame : Z) (id : Z)
    (m_cornerTracks : list CORNER_TRACK) : list CORNER_TRACK :=
  let '(tracks, track) := findTrack trackId m_cornerTracks in
  push_back_at track
    {| e_sx := s_x; e_sy := s_y; e_rx := r_x; e_ry := r_y;
       e_logLikelihood := logLikelihood; e_model := modelType;
       e_time := g_time; e_frameNo := frame; e_cornerID := id |}
    tracks.

(** The track a reader of the list finds for an id: the first one. *)
Definition track_of (id : Z) (l : list CORNER_TRACK) : option CORNER_TRACK :=
  find (fun t => (ct_id t =? id)%Z) l.

End Collector.

Arguments CORNER_TRACK_ELEMENT : clear implicits.
Arguments CORNER_TRACK : clear implicits.

(* ------------------------------------------------------------------ *)
(** * The parameter file: [read_param] *)

Section Parameters.
Context {D : Type}.

(** [atof] and [atoi] of <cstdlib>. *)
Variable atof : String.string -> D.
Variable atoi : String.string -> Z.

(** Modelled from the spec: the struct Parameter of param.h (here [PARAMETER]) is
    not among the sources; its members are the values Section 6 of the specification
    lists for the parameter file, in that order, the ones [read_param]
    assigns.  [read_param] declares the struct without initialising it: a
    member that no line of the file reaches holds no value ([None]). *)
Record PARAMETER : Type := {
  positionVarianceX : option D;
  positionVarianceY : option D;
  gradientVariance : option D;
  intensityVariance : option D;
  processVariance : option D;
  probDetect : option D;
  probEnd : option D;
  meanNew : option D;
  meanFalarms : option D;
  maxGHypos : option Z;
  maxDepth : option Z;
  minGHypoRatio : option D;
  intensityThreshold : option D;
  maxDistance1 : option D;
  maxDistance2 : option D;
  maxDistance3 : option D;
  stateVariance : option D;
  endScan : option Z;
  pos2velLikelihood : option Z;
  vel2curvLikelihood : option Z;
  startA : option Z;
  startB : option Z;
  startC : option Z
}.

(** The character [;] (code 59). *)
Definition semicolon : Ascii.ascii := Ascii.ascii_of_nat 59.

(** [buf.size() > 0 && buf[ 0 ] == ';'] *)
Definition is_comment (buf : String.string) : bool :=
  match buf with
  | String.String c _ => Ascii.eqb c semicolon
  | String.EmptyString => false
  end.

(** [while( std::getline(fp, buf) && buf.size() > 0 && buf[ 0 ] == ';' ) ;]
    on a stream that has the lines [fp] left.  The loop stops on the first
    line that is not a comment, with the line in [buf] and the stream good,
    or at the end of the file, where [getline] fails and leaves the stream
    failed: the result is [buf] when the stream is good, and the lines
    left. *)
Fixpoint skip_comments (fp : list String.string) : option String.string * list String.string :=
  match fp with
  | [] => (None, [])
  | buf :: fp' => if is_comment buf then skip_comments fp' else (Some buf, fp')
  end.

(** [read_param], from the lines of the parameter file. *)
Definition read_param (fp : list String.string) : PARAMETER :=
  let '(b1, fp) := skip_comments fp in
  let '(b2, fp) := skip_comments fp in
  let '(b3, fp) := skip_comments fp in
  let '(b4, fp) := skip_comments fp in
  let '(b5, fp) := skip_comments fp in
  let '(b6, fp) := skip_comments fp in
  let '(b7, fp) := skip_comments fp in
  let '(b8, fp) := skip_comments fp in
  let '(b9, fp) := skip_comments fp in
  let '(b10, fp) := skip_comments fp in
  let '(b11, fp) := skip_comments fp in
  let '(b12, fp) := skip_comments fp in
  let '(b13, fp) := skip_comments fp in
  let '(b14, fp) := skip_comments fp in
  let '(b15, fp) := skip_comments fp in
  let '(b16, fp) := skip_comments fp in
  let '(b17, fp) := skip_comments fp in
  let '(b18, fp) := skip_comments fp in
  let '(b19, fp) := skip_comments fp in
  let '(b20, fp) := skip_comments fp in
  let '(b21, fp) := skip_comments fp in
  let '(b22, fp) := skip_comments fp in
  let '(b23, fp) := skip_comments fp in
  {| positionVarianceX := option_map atof b1;
     positionVarianceY := option_map atof b2;
     gradientVariance := option_map atof b3;
     intensityVariance := option_map atof b4;
     processVariance := option_map atof b5;
     probDetect := option_map atof b6;
     probEnd := option_map atof b7;
     meanNew := option_map atof b8;
     meanFalarms := option_map atof b9;
     maxGHypos := option_map atoi b10;
     maxDepth := option_map atoi b11;
     minGHypoRatio := option_map atof b12;
     intensityThreshold := option_map atof b13;
     maxDistance1 := option_map atof b14;
     maxDistance2 := option_map atof b15;
     maxDistance3 := option_map atof b16;
     stateVariance := option_map atof b17;
     endScan := option_map atoi b18;
     pos2velLikelihood := option_map atoi b19;
     vel2curvLikelihood := option_map atoi b20;
     startA := option_map atoi b21;
     startB := option_map atoi b22;
     startC := option_map atoi b23 |}.

(** The lines of the file that are not comments. *)
Definition value_lines (fp : list String.string) : list String.string :=
  filter (fun buf => negb (is_comment buf)) fp.

(** The parameters, from the value lines by their position. *)
Definition parameters_of (v : list String.string) : PARAMETER :=
  {| positionVarianceX := option_map atof (nth_error v 0);
     positionVarianceY := option_map atof (nth_error v 1);
     gradientVariance := option_map atof (nth_error v 2);
     intensityVariance := option_map atof (nth_error v 3);
     processVariance := option_map atof (nth_error v 4);
     probDetect := option_map atof (nth_error v 5);
     probEnd := option_map atof (nth_error v 6);
     meanNew := option_map atof (nth_error v 7);
     meanFalarms := option_map atof (nth_error v 8);
     maxGHypos := option_map atoi (nth_error v 9);
     maxDepth := option_map atoi (nth_error v 10);
     minGHypoRatio := option_map atof (nth_error v 11);
     intensityThreshold := option_map atof (nth_error v 12);
     maxDistance1 := option_map atof (nth_error v 13);
     maxDistance2 := option_map atof (nth_error v 14);
     maxDistance3 := option_map atof (nth_error v 15);
     stateVariance := option_map atof (nth_error v 16);
     endScan := option_map atoi (nth_error v 17);
     pos2velLikelihood := option_map atoi (nth_error v 18);
     vel2curvLikelihood := option_map atoi (nth_error v 19);
     startA := option_map atoi (nth_error v 20);
     startB := option_map atoi (nth_error v 21);
     startC := option_map atoi (nth_error v 22) |}.

End Parameters.

Arguments PARAMETER : clear implicits.

(* ------------------------------------------------------------------ *)
(** * More of what the properties are stated with *)

Section TextureSpec.
Context {D : Type} {DD : Double D}.
Local Open Scope double_scope.

(** The running maximum of the sliding loop of [getCorr] without its
    assertion: [if (corr > maxCorr) maxCorr = corr], offset after offset. *)
Definition sliding_max (st rp : Texture_t D) (l : list (Z * Z)) (maxCorr : D) : D :=
  fold_left (fun maxCorr p =>
               let corr := corrAt st rp (fst p) (snd p) in
               if dltb maxCorr corr then corr else maxCorr)
            l maxCorr.

(** The state as [getNewState] hands it to [getNextState] when a report is
    given: with the displacement to the report written into its velocity
    entries when both of them are zero. *)
Definition velocity_written (s : CONSTVEL_STATE D) (r : CONSTPOS_REPORT D)
    : CONSTVEL_STATE D :=
  if deqb (getDX s) (dofZ 0) && deqb (getDY s) (dofZ 0)
  then setDY (setDX s (r_x r - getX s)) (r_y r - getY s)
  else s.

End TextureSpec.

Section MoreRealSpec.
Local Open Scope R_scope.

(** The correlation rule in the words of the specification.  A texture is
    a 5 x 5 grid, row-major; a window is the 3 x 3 block of pixels around
    (ym, xm), read row by row. *)
Definition pixel (t : Texture_t R) (y x : Z) : R := nth (Z.to_nat (5 * y + x)) t 0.

Definition window (t : Texture_t R) (ym xm : Z) : list R :=
  map (fun q => pixel t (ym + fst q) (xm + snd q))
      [(-1, -1); (-1, 0); (-1, 1); (0, -1); (0, 0); (0, 1); (1, -1); (1, 0); (1, 1)]%Z.

Definition sum_of (w : list R) : R := fold_right Rplus 0 w.

Definition mean_of (w : list R) : R := sum_of w / 9.

(** The standard deviation of the nine pixels of a window. *)
Definition sigma_of (w : list R) : R :=
  R_sqrt.sqrt (sum_of (map (fun v => (v - mean_of w) * (v - mean_of w)) w) / 9).

(** The centred covariance of two windows: the sum of the products of the
    deviations from the two means. *)
Definition covariance_of (w1 w2 : list R) : R :=
  sum_of (map (fun ab => (fst ab - mean_of w1) * (snd ab - mean_of w2))
              (combine w1 w2)).

(** A 5 x 5 texture that is black but for its centre pixel, and three
    reports that carry it: at the origin, at (1, 0) and at (100, 0). *)
Definition texture_spot : Texture_t R :=
  map IZR
    [0; 0; 0; 0; 0;
     0; 0; 0; 0; 0;
     0; 0; 1; 0; 0;
     0; 0; 0; 0; 0;
     0; 0; 0; 0; 0]%Z.

Definition spot_at (a : nat) (x : R) : CONSTPOS_REPORT R :=
  {| r_addr := a; m_rowNum := 0; m_groupId := 0; m_falarmLogLikelihood := 0;
     r_x := x; r_y := 0; m_textureInfo := texture_spot; m_frameNo := 1;
     m_cornerID := 0 |}.

Definition spot_origin : CONSTPOS_REPORT R := spot_at 0 0.
Definition spot_east : CONSTPOS_REPORT R := spot_at 1 1.
Definition spot_far : CONSTPOS_REPORT R := spot_at 2 100.

(** An engine whose one tree has been pruned down to a track that has
    ended: a ROOT, its START child, and the END child of that. *)
Definition track_done : T_TREE R :=
  {| m_tree :=
       Some (Node (MDL_ROOT_T_HYPO_new 0)
               [ Node (MDL_START_T_HYPO_new 1 state_at_rest report_east)
                   [ Node (MDL_END_T_HYPO_new 2 0 0 0) [] ] ]);
     m_id := 7;
     t_groupId := 0 |}.

Definition engine_track_done : MHT R := set_tTreeList [track_done] engine0.

End MoreRealSpec.

(** A 5 x 5 texture in binary64 whose pixels are 0, 1, ..., 24. *)
Definition texture_ramp : Texture_t float :=
  map float_of_Z
    [0; 1; 2; 3; 4; 5; 6; 7; 8; 9; 10; 11; 12; 13; 14; 15; 16; 17; 18; 19; 20;
     21; 22; 23; 24]%Z.

(* ------------------------------------------------------------------ *)
(** * Properties of the engine *)

Section EngineFacts.
Context {D : Type} {DD : Double D} {LD : Libm D}.

Lemma bind_Some {A B} (m : M A) (k : A -> M B) (b : B) :
  bind m k = Some b -> exists a, m = Some a /\ k a = Some b.
Proof.
  destruct m as [a|]; simpl; intros E; [eauto | discriminate].
Qed.

(** A property kept by every iteration of a loop is kept by the loop. *)
Lemma foldM_invariant {A B} (P : A -> Prop) (f : A -> B -> M A) :
  (forall a b a', P a -> f a b = Some a' -> P a') ->
  forall l a a', P a -> foldM f l a = Some a' -> P a'.
Proof.
  intros Hf l; induction l as [|b l IH]; simpl; intros a a' Pa E.
  - injection E as <-; exact Pa.
  - apply bind_Some in E as (a1 & E1 & E2). eauto.
Qed.

Lemma frame_refl (st : MHT D) : frame st st.
Proof. unfold frame; tauto. Qed.

Lemma frame_trans (st1 st2 st3 : MHT D) :
  frame st1 st2 -> frame st2 st3 -> frame st1 st3.
Proof.
  unfold frame; intros H12 H23.
  decompose [and] H12; decompose [and] H23.
  repeat split; congruence.
Qed.

Lemma frame_growAt a f (st st' : MHT D) :
  growAt a f st = Some st' -> frame st st'.
Proof.
  unfold growAt; intros E.
  apply bind_Some in E as (n & _ & E).
  apply bind_Some in E as (g & _ & E).
  injection E as <-. unfold frame; simpl; tauto.
Qed.

Lemma frame_measure (l : list (CORNERXY D)) (st : MHT D) : frame st (measure l st).
Proof.
  unfold measure. revert st.
  induction l as [|c l IH]; intros st; simpl; [apply frame_refl|].
  eapply frame_trans; [|apply IH]. unfold frame; simpl; tauto.
Qed.

Lemma frame_installTree h off (st : MHT D) : frame st (installTree h off st).
Proof.
  unfold installTree; simpl.
  destruct (m_nextNewTTree st); unfold frame; simpl; tauto.
Qed.

Lemma frame_growLeaf (st st' : MHT D) a :
  growLeaf st a = Some st' -> frame st st'.
Proof.
  unfold growLeaf; intros E.
  apply bind_Some in E as (st1 & E1 & E).
  eapply frame_trans; [eapply frame_growAt; exact E1|].
  eapply (foldM_invariant (frame st1)); [|apply frame_refl|exact E].
  intros x r x' Fx Ex.
  eapply frame_trans; [exact Fx | eapply frame_growAt; exact Ex].
Qed.

Lemma frame_rootNewTree (st st' : MHT D) r :
  rootNewTree st r = Some st' -> frame st st'.
Proof.
  unfold rootNewTree; intros E.
  apply bind_Some in E as (st1 & E1 & E).
  eapply frame_trans; [|eapply frame_growAt; exact E].
  eapply frame_trans; [|eapply frame_growAt; exact E1].
  eapply frame_trans; [|apply frame_installTree].
  unfold frame; simpl; tauto.
Qed.

Lemma frame_measureAndValidate l dT (st st' : MHT D) :
  measureAndValidate l dT st = Some st' -> frame st st'.
Proof.
  unfold measureAndValidate; intros E.
  apply bind_Some in E as (st1 & E1 & E2).
  eapply frame_trans; [apply frame_measure|].
  eapply frame_trans.
  - eapply (foldM_invariant (frame (measure l st))); [|apply frame_refl|exact E1].
    intros a b a' Fa Eb.
    eapply frame_trans; [exact Fa | eapply frame_growLeaf; exact Eb].
  - eapply (foldM_invariant (frame st1)); [|apply frame_refl|exact E2].
    intros a r a' Fa Er.
    eapply frame_trans; [exact Fa | eapply frame_rootNewTree; exact Er].
Qed.

(** C2.  With an empty batch queue, [scan] returns 0 and the engine it
    leaves is the engine it was given: the clock, the tree list, the group
    list, the two report lists, the list of active leaves and the
    first-scan flag are unchanged (and so is every other member). *)
Theorem scan_empty_queue_idle (G : GROUPING D) (st : MHT D) :
  m_reportsQueue st = [] ->
  scan G st = Some (0%Z, st) /\
  (forall r st', scan G st = Some (r, st') ->
     r = 0%Z /\
     m_currentTime st' = m_currentTime st /\
     m_tTreeList st' = m_tTreeList st /\
     m_groupList st' = m_groupList st /\
     m_oldReportList st' = m_oldReportList st /\
     m_newReportList st' = m_newReportList st /\
     m_activeTHypoList st' = m_activeTHypoList st /\
     m_isFirstScan st' = m_isFirstScan st).
Proof.
  intros HQ.
  assert (E : scan G st = Some (0%Z, st)) by (unfold scan; rewrite HQ; reflexivity).
  split; [exact E|].
  intros r st' E'. rewrite E in E'. injection E' as <- <-. tauto.
Qed.

(** The trees after [measureAndValidate]: the old ones, grown, and one
    more for each report of the new list. *)
Lemma growAt_trees a f (st st' : MHT D) :
  growAt a f st = Some st' ->
  length (m_tTreeList st') = length (m_tTreeList st) /\
  m_newReportList st' = m_newReportList st.
Proof.
  unfold growAt; intros E.
  apply bind_Some in E as (n & _ & E).
  apply bind_Some in E as (g & _ & E).
  injection E as <-; simpl. unfold replaceInTrees.
  now rewrite length_map.
Qed.

Lemma measure_reports (l : list (CORNERXY D)) (st : MHT D) :
  length (m_newReportList (measure l st))
  = (length (m_newReportList st) + length l)%nat /\
  m_tTreeList (measure l st) = m_tTreeList st.
Proof.
  unfold measure. revert st.
  induction l as [|c l IH]; intros st; simpl; [split; [lia | reflexivity]|].
  destruct (IH (installReport
                  {| r_addr := m_nextReport st; m_rowNum := 0; m_groupId := 0;
                     m_falarmLogLikelihood := mht_falarmLogLikelihood st;
                     r_x := c_x c; r_y := c_y c;
                     m_textureInfo := c_textureInfo c;
                     m_frameNo := c_frameNo c; m_cornerID := c_cornerID c |}
                  (set_nextReport (S (m_nextReport st)) st))) as [IH1 IH2].
  rewrite IH1, IH2; simpl. rewrite length_app; simpl. split; [lia | reflexivity].
Qed.

Lemma measure_nextTHypo (l : list (CORNERXY D)) (st : MHT D) :
  m_nextTHypo (measure l st) = m_nextTHypo st.
Proof.
  unfold measure. revert st.
  induction l as [|c l IH]; intros st; [reflexivity|].
  cbn [fold_left]. rewrite IH. reflexivity.
Qed.

Lemma installTree_trees h off (st : MHT D) :
  length (m_tTreeList (installTree h off st)) = S (length (m_tTreeList st)) /\
  m_newReportList (installTree h off st) = m_newReportList st.
Proof.
  unfold installTree; simpl.
  destruct (m_nextNewTTree st); simpl; rewrite length_app; simpl; split; (lia || reflexivity).
Qed.

Lemma growLeaf_trees (st st' : MHT D) a :
  growLeaf st a = Some st' ->
  length (m_tTreeList st') = length (m_tTreeList st) /\
  m_newReportList st' = m_newReportList st.
Proof.
  unfold growLeaf; intros E.
  apply bind_Some in E as (st1 & E1 & E).
  apply growAt_trees in E1 as [L1 N1].
  eapply (foldM_invariant
            (fun x : MHT D =>
               length (m_tTreeList x) = length (m_tTreeList st) /\
               m_newReportList x = m_newReportList st)); [| |exact E].
  - intros x r x' [Px1 Px2] Ex. apply growAt_trees in Ex as [L2 N2].
    split; congruence.
  - split; congruence.
Qed.

Lemma rootNewTree_trees (st st' : MHT D) r :
  rootNewTree st r = Some st' ->
  length (m_tTreeList st') = S (length (m_tTreeList st)).
Proof.
  unfold rootNewTree; intros E.
  apply bind_Some in E as (st1 & E1 & E).
  apply growAt_trees in E1 as [L1 _], E as [L2 _].
  destruct (installTree_trees (MDL_ROOT_T_HYPO_new (m_nextTHypo st)) (-1)
              (set_nextTHypo (S (m_nextTHypo st)) st)) as [Li _].
  simpl in Li. congruence.
Qed.

Lemma measureAndValidate_trees l dT (st st' : MHT D) :
  measureAndValidate l dT st = Some st' ->
  length (m_tTreeList st')
  = (length (m_tTreeList st) + length (m_newReportList st) + length l)%nat.
Proof.
  unfold measureAndValidate; intros E.
  apply bind_Some in E as (st1 & E1 & E2).
  destruct (measure_reports l st) as [Hn Ht].
  set (st0 := measure l st) in *.
  assert (P1 : length (m_tTreeList st1) = length (m_tTreeList st0) /\
               m_newReportList st1 = m_newReportList st0).
  { eapply (foldM_invariant
              (fun a : MHT D =>
                 length (m_tTreeList a) = length (m_tTreeList st0) /\
                 m_newReportList a = m_newReportList st0));
      [|split; reflexivity|exact E1].
    intros a b a' [Pa1 Pa2] Eb. apply growLeaf_trees in Eb as [L N].
    split; congruence. }
  destruct P1 as [L1 N1].
  assert (loop : forall rs (a a' : MHT D),
            foldM rootNewTree rs a = Some a' ->
            length (m_tTreeList a') = (length (m_tTreeList a) + length rs)%nat).
  { induction rs as [|r rs IH]; simpl; intros a a' Ea.
    - injection Ea as <-; lia.
    - apply bind_Some in Ea as (a1 & Ea1 & Ea).
      apply rootNewTree_trees in Ea1. rewrite (IH _ _ Ea), Ea1. lia. }
  rewrite (loop _ _ _ E2), L1, N1, Ht, Hn. lia.
Qed.

(** C10.  With a batch in the queue and no track tree once the batch has
    been ingested, [scan] takes the batch off the queue, runs
    [measureAndValidate], advances the clock by one, clears the list of
    active leaves and imports the new reports, and returns 0, the value of
    the idle return: no group is made, nothing is verified, and the
    first-scan flag keeps its value. *)
Theorem scan_without_trees_returns_0 (G : GROUPING D) (st st1 : MHT D)
    (newReports : CORNERLIST D) (queue : list (CORNERLIST D)) :
  m_reportsQueue st = newReports :: queue ->
  measureAndValidate (c_list newReports) (m_dT newReports)
                     (set_reportsQueue queue st) = Some st1 ->
  m_tTreeList st1 = [] ->
  exists st',
    scan G st = Some (0%Z, st') /\
    st' = importNewReports
            (set_activeTHypoList [] (set_currentTime (m_currentTime st1 + 1) st1)) /\
    m_reportsQueue st' = queue /\
    m_currentTime st' = (m_currentTime st + 1)%Z /\
    m_oldReportList st' = m_oldReportList st ++ number_from 0 (m_newReportList st1) /\
    m_newReportList st' = [] /\
    m_activeTHypoList st' = [] /\
    m_tTreeList st' = [] /\
    m_groupList st' = m_groupList st /\
    m_verified st' = m_verified st /\
    m_isFirstScan st' = m_isFirstScan st.
Proof.
  intros HQ HM HT.
  destruct (frame_measureAndValidate _ _ _ HM)
    as (Ft & Fq & Fg & Fo & Ff & Fv & _). simpl in *.
  eexists; split; [|split; [reflexivity|]].
  - unfold scan. rewrite HQ, HM. simpl. rewrite HT. reflexivity.
  - simpl. rewrite Ft, Fq, Fg, Fo, Ff, Fv, HT. repeat split; reflexivity.
Qed.

(** The case C10 names: no tree is left after the ingest exactly when there
    was none before and the batch brought no report. *)
Lemma no_tree_after_ingest l dT (st st' : MHT D) :
  measureAndValidate l dT st = Some st' ->
  m_tTreeList st' = [] ->
  m_tTreeList st = [] /\ m_newReportList st = [] /\ l = [].
Proof.
  intros E HT. apply measureAndValidate_trees in E. rewrite HT in E; simpl in E.
  repeat split; apply length_zero_iff_nil; lia.
Qed.

(** ** Verifying and popping roots *)

Lemma popsTo_fun (t : TNODE D) p1 f1 p2 f2 :
  popsTo t p1 f1 -> popsTo t p2 f2 -> p1 = p2 /\ f1 = f2.
Proof.
  intros H1; revert p2 f2.
  induction H1 as [t Hs | h c popped final He H1 IH]; intros p2 f2 H2.
  - inversion H2 as [t' Hs' | h c popped final He H1]; subst; [tauto|].
    simpl in Hs. rewrite He in Hs. discriminate.
  - inversion H2 as [t' Hs' | h' c' popped' final' He' H1']; subst.
    + simpl in Hs'. rewrite He in Hs'. discriminate.
    + destruct (IH _ _ H1') as [-> ->]. tauto.
Qed.


(** ** Allocation of nodes *)

Lemma TNODE_induction (P : TNODE D -> Prop) :
  (forall h cs, Forall P cs -> P (Node h cs)) -> forall t, P t.
Proof.
  intros H. fix IH 1. intros [h cs]. apply H.
  induction cs as [|c cs IHcs]; constructor; [apply IH | exact IHcs].
Qed.

Lemma below_node k (h : T_HYPO D) cs :
  below k (Node h cs) <-> (t_addr h < k)%nat /\ Forall (below k) cs.
Proof.
  unfold below. cbn [addrs]. rewrite Forall_cons_iff, Forall_flat_map. tauto.
Qed.

Lemma below_mono k k' (t : TNODE D) : (k <= k')%nat -> below k t -> below k' t.
Proof.
  unfold below. intros Hk. apply Forall_impl. intros a Ha. lia.
Qed.

Lemma findNode_fresh k a (t : TNODE D) :
  below k t -> (k <= a)%nat -> findNode a t = None.
Proof.
  intros Hb Hk. revert Hb. induction t as [h cs IH] using TNODE_induction.
  intros Hb. apply below_node in Hb as [Hh Hcs]. cbn [findNode].
  replace (Nat.eqb (t_addr h) a) with false by (symmetry; apply Nat.eqb_neq; lia).
  induction cs as [|c cs IHcs]; [reflexivity|].
  apply Forall_cons_iff in IH as [IHc IH]. apply Forall_cons_iff in Hcs as [Hc Hcs].
  rewrite (IHc Hc). apply IHcs; assumption.
Qed.

Lemma replaceNode_fresh k a (n t : TNODE D) :
  below k t -> (k <= a)%nat -> replaceNode a n t = t.
Proof.
  intros Hb Hk. revert Hb. induction t as [h cs IH] using TNODE_induction.
  intros Hb. apply below_node in Hb as [Hh Hcs]. cbn [replaceNode].
  replace (Nat.eqb (t_addr h) a) with false by (symmetry; apply Nat.eqb_neq; lia).
  f_equal.
  induction cs as [|c cs IHcs]; [reflexivity|].
  apply Forall_cons_iff in IH as [IHc IH]. apply Forall_cons_iff in Hcs as [Hc Hcs].
  cbn [map]. rewrite (IHc Hc), IHcs; [reflexivity | assumption | assumption].
Qed.

Lemma replaceNode_below k a (n t : TNODE D) :
  below k t -> below k n -> below k (replaceNode a n t).
Proof.
  intros Hb Hn. revert Hb. induction t as [h cs IH] using TNODE_induction.
  intros Hb. cbn [replaceNode]. destruct (Nat.eqb (t_addr h) a); [exact Hn|].
  apply below_node in Hb as [Hh Hcs]. apply below_node. split; [exact Hh|].
  rewrite Forall_map. rewrite Forall_forall in *. intros c Hc. auto.
Qed.

Lemma findNode_below k a (t n : TNODE D) :
  below k t -> findNode a t = Some n -> below k n.
Proof.
  revert n. induction t as [h cs IH] using TNODE_induction.
  intros n Hb. cbn [findNode].
  destruct (Nat.eqb (t_addr h) a); [intros E; injection E as <-; exact Hb|].
  apply below_node in Hb as [_ Hcs].
  induction cs as [|c cs IHcs]; [discriminate|].
  apply Forall_cons_iff in IH as [IHc IH]. apply Forall_cons_iff in Hcs as [Hc Hcs].
  destruct (findNode a c) as [r|] eqn:Ec.
  - intros E; injection E as <-. exact (IHc _ Hc eq_refl).
  - apply IHcs; assumption.
Qed.

Lemma installChild_below next (n : TNODE D) (c : T_HYPO D) :
  below next n -> t_addr c = next -> below (S next) (installChild n c).
Proof.
  destruct n as [h cs]. intros Hb Hc. cbn [installChild].
  apply (below_mono (k' := S next)) in Hb; [|lia].
  apply below_node in Hb as [Hh Hcs]. apply below_node. split; [exact Hh|].
  constructor; [|exact Hcs].
  apply below_node. cbn [setStamp t_addr]. split; [lia | constructor].
Qed.

Lemma node_set_state_below k (n : TNODE D) s :
  below k n -> below k (node_set_state n s).
Proof. destruct n as [h cs]. intros Hb. exact Hb. Qed.

(** The growers allocate upwards. *)
Lemma grown_install next0 next (n : TNODE D) (c : T_HYPO D) :
  (next0 <= next)%nat -> below next n -> t_addr c = next ->
  (next0 <= S next)%nat /\ below (S next) (installChild n c).
Proof.
  intros H0 Hb Hc. split; [lia | apply installChild_below; assumption].
Qed.

Lemma ROOT_makeDefaultChildren_ok : grower_ok (@ROOT_makeDefaultChildren D DD).
Proof.
  intros n next n' next' Hb E. injection E as <- <-.
  apply grown_install; [lia | exact Hb | reflexivity].
Qed.

Lemma DUMMY_makeDefaultChildren_ok : grower_ok (@DUMMY_makeDefaultChildren D).
Proof.
  intros n next n' next' Hb E. injection E as <- <-.
  apply grown_install; [lia | exact Hb | reflexivity].
Qed.

Lemma ROOT_makeChildrenFor_ok modelList report :
  grower_ok (@ROOT_makeChildrenFor D DD LD modelList report).
Proof.
  intros n next n' next' Hb E. unfold ROOT_makeChildrenFor in E.
  pose (Q := fun g : GROWN D => (next <= snd g)%nat /\ below (snd g) (fst g)).
  change ((fun g => Q g) (n', next')).
  eapply (foldM_invariant Q); [| |exact E].
  - intros g mdl g' Qg Eg.
    eapply (foldM_invariant Q); [|exact Qg|exact Eg].
    intros [m k] i g2 [Q1 Q2] E2. cbn [fst snd] in Q1, Q2.
    apply bind_Some in E2 as (r & _ & E2).
    destruct (snd r); injection E2 as <-; unfold Q; cbn [fst snd].
    + apply grown_install; [exact Q1 | exact Q2 | reflexivity].
    + split; assumption.
  - unfold Q; cbn [fst snd]. apply grown_install; [lia | exact Hb | reflexivity].
Qed.

Lemma CONTINUE_makeDefaultChildren_ok :
  grower_ok (@CONTINUE_makeDefaultChildren D DD LD).
Proof.
  intros n next n' next' Hb E. unfold CONTINUE_makeDefaultChildren in E.
  apply bind_Some in E as (m_state & _ & E).
  pose (Q := fun g : GROWN D => (next <= snd g)%nat /\ below (snd g) (fst g)).
  change ((fun g => Q g) (n', next')).
  set (g1 := if negb (dis_neg_inf (getEndLogLikelihood (m_mdl m_state) m_state))
             then _ else (n, next)) in E.
  assert (Q1 : Q g1).
  { unfold g1, Q. destruct (negb _); cbn [fst snd].
    - apply grown_install; [lia | exact Hb | reflexivity].
    - split; [lia | exact Hb]. }
  destruct (negb (dis_neg_inf (getContinueLogLikelihood _ _)));
    [|injection E as <-; exact Q1].
  eapply (foldM_invariant Q); [|exact Q1|exact E].
  intros [m k] i g2 [Q2 Q3] E2. cbn [fst snd] in Q2, Q3.
  apply bind_Some in E2 as (r & _ & E2).
  destruct (snd r); injection E2 as <-; unfold Q; cbn [fst snd].
  - apply grown_install; [exact Q2 | apply node_set_state_below; exact Q3 | reflexivity].
  - split; [exact Q2 | apply node_set_state_below; exact Q3].
Qed.

Lemma CONTINUE_makeChildrenFor_ok report :
  grower_ok (@CONTINUE_makeChildrenFor D DD LD report).
Proof.
  intros n next n' next' Hb E. unfold CONTINUE_makeChildrenFor in E.
  apply bind_Some in E as (m_state & _ & E).
  pose (Q := fun g : GROWN D => (next <= snd g)%nat /\ below (snd g) (fst g)).
  change ((fun g => Q g) (n', next')).
  eapply (foldM_invariant Q); [| |exact E].
  - intros [m k] i g2 [Q2 Q3] E2. cbn [fst snd] in Q2, Q3.
    apply bind_Some in E2 as (r & _ & E2).
    destruct (snd r); injection E2 as <-; unfold Q; cbn [fst snd].
    + apply grown_install; [exact Q2 | apply node_set_state_below; exact Q3 | reflexivity].
    + split; [exact Q2 | apply node_set_state_below; exact Q3].
  - unfold Q; cbn [fst snd]. split; [lia | exact Hb].
Qed.

Lemma makeDefaultChildren_ok : grower_ok (@makeDefaultChildren D DD LD).
Proof.
  intros n next n' next' Hb E. unfold makeDefaultChildren in E. cbn [fst] in E.
  destruct (t_kind (node_hypo n));
    first [ exact (ROOT_makeDefaultChildren_ok Hb E)
          | exact (DUMMY_makeDefaultChildren_ok Hb E)
          | exact (CONTINUE_makeDefaultChildren_ok Hb E) ].
Qed.

Lemma makeChildrenFor_ok modelList report :
  grower_ok (@makeChildrenFor D DD LD modelList report).
Proof.
  intros n next n' next' Hb E. unfold makeChildrenFor in E. cbn [fst] in E.
  destruct (t_kind (node_hypo n));
    first [ exact (@ROOT_makeChildrenFor_ok _ _ _ _ _ _ Hb E)
          | exact (@CONTINUE_makeChildrenFor_ok _ _ _ _ _ Hb E)
          | injection E as <- <-; split; [lia | exact Hb] ].
Qed.

(** [growAt] keeps the allocation invariant. *)
Lemma fresh_above_mono k k' (l : list (T_TREE D)) :
  (k <= k')%nat -> fresh_above k l -> fresh_above k' l.
Proof.
  intros Hk. apply Forall_impl. intros t. destruct (m_tree t); [|tauto].
  apply below_mono; exact Hk.
Qed.

Lemma findInTrees_below k a (l : list (T_TREE D)) n :
  fresh_above k l -> findInTrees a l = Some n -> below k n.
Proof.
  induction l as [|t l IH]; cbn [findInTrees]; [discriminate|].
  intros Hf. apply Forall_cons_iff in Hf as [Ht Hl].
  destruct (m_tree t) as [root|]; [|auto].
  destruct (findNode a root) as [r|] eqn:Er; [|auto].
  intros E; injection E as <-. eapply findNode_below; eassumption.
Qed.

Lemma growAt_fresh a f (st st' : MHT D) :
  grower_ok f ->
  fresh_above (m_nextTHypo st) (m_tTreeList st) ->
  growAt a f st = Some st' ->
  (m_nextTHypo st <= m_nextTHypo st')%nat /\
  fresh_above (m_nextTHypo st') (m_tTreeList st').
Proof.
  intros Hf Hw E. unfold growAt in E.
  apply bind_Some in E as (n & En & E).
  apply bind_Some in E as ([n' next'] & Eg & E).
  injection E as <-. cbn [fst snd].
  assert (Hn : below (m_nextTHypo st) n)
    by (eapply findInTrees_below; eassumption).
  destruct (Hf _ _ _ _ Hn Eg) as [Hle Hb].
  change (m_nextTHypo _) with next' at 2 3.
  change (m_tTreeList _) with (replaceInTrees a n' (m_tTreeList st)) at 1.
  split; [exact Hle|].
  unfold replaceInTrees, fresh_above. rewrite Forall_map.
  apply (fresh_above_mono Hle) in Hw. revert Hw. apply Forall_impl.
  intros t. cbn [set_tree m_tree]. destruct (m_tree t) as [root|]; cbn [option_map]; [|tauto].
  intros Hr. apply replaceNode_below; assumption.
Qed.

(** ** Starting tracks *)

(** [ROOT_makeChildrenFor] has no access to the first-scan flag: with a
    model in the list it gives the root a START child for the report,
    whatever the scan. *)
Lemma ROOT_makeChildrenFor_START (mdl : CONSTVEL_MDL D)
    (report : CONSTPOS_REPORT D) (h : T_HYPO D) (cs : list (TNODE D)) (next : nat) :
  ROOT_makeChildrenFor [mdl] report (Node h cs, next)
  = Some (Node h
            (Node (setStamp
                     (MDL_START_T_HYPO_new (S next)
                        (CONSTVEL_STATE_new mdl (r_x report) (dofZ 0)
                           (r_y report) (dofZ 0) (m_textureInfo report)
                           (m_startP mdl) (m_startLogLikelihood mdl) 0)
                        report)
                     (m_timeStamp h + 1)) []
             :: Node (setStamp (MDL_FALARM_T_HYPO_new next report)
                        (m_timeStamp h + 1)) []
             :: cs),
          S (S next)).
Proof. reflexivity. Qed.

(** A fresh address is the address of no node of the trees at hand. *)
Lemma findInTrees_app_fresh k a (l l' : list (T_TREE D)) :
  fresh_above k l -> (k <= a)%nat ->
  findInTrees a (l ++ l') = findInTrees a l'.
Proof.
  intros Hf Hk. induction l as [|t l IH]; [reflexivity|].
  apply Forall_cons_iff in Hf as [Ht Hl]. cbn [app findInTrees].
  destruct (m_tree t) as [root|]; [|auto].
  rewrite (findNode_fresh Ht Hk). auto.
Qed.

Lemma replaceInTrees_app_fresh k a n (l l' : list (T_TREE D)) :
  fresh_above k l -> (k <= a)%nat ->
  replaceInTrees a n (l ++ l') = l ++ replaceInTrees a n l'.
Proof.
  intros Hf Hk. unfold replaceInTrees. rewrite map_app. f_equal.
  induction l as [|t l IH]; [reflexivity|].
  apply Forall_cons_iff in Hf as [Ht Hl]. cbn [map]. rewrite (IH Hl). f_equal.
  destruct t as [[root|] id g]; cbn [m_tree option_map set_tree m_id t_groupId] in *;
    [|reflexivity].
  now rewrite (replaceNode_fresh n Ht Hk).
Qed.

(** A member called on the root of the last tree, the trees before it
    holding older nodes only. *)
Lemma growAt_last k a f (st : MHT D) (l : list (T_TREE D)) (T : T_TREE D)
    (root n' : TNODE D) (next' : nat) :
  fresh_above k l ->
  m_tTreeList st = l ++ [T] ->
  m_tree T = Some root ->
  t_addr (node_hypo root) = a ->
  (k <= a)%nat ->
  f (root, m_nextTHypo st) = Some (n', next') ->
  growAt a f st
  = Some (set_nextTHypo next' (set_tTreeList (l ++ [set_tree T (Some n')]) st)).
Proof.
  intros Hf Ht Hr Ha Hk Ef. unfold growAt. rewrite Ht.
  rewrite (findInTrees_app_fresh _ Hf Hk).
  cbn [findInTrees]. rewrite Hr.
  destruct root as [h cs]. cbn [node_hypo] in Ha. cbn [findNode].
  rewrite Ha, Nat.eqb_refl. cbn [bind]. rewrite Ef. cbn [bind fst snd].
  rewrite (replaceInTrees_app_fresh _ _ Hf Hk).
  unfold replaceInTrees. cbn [map]. rewrite Hr. cbn [option_map replaceNode].
  rewrite Ha, Nat.eqb_refl. reflexivity.
Qed.

(** The tree a report gets, in any scan: a ROOT with a START child, a
    FALARM child and a DUMMY child. *)
Lemma rootNewTree_START (st : MHT D) (report : CONSTPOS_REPORT D)
    (mdl : CONSTVEL_MDL D) :
  fresh_above (m_nextTHypo st) (m_tTreeList st) ->
  m_modelList st = [mdl] ->
  exists st' root start falarm dummy,
    rootNewTree st report = Some st' /\
    m_tTreeList st' =
      m_tTreeList st
      ++ [ {| m_tree := Some (Node root [Node start []; Node falarm []; Node dummy []]);
              m_id := m_lastTrackIdUsed st; t_groupId := 0 |} ] /\
    t_kind root = ROOT /\
    t_kind start = START /\
    m_reportLink start = Some (r_addr report) /\
    m_timeStamp start = m_currentTime st /\
    t_kind falarm = FALARM /\
    t_kind dummy = DUMMY.
Proof.
  intros Hf HM.
  destruct st as [lastId time maxDepth ratio maxG trees cursor groups olds
                  news active queue first models falarmLL verified nextT nextR].
  cbn [m_nextTHypo m_tTreeList m_modelList m_lastTrackIdUsed m_currentTime] in *.
  subst models.
  unfold rootNewTree, installTree.
  destruct cursor; cbn -[growAt];
    (erewrite growAt_last;
     [|exact Hf|reflexivity|reflexivity|reflexivity|apply Nat.le_refl|reflexivity]);
    cbn -[growAt];
    (erewrite growAt_last;
     [|exact Hf|reflexivity|reflexivity|reflexivity|apply Nat.le_refl|reflexivity]);
    do 5 eexists; (split; [reflexivity|]); cbn;
    (split; [reflexivity|]); cbn; repeat split; lia.
Qed.

Lemma growLeaf_fresh (st st' : MHT D) a :
  fresh_above (m_nextTHypo st) (m_tTreeList st) ->
  growLeaf st a = Some st' ->
  fresh_above (m_nextTHypo st') (m_tTreeList st').
Proof.
  unfold growLeaf; intros Hf E.
  apply bind_Some in E as (st1 & E1 & E).
  destruct (@growAt_fresh a _ st st1 makeDefaultChildren_ok Hf E1) as [_ Hf1].
  eapply (foldM_invariant
            (fun x : MHT D => fresh_above (m_nextTHypo x) (m_tTreeList x)));
    [|exact Hf1|exact E].
  intros x r x' Hx Ex.
  exact (proj2 (@growAt_fresh a _ x x' (makeChildrenFor_ok _ r) Hx Ex)).
Qed.

Lemma rootNewTree_fresh (st st' : MHT D) r :
  fresh_above (m_nextTHypo st) (m_tTreeList st) ->
  rootNewTree st r = Some st' ->
  fresh_above (m_nextTHypo st') (m_tTreeList st').
Proof.
  unfold rootNewTree; intros Hf E.
  apply bind_Some in E as (st1 & E1 & E).
  assert (H0 : fresh_above
                 (m_nextTHypo (installTree (MDL_ROOT_T_HYPO_new (m_nextTHypo st)) (-1)
                                 (set_nextTHypo (S (m_nextTHypo st)) st)))
                 (m_tTreeList (installTree (MDL_ROOT_T_HYPO_new (m_nextTHypo st)) (-1)
                                 (set_nextTHypo (S (m_nextTHypo st)) st)))).
  { unfold installTree. destruct (m_nextNewTTree _); cbn;
      (apply Forall_app; split;
       [apply (fresh_above_mono (k := m_nextTHypo st)); [lia | exact Hf]
       |constructor; [|constructor]; cbn; apply below_node; cbn; split;
        [lia | constructor]]). }
  destruct (@growAt_fresh _ _ _ st1 makeDefaultChildren_ok H0 E1) as [_ Hf1].
  exact (proj2 (@growAt_fresh _ _ st1 st' (makeChildrenFor_ok _ r) Hf1 E)).
Qed.

Lemma rootNewTree_all (mdl : CONSTVEL_MDL D) :
  forall (rs : list (CONSTPOS_REPORT D)) (st st' : MHT D),
    fresh_above (m_nextTHypo st) (m_tTreeList st) ->
    m_modelList st = [mdl] ->
    foldM rootNewTree rs st = Some st' ->
    exists news,
      m_tTreeList st' = m_tTreeList st ++ news /\
      Forall2 starts_track rs news.
Proof.
  induction rs as [|r rs IH]; intros st st' Hf HM E; cbn [foldM] in E.
  - injection E as <-. exists []. rewrite app_nil_r. split; constructor.
  - apply bind_Some in E as (st1 & E1 & E).
    destruct (@rootNewTree_START st r mdl Hf HM)
      as (st1' & root & start & falarm & dummy & E1' & Ht & Hroot & Hstart
          & Hlink & _ & Hfalarm & Hdummy).
    rewrite E1 in E1'. injection E1' as <-.
    assert (HM1 : m_modelList st1 = [mdl]).
    { destruct (frame_rootNewTree _ _ E1) as (_ & _ & _ & _ & _ & _ & Hm).
      congruence. }
    destruct (IH _ _ (@rootNewTree_fresh st st1 r Hf E1) HM1 E) as (news & Hn & Hall).
    eexists (_ :: news). split.
    + rewrite Hn, Ht, <- app_assoc. reflexivity.
    + constructor; [|exact Hall].
      exists root, start, falarm, dummy. cbn [m_tree]. tauto.
Qed.

(** C1, on the code.  In any scan, whatever the first-scan flag, every
    report of the batch gets a new tree whose root has a START child linked
    to it: [measureAndValidate] leaves the old trees, grown, followed by
    one such tree per report.  (The engine is any engine whose node
    addresses are below its allocation counter and whose list of new
    reports is empty, as [scan] leaves it; it has one model.) *)
Theorem START_children_in_every_scan (st st' : MHT D) (batch : list (CORNERXY D))
    (dT : D) (mdl : CONSTVEL_MDL D) :
  fresh_above (m_nextTHypo st) (m_tTreeList st) ->
  m_newReportList st = [] ->
  m_modelList st = [mdl] ->
  measureAndValidate batch dT st = Some st' ->
  exists olds news,
    m_tTreeList st' = olds ++ news /\
    length olds = length (m_tTreeList st) /\
    length news = length batch /\
    Forall2 starts_track (m_newReportList st') news /\
    m_isFirstScan st' = m_isFirstScan st.
Proof.
  intros Hf HN HM E.
  pose proof (frame_measureAndValidate _ _ _ E) as (_ & _ & _ & _ & Hflag & _).
  pose proof (measureAndValidate_trees _ _ _ E) as Hlen.
  unfold measureAndValidate in E.
  apply bind_Some in E as (st1 & E1 & E2).
  destruct (measure_reports batch st) as [Hn Ht].
  pose proof (frame_measure batch st) as (_ & _ & _ & _ & _ & _ & Hm0).
  set (st0 := measure batch st) in *.
  assert (Hf0 : fresh_above (m_nextTHypo st0) (m_tTreeList st0)).
  { rewrite Ht. unfold st0. rewrite measure_nextTHypo. exact Hf. }
  assert (P1 : fresh_above (m_nextTHypo st1) (m_tTreeList st1) /\
               m_modelList st1 = [mdl] /\
               length (m_tTreeList st1) = length (m_tTreeList st0) /\
               m_newReportList st1 = m_newReportList st0).
  { eapply (foldM_invariant
              (fun x : MHT D =>
                 fresh_above (m_nextTHypo x) (m_tTreeList x) /\
                 m_modelList x = [mdl] /\
                 length (m_tTreeList x) = length (m_tTreeList st0) /\
                 m_newReportList x = m_newReportList st0)); [| |exact E1].
    - intros x a x' (Hx1 & Hx2 & Hx3 & Hx4) Ex.
      destruct (frame_growLeaf _ _ Ex) as (_ & _ & _ & _ & _ & _ & Hm).
      destruct (growLeaf_trees _ _ Ex) as [HL HNn].
      split; [eapply growLeaf_fresh; eassumption|].
      repeat split; congruence.
    - repeat split; [exact Hf0 | congruence]. }
  destruct P1 as (Hf1 & HM1 & HL1 & HN1).
  rewrite HN1 in E2.
  destruct (@rootNewTree_all mdl _ st1 st' Hf1 HM1 E2) as (news & Hnews & Hall).
  exists (m_tTreeList st1), news.
  assert (HN' : m_newReportList st' = m_newReportList st0).
  { rewrite <- HN1. clear - E2. revert E2. generalize (m_newReportList st0).
    intros rs. revert st1. induction rs as [|r rs IH]; intros st1 E; cbn [foldM] in E.
    - injection E as <-; reflexivity.
    - apply bind_Some in E as (x & Ex & E). rewrite (IH _ E).
      unfold rootNewTree in Ex. apply bind_Some in Ex as (y & Ey & Ex).
      apply growAt_trees in Ex as [_ ->], Ey as [_ ->].
      exact (proj2 (installTree_trees (MDL_ROOT_T_HYPO_new (m_nextTHypo st1)) (-1)
                      (set_nextTHypo (S (m_nextTHypo st1)) st1))). }
  split; [exact Hnews|]. split; [congruence|].
  split.
  - rewrite Hnews, length_app in Hlen. rewrite HN in *. rewrite Ht in HL1.
    cbn [length] in Hlen. lia.
  - split; [rewrite HN'; exact Hall | exact Hflag].
Qed.

End EngineFacts.

(* ------------------------------------------------------------------ *)
(** * Properties of the model, for any numbers *)

Section ModelFacts.
Context {D : Type} {DD : Double D} {LD : Libm D}.
Local Open Scope double_scope.

(** [setup] writes the derived block and nothing else, and only once. *)
Lemma setup_keeps (pv : D) (Rm : MATRIX D) (s : CONSTVEL_STATE D) :
  m_mdl (setup pv Rm s) = m_mdl s /\
  m_x (setup pv Rm s) = m_x s /\
  m_P (setup pv Rm s) = m_P s /\
  m_prevTextureInfo (setup pv Rm s) = m_prevTextureInfo s /\
  m_logLikelihood (setup pv Rm s) = m_logLikelihood s /\
  m_numSkipped (setup pv Rm s) = m_numSkipped s.
Proof. unfold setup; destruct (m_hasBeenSetup s); repeat split. Qed.


Lemma getXY_setD (s : CONSTVEL_STATE D) (dx dy : D) :
  getX (setDY (setDX s dx) dy) = getX s /\ getY (setDY (setDX s dx) dy) = getY s.
Proof. split; reflexivity. Qed.

Lemma setup_once (pv : D) (Rm : MATRIX D) (s : CONSTVEL_STATE D) :
  m_hasBeenSetup s = true -> setup pv Rm s = s.
Proof. unfold setup; intros ->; reflexivity. Qed.


(** The measured branch, once the derived block and the maximal
    correlation are known. *)
Lemma getNextState_measured (mdl : CONSTVEL_MDL D) (s0 : CONSTVEL_STATE D)
    (r : CONSTPOS_REPORT D) (x_pred Sinv W P_next : MATRIX D) (maxCorr : D) :
  let s := setup (m_processVariance mdl) (m_R mdl) s0 in
  m_x1 s = Some x_pred ->
  m_Sinv s = Some Sinv ->
  m_W s = Some W ->
  m_nextP s = Some P_next ->
  getCorr (m_prevTextureInfo s) (m_textureInfo r) = Some maxCorr ->
  let v := msub (getZ r) (mmul H_mat x_pred) in
  let d := mget (mmul (mmul (mtrans v) Sinv) v) 0 0 in
  let mean := madd x_pred (mmul W v) in
  getNextState mdl (Some s0) (Some r)
  = if dltb (m_maxDistance mdl) d then ret (Some s, None)
    else if negb (dltb (m_intensityThreshold mdl) maxCorr)
         then ret (Some s, None)
         else ret (Some s,
                   Some (CONSTVEL_STATE_new mdl (vget mean 0) (vget mean 1)
                           (vget mean 2) (vget mean 3) (m_textureInfo r) P_next
                           (m_logLikelihoodCoef s - d / dofZ 2) 0)).
Proof.
  intros s Hx HS HW HP Ecorr v d mean.
  unfold getNextState. fold s. unfold getPrediction, getSinv, getW, getNextP.
  rewrite Hx, HS. cbn [bind]. fold v. fold d.
  destruct (dltb (m_maxDistance mdl) d); [reflexivity|].
  rewrite Ecorr. cbn [bind].
  destruct (dltb (m_intensityThreshold mdl) maxCorr); cbn [negb];
    [|reflexivity].
  rewrite HW, HP. reflexivity.
Qed.

(** The measured branch when the gate rejects the report, and when the
    assertion of [getCorr] fails on a report the gate has let through. *)
Lemma getNextState_gate_rejects (mdl : CONSTVEL_MDL D) (s0 : CONSTVEL_STATE D)
    (r : CONSTPOS_REPORT D) (x_pred Sinv : MATRIX D) :
  let s := setup (m_processVariance mdl) (m_R mdl) s0 in
  m_x1 s = Some x_pred ->
  m_Sinv s = Some Sinv ->
  let v := msub (getZ r) (mmul H_mat x_pred) in
  let d := mget (mmul (mmul (mtrans v) Sinv) v) 0 0 in
  dltb (m_maxDistance mdl) d = true ->
  getNextState mdl (Some s0) (Some r) = Some (Some s, None).
Proof.
  intros s Hx HS v d Hd. unfold getNextState. fold s.
  unfold getPrediction, getSinv. rewrite Hx, HS. cbn [bind].
  fold v. fold d. rewrite Hd. reflexivity.
Qed.

Lemma getNextState_corr_aborts (mdl : CONSTVEL_MDL D) (s0 : CONSTVEL_STATE D)
    (r : CONSTPOS_REPORT D) (x_pred Sinv : MATRIX D) :
  let s := setup (m_processVariance mdl) (m_R mdl) s0 in
  m_x1 s = Some x_pred ->
  m_Sinv s = Some Sinv ->
  let v := msub (getZ r) (mmul H_mat x_pred) in
  let d := mget (mmul (mmul (mtrans v) Sinv) v) 0 0 in
  dltb (m_maxDistance mdl) d = false ->
  getCorr (m_prevTextureInfo s) (m_textureInfo r) = None ->
  getNextState mdl (Some s0) (Some r) = None.
Proof.
  intros s Hx HS v d Hd Ecorr. unfold getNextState. fold s.
  unfold getPrediction, getSinv. rewrite Hx, HS. cbn [bind].
  fold v. fold d. rewrite Hd, Ecorr. reflexivity.
Qed.

(** C4.  For a call of [getNextState] with a previous state and a report,
    in any arithmetic, with x_pred, S^-1, W and P_next the derived block of
    the state once [setup] has run: the innovation is v = z - H x_pred and
    the distance d = v^T S^-1 v.  When d > d_max (the test
    [distance > m_maxDistance] of the code) the result is null, and
    [getCorr] is not called.  When d <= d_max and [getCorr] returns the
    maximal correlation: if the texture test passes (the maximal
    correlation exceeds the threshold) the result is a state with mean
    x_pred + W v, covariance P_next, log-likelihood log_coef - d / 2 and
    skip count 0 (its texture is the report's, its derived block not yet
    computed); if the texture test fails the result is null.  When
    d <= d_max and the assertion of [getCorr] fails, the call aborts. *)
Theorem measured_branch (mdl : CONSTVEL_MDL D) (s0 : CONSTVEL_STATE D)
    (r : CONSTPOS_REPORT D) (x_pred Sinv W P_next : MATRIX D) :
  let s := setup (m_processVariance mdl) (m_R mdl) s0 in
  m_x1 s = Some x_pred ->
  m_Sinv s = Some Sinv ->
  m_W s = Some W ->
  m_nextP s = Some P_next ->
  let v := msub (getZ r) (mmul H_mat x_pred) in
  let d := mget (mmul (mmul (mtrans v) Sinv) v) 0 0 in
  let mean := madd x_pred (mmul W v) in
  (dltb (m_maxDistance mdl) d = true ->
   getNextState mdl (Some s0) (Some r) = Some (Some s, None)) /\
  (dltb (m_maxDistance mdl) d = false ->
   forall maxCorr,
     getCorr (m_prevTextureInfo s) (m_textureInfo r) = Some maxCorr ->
     (dltb (m_intensityThreshold mdl) maxCorr = true ->
      exists next,
        getNextState mdl (Some s0) (Some r) = Some (Some s, Some next) /\
        m_x next = colvec [vget mean 0; vget mean 1; vget mean 2; vget mean 3] /\
        m_P next = P_next /\
        m_logLikelihood next = m_logLikelihoodCoef s - d / dofZ 2 /\
        m_numSkipped next = 0%Z /\
        m_prevTextureInfo next = m_textureInfo r /\
        m_hasBeenSetup next = false) /\
     (dltb (m_intensityThreshold mdl) maxCorr = false ->
      getNextState mdl (Some s0) (Some r) = Some (Some s, None))) /\
  (dltb (m_maxDistance mdl) d = false ->
   getCorr (m_prevTextureInfo s) (m_textureInfo r) = None ->
   getNextState mdl (Some s0) (Some r) = None).
Proof.
  intros s Hx HS HW HP v d mean.
  split; [|split].
  - exact (getNextState_gate_rejects mdl s0 r Hx HS).
  - intros Hd maxCorr Ecorr.
    pose proof (getNextState_measured mdl s0 r Hx HS HW HP Ecorr) as Estep.
    cbv zeta in Estep. fold s in Estep. fold v in Estep. fold d in Estep.
    fold mean in Estep. rewrite Hd in Estep. rewrite Estep.
    split.
    + intros Ht. rewrite Ht. cbn [negb]. eexists; split; [reflexivity|].
      cbn [CONSTVEL_STATE_new m_x m_P m_logLikelihood m_numSkipped
           m_prevTextureInfo m_hasBeenSetup]. repeat split.
    + intros Ht. rewrite Ht. reflexivity.
  - exact (getNextState_corr_aborts mdl s0 r Hx HS).
Qed.


Lemma derived_of_setD (s : CONSTVEL_STATE D) (dx dy : D) :
  derived_of (setDY (setDX s dx) dy) = derived_of s.
Proof. reflexivity. Qed.




End ModelFacts.

(* ------------------------------------------------------------------ *)
(** * The model in exact arithmetic *)

Section RealFacts.
Local Open Scope R_scope.

(** The class members at the instance of the real numbers. *)
Ltac unfold_R :=
  cbn [dofZ dadd dsub dmul ddiv dopp dsqrt deqb dltb dleb dHUGE dis_neg_inf
       dexp dlog Double_R Libm_R] in *.


Lemma Rbool_lt_true a b : Rbool_lt a b = true <-> a < b.
Proof. unfold Rbool_lt; destruct (Rlt_dec a b); split; (congruence || tauto). Qed.

Lemma Rbool_le_true a b : Rbool_le a b = true <-> a <= b.
Proof. unfold Rbool_le; destruct (Rle_dec a b); split; (congruence || tauto). Qed.

Lemma Rbool_lt_false a b : Rbool_lt a b = false <-> b <= a.
Proof.
  unfold Rbool_lt; destruct (Rlt_dec a b); split; try congruence; lra.
Qed.

(** ** End and continue log-likelihoods *)

Lemma EPSILON_R : (EPSILON (D := R)) = / 100000000000000.
Proof. unfold EPSILON; unfold_R. unfold Rdiv. lra. Qed.

Lemma endProb_of_p_end (mdl : CONSTVEL_MDL R) (s : CONSTVEL_STATE R) :
  endProb_of mdl s = p_end (m_lambda_x mdl) (m_numSkipped s).
Proof.
  unfold endProb_of, p_end. rewrite EPSILON_R. unfold_R.
  rewrite opp_IZR. unfold Rbool_eq.
  destruct (Req_dec_T _ 0); lra.
Qed.

Lemma p_end_range lambda m : 0 < lambda -> (0 <= m)%Z -> 0 < p_end lambda m < 1.
Proof.
  intros Hl Hm. unfold p_end.
  destruct (Z.eq_dec m 0) as [-> | Hne].
  - replace (- 0 / lambda) with 0 by (unfold Rdiv; lra).
    rewrite exp_0. destruct (Req_dec_T (1 - 1) 0); lra.
  - assert (Hpos : 0 < IZR m) by (apply IZR_lt; lia).
    assert (Hneg : - IZR m / lambda < 0).
    { unfold Rdiv. rewrite <- Ropp_mult_distr_l.
      apply Ropp_lt_gt_0_contravar. apply Rmult_gt_0_compat; [lra|].
      apply Rinv_0_lt_compat; lra. }
    pose proof (exp_pos (- IZR m / lambda)) as Hp.
    assert (Hlt : exp (- IZR m / lambda) < 1)
      by (rewrite <- exp_0; apply exp_increasing; exact Hneg).
    destruct (Req_dec_T _ 0); lra.
Qed.

(** C7.  With p = 1 - exp(-m/lambda), plus epsilon when that is exactly
    zero, for the skip count m of the state: the end log-likelihood is
    ln p and the continue log-likelihood is ln (1 - p); for a model with a
    positive lambda and a skip count m >= 0 both are logarithms of
    probabilities, and the two probabilities add up to 1. *)
Theorem end_continue_complementary (mdl : CONSTVEL_MDL R) (s : CONSTVEL_STATE R) :
  let p := p_end (m_lambda_x mdl) (m_numSkipped s) in
  getEndLogLikelihood mdl s = ln p /\
  getContinueLogLikelihood mdl s = ln (1 - p) /\
  (0 < m_lambda_x mdl -> (0 <= m_numSkipped s)%Z ->
   0 < p < 1 /\
   exp (getEndLogLikelihood mdl s) + exp (getContinueLogLikelihood mdl s) = 1).
Proof.
  intros p.
  unfold getEndLogLikelihood, getContinueLogLikelihood.
  rewrite endProb_of_p_end. fold p. unfold_R.
  split; [reflexivity|]. split; [reflexivity|].
  intros Hl Hm.
  destruct (p_end_range Hl Hm) as [H0 H1]. fold p in H0, H1.
  split; [lra|]. rewrite !exp_ln; lra.
Qed.

(** ** Texture correlation *)

Lemma fold_left_rsum {X} (f : X -> R) (l : list X) (a : R) :
  fold_left (fun acc p => acc + f p) l a = a + rsum f l.
Proof.
  revert a; induction l as [|x l IH]; intros a; simpl; [lra|].
  rewrite IH; lra.
Qed.

Lemma rsum_lin {X} (f g : X -> R) (c d : R) (l : list X) :
  rsum (fun p => c * f p + d * g p) l = c * rsum f l + d * rsum g l.
Proof. induction l as [|x l IH]; simpl; [lra | rewrite IH; lra]. Qed.

Lemma rsum_const {X} (c : R) (l : list X) :
  rsum (fun _ => c) l = INR (length l) * c.
Proof.
  induction l as [|x l IH]; [simpl; lra|].
  change (rsum (fun _ => c) (x :: l)) with (c + rsum (fun _ => c) l).
  rewrite IH. change (length (x :: l)) with (S (length l)). rewrite S_INR. lra.
Qed.

Lemma rsum_ext {X} (f g : X -> R) (l : list X) :
  (forall p, f p = g p) -> rsum f l = rsum g l.
Proof. intros E; induction l as [|x l IH]; simpl; [reflexivity | now rewrite E, IH]. Qed.

Lemma rsum_sq_nonneg {X} (u : X -> R) (l : list X) :
  0 <= rsum (fun p => u p * u p) l.
Proof. induction l as [|x l IH]; simpl; [lra | nra]. Qed.

(** The Cauchy-Schwarz inequality. *)
Lemma rsum_cauchy_schwarz {X} (u v : X -> R) (l : list X) :
  rsum (fun p => u p * v p) l * rsum (fun p => u p * v p) l
  <= rsum (fun p => u p * u p) l * rsum (fun p => v p * v p) l.
Proof.
  induction l as [|a l IH]; simpl; [lra|].
  pose proof (rsum_sq_nonneg u l) as HA.
  pose proof (rsum_sq_nonneg v l) as HB.
  set (C := rsum (fun p => u p * v p) l) in *.
  set (A := rsum (fun p => u p * u p) l) in *.
  set (B := rsum (fun p => v p * v p) l) in *.
  set (x := u a). set (y := v a).
  clearbody C A B x y.
  assert (Hmid : 2 * C * x * y <= A * (y * y) + B * (x * x)).
  { destruct (Rle_or_lt (2 * C * x * y) (A * (y * y) + B * (x * x))) as [H|H];
      [exact H | exfalso].
    assert (HT : 0 <= A * (y * y) + B * (x * x)) by nra.
    assert (H1 : (A * (y * y) + B * (x * x)) * (A * (y * y) + B * (x * x))
                 < (2 * C * x * y) * (2 * C * x * y)) by nra.
    assert (H2 : 0 <= (A * (y * y) - B * (x * x)) * (A * (y * y) - B * (x * x)))
      by apply Rle_0_sqr.
    assert (H3 : C * C * ((x * y) * (x * y)) <= A * B * ((x * y) * (x * y)))
      by (apply Rmult_le_compat_r; [nra | exact IH]).
    nra. }
  nra.
Qed.

(** The sum of squared deviations from the mean. *)
Lemma rsum_centered {X} (f : X -> R) (l : list X) (n : R) :
  INR (length l) = n -> n <> 0 ->
  let mean := rsum f l / n in
  rsum (fun p => (f p - mean) * (f p - mean)) l
  = n * (rsum (fun p => f p * f p) l / n - mean * mean).
Proof.
  intros Hn Hn0 mean.
  rewrite (rsum_ext (fun p => (f p - mean) * (f p - mean))
             (fun p => 1 * (f p * f p) + 1 * ((- 2 * mean) * f p + mean * mean * 1)) l)
    by (intros; ring).
  rewrite rsum_lin.
  rewrite (rsum_lin f (fun _ => 1) (- 2 * mean) (mean * mean)).
  rewrite rsum_const, Hn.
  unfold mean. field. exact Hn0.
Qed.

Lemma length_ji : INR (length ji) = 9.
Proof. simpl. lra. Qed.

(** Mean, variance and covariance of the windows, as sums. *)
Lemma windowMean_rsum (t : Texture_t R) ym xm :
  windowMean t ym xm = rsum (fun p => tex t (index_of ym xm p)) ji / 9.
Proof.
  unfold windowMean. unfold_R. rewrite fold_left_rsum. f_equal. lra.
Qed.

Lemma windowSigma_sqrt t ym xm :
  windowSigma t ym xm = R_sqrt.sqrt (variance t ym xm).
Proof.
  unfold windowSigma, variance. unfold_R. rewrite fold_left_rsum.
  do 2 f_equal. lra.
Qed.

Lemma corrSum_rsum st rp ym xm :
  corrSum st rp ym xm
  = rsum (fun p => (tex st (index_of 2 2 p) - windowMean st 2 2)
                   * (tex rp (index_of ym xm p) - windowMean rp ym xm)) ji.
Proof. unfold corrSum. unfold_R. rewrite fold_left_rsum. lra. Qed.

Lemma deviations_variance t ym xm :
  rsum (fun p => (tex t (index_of ym xm p) - windowMean t ym xm)
                 * (tex t (index_of ym xm p) - windowMean t ym xm)) ji
  = 9 * variance t ym xm.
Proof.
  unfold variance. rewrite windowMean_rsum.
  apply (rsum_centered (fun p => tex t (index_of ym xm p)) ji length_ji). lra.
Qed.

Lemma variance_nonneg t ym xm : 0 <= variance t ym xm.
Proof.
  pose proof (rsum_sq_nonneg
                (fun p => tex t (index_of ym xm p) - windowMean t ym xm) ji) as H.
  cbv beta in H. rewrite deviations_variance in H. lra.
Qed.

Lemma windowSigma_sq t ym xm :
  windowSigma t ym xm * windowSigma t ym xm = variance t ym xm.
Proof. rewrite windowSigma_sqrt. apply sqrt_sqrt, variance_nonneg. Qed.

Lemma windowSigma_nonneg t ym xm : 0 <= windowSigma t ym xm.
Proof. rewrite windowSigma_sqrt. apply sqrt_pos. Qed.

(** The centred covariance is bounded by 9 times the product of the
    standard deviations. *)
Lemma corrSum_bound st rp ym xm :
  let d := 9 * (windowSigma rp ym xm * windowSigma st 2 2) in
  - d <= corrSum st rp ym xm <= d.
Proof.
  intros d.
  pose proof (rsum_cauchy_schwarz
                (fun p => tex st (index_of 2 2 p) - windowMean st 2 2)
                (fun p => tex rp (index_of ym xm p) - windowMean rp ym xm) ji) as CS.
  cbv beta in CS.
  rewrite <- corrSum_rsum, !deviations_variance in CS.
  rewrite <- !windowSigma_sq in CS.
  pose proof (windowSigma_nonneg st 2 2) as Hs.
  pose proof (windowSigma_nonneg rp ym xm) as Hr.
  assert (Hd : 0 <= d) by (unfold d; nra).
  assert (Hsq : corrSum st rp ym xm * corrSum st rp ym xm <= d * d)
    by (unfold d; nra).
  split; nra.
Qed.

(** In exact arithmetic every correlation coefficient is within [-1, 1]. *)
Lemma corrAt_range (st rp : Texture_t R) (ym xm : Z) :
  -1 <= corrAt st rp ym xm <= 1.
Proof.
  pose proof (corrSum_bound st rp ym xm) as Hb. cbv zeta in Hb.
  pose proof (windowSigma_nonneg st 2 2) as Hs.
  pose proof (windowSigma_nonneg rp ym xm) as Hr.
  unfold corrAt. unfold_R. unfold Rbool_eq.
  destruct (Req_dec_T (corrSum st rp ym xm) 0) as [Hc|Hc];
    destruct (Req_dec_T (windowSigma rp ym xm * windowSigma st 2 2) 0) as [Hp|Hp];
    cbn [negb orb]; try lra.
  - (* the covariance vanishes, the product of the sigmas does not *)
    rewrite Hc. unfold Rdiv. rewrite Rmult_0_l. lra.
  - assert (Hd : 0 < 9 * windowSigma rp ym xm * windowSigma st 2 2) by nra.
    set (d := 9 * windowSigma rp ym xm * windowSigma st 2 2) in *.
    assert (Hb' : - d <= corrSum st rp ym xm <= d) by (unfold d; lra).
    assert (Hi : 0 < / d) by (apply Rinv_0_lt_compat; exact Hd).
    assert (Hid : d * / d = 1) by (apply Rinv_r; lra).
    clearbody d. unfold Rdiv. split; nra.
Qed.

Lemma corrStep_R st rp m p :
  corrStep st rp m p = Some (Rmax m (corrAt st rp (fst p) (snd p))).
Proof.
  unfold corrStep, corr_in_range. unfold_R.
  destruct (corrAt_range st rp (fst p) (snd p)) as [Hl Hu].
  assert (E1 : Rbool_le (Ropp 1) (corrAt st rp (fst p) (snd p)) = true)
    by (apply Rbool_le_true; lra).
  assert (E2 : Rbool_le (corrAt st rp (fst p) (snd p)) 1 = true)
    by (apply Rbool_le_true; lra).
  rewrite E1, E2. cbn [andb assert bind ret]. apply f_equal.
  unfold Rbool_lt, Rmax.
  destruct (Rlt_dec m (corrAt st rp (fst p) (snd p)));
    destruct (Rle_dec m (corrAt st rp (fst p) (snd p))); lra.
Qed.

Lemma foldM_corrStep st rp l m :
  foldM (corrStep st rp) l m = Some (run_max st rp l m).
Proof.
  revert m; induction l as [|p l IH]; intros m; [reflexivity|].
  cbn [foldM]. rewrite corrStep_R. cbn [bind]. rewrite IH. reflexivity.
Qed.

Lemma run_max_ge st rp l m :
  m <= run_max st rp l m /\
  (forall p, In p l -> corrAt st rp (fst p) (snd p) <= run_max st rp l m).
Proof.
  revert m; induction l as [|q l IH]; intros m; cbn [run_max fold_left].
  - split; [lra | intros p []].
  - destruct (IH (Rmax m (corrAt st rp (fst q) (snd q)))) as [H1 H2].
    fold (run_max st rp l (Rmax m (corrAt st rp (fst q) (snd q)))) in *.
    pose proof (Rmax_l m (corrAt st rp (fst q) (snd q))).
    pose proof (Rmax_r m (corrAt st rp (fst q) (snd q))).
    split; [lra|]. intros p [<- | Hp]; [lra | auto].
Qed.

Lemma run_max_attained st rp l m :
  run_max st rp l m = m \/
  exists p, In p l /\ run_max st rp l m = corrAt st rp (fst p) (snd p).
Proof.
  revert m; induction l as [|q l IH]; intros m; cbn [run_max fold_left].
  - left; reflexivity.
  - fold (run_max st rp l (Rmax m (corrAt st rp (fst q) (snd q)))).
    destruct (IH (Rmax m (corrAt st rp (fst q) (snd q)))) as [E | (p & Hp & E)].
    + rewrite E. unfold Rmax.
      destruct (Rle_dec m (corrAt st rp (fst q) (snd q)));
        [right; exists q; split; [left; reflexivity | reflexivity] | left; reflexivity].
    + right; exists p; split; [right; exact Hp | exact E].
Qed.

Lemma getCorr_max (st rp : Texture_t R) :
  exists maxCorr,
    getCorr st rp = Some maxCorr /\
    (exists p, In p pq /\ maxCorr = corrAt st rp (fst p) (snd p)) /\
    (forall p, In p pq -> corrAt st rp (fst p) (snd p) <= maxCorr).
Proof.
  unfold getCorr. rewrite foldM_corrStep. eexists; split; [reflexivity|].
  destruct (run_max_ge st rp pq (- dHUGE)) as [Hm Hall].
  split; [|exact Hall].
  destruct (run_max_attained st rp pq (- dHUGE)) as [E | H]; [|exact H].
  exfalso.
  pose proof (Hall (1, 1)%Z (or_introl eq_refl)) as H11.
  pose proof (corrAt_range st rp 1 1) as [Hl _].
  rewrite E in H11. cbn [fst snd] in H11. unfold_R. lra.
Qed.

(** ** The derived block *)

Lemma F_of_spec dt : F_of dt = F_spec dt.
Proof. reflexivity. Qed.

Lemma H_mat_spec : H_mat = H_spec.
Proof. reflexivity. Qed.

Lemma Q_of_spec pv dt : mscale (Q_of dt) pv = Q_spec pv dt.
Proof.
  unfold mscale, Q_of, Q_spec. unfold_R. cbn [map].
  repeat (f_equal; try field).
Qed.

(** C3, as the code has it.  The derived block that [setup] computes for a
    state not yet set up is the block of the specification for the
    interval 1: [setup] sets the time step [m_ds] to 1 itself, and no
    interval is handed to it.  A second [setup] changes nothing. *)
Theorem setup_derived_block_unit_step (processVariance : R) (Rm : MATRIX R)
    (s : CONSTVEL_STATE R) :
  m_hasBeenSetup s = false ->
  let s' := setup processVariance Rm s in
  let b := derived_spec 1 processVariance Rm (m_P s) (m_x s) in
  m_ds s' = 1 /\
  m_x1 s' = Some (x_pred_spec b) /\
  m_Sinv s' = Some (minv (S_spec b)) /\
  m_W s' = Some (W_spec b) /\
  m_nextP s' = Some (P_next_spec b) /\
  m_logLikelihoodCoef s' = log_coef_spec b /\
  m_hasBeenSetup s' = true /\
  setup processVariance Rm s' = s'.
Proof.
  intros Hs s' b. unfold s', b, setup, derived_spec. rewrite Hs.
  cbn [m_ds m_x1 m_Sinv m_W m_nextP m_logLikelihoodCoef m_hasBeenSetup
       x_pred_spec S_spec W_spec P_next_spec log_coef_spec].
  change (dofZ 1) with 1.
  rewrite Q_of_spec, F_of_spec, H_mat_spec.
  repeat split.
  unfold LOG_NORMFACTOR. unfold_R. lra.
Qed.

(** C3, as stated, fails: for a batch whose inter-frame interval is 2 the
    prediction [setup] stores is F(1) x = (1, 1, 0, 0), not
    F(2) x = (2, 1, 0, 0). *)
Lemma setup_ignores_interval :
  ~ (forall (dt processVariance : R) (Rm : MATRIX R) (s : CONSTVEL_STATE R),
       m_hasBeenSetup s = false ->
       m_x1 (setup processVariance Rm s)
       = Some (x_pred_spec (derived_spec dt processVariance Rm (m_P s) (m_x s)))).
Proof.
  intros H.
  specialize (H 2 1 [ [1; 0]; [0; 1] ] state_moving eq_refl).
  cbv [setup state_moving CONSTVEL_STATE_new m_hasBeenSetup m_x1 m_x m_P
       derived_spec x_pred_spec F_of F_spec mmul mtrans mcol map seq length
       dot combine fold_left fst snd nth colvec] in H.
  unfold_R. injection H as H _. lra.
Qed.

(** ** A state that is written to after it was returned *)


End RealFacts.

(* ------------------------------------------------------------------ *)
(** * The texture correlation in binary64 *)

(** C9, on the code.  In binary64 arithmetic the assertion of [getCorr]
    fails.  A state and a report carry the same texture, black but for the
    centre pixel.  At the offset (2, 2) the two windows coincide and the
    exact correlation is 1; the code computes 1 + 2^-51, the test
    [corr >= -1.0 && corr <= 1.0] is false and [getCorr] aborts.  (In exact
    arithmetic the bound holds: [corrAt_range].) *)
Theorem getCorr_assertion_fails_binary64 :
  corrAt texture_dot texture_dot 2 2 = 0x1.0000000000002p+0%float /\
  corr_in_range (corrAt texture_dot texture_dot 2 2) = false /\
  getCorr texture_dot texture_dot = None.
Proof. vm_compute. repeat split. Qed.

(* ------------------------------------------------------------------ *)
(** * The theorems at concrete inputs *)

Section Instances.
Local Open Scope R_scope.

Lemma scan_empty_queue_idle_witness :
  m_reportsQueue engine0 = [] /\
  scan no_grouping engine0 = Some (0%Z, engine0).
Proof.
  split; [reflexivity|].
  exact (proj1 (scan_empty_queue_idle no_grouping engine0 eq_refl)).
Defined.

Lemma scan_without_trees_returns_0_witness :
  m_reportsQueue (addReports empty_batch engine0) = [empty_batch] /\
  exists st',
    scan no_grouping (addReports empty_batch engine0) = Some (0%Z, st') /\
    m_currentTime st' = 1%Z /\
    m_isFirstScan st' = true.
Proof.
  split; [reflexivity|].
  destruct (scan_without_trees_returns_0 no_grouping
              (addReports empty_batch engine0) (st1 := engine0)
              eq_refl eq_refl eq_refl)
    as (st' & E & _ & _ & Ht & _ & _ & _ & _ & _ & _ & Hf).
  exists st'. split; [exact E|]. split; [exact Ht | exact Hf].
Defined.

Lemma START_children_in_every_scan_witness :
  m_isFirstScan engine1 = false /\
  exists st' olds news,
    measureAndValidate [corner_east] 1 engine1 = Some st' /\
    m_tTreeList st' = olds ++ news /\
    length news = 1%nat /\
    Forall2 starts_track (m_newReportList st') news /\
    m_isFirstScan st' = false.
Proof.
  split; [reflexivity|].
  assert (E : {st' | measureAndValidate [corner_east] 1 engine1 = Some st'})
    by (eexists; cbv; reflexivity).
  destruct E as [st' E]. exists st'.
  destruct (@START_children_in_every_scan R _ _ engine1 st' [corner_east] 1 mdl_unit
              (Forall_nil _) eq_refl eq_refl E)
    as (olds & news & Ht & _ & Hn & Hall & Hflag).
  exists olds, news.
  split; [exact E|]. split; [exact Ht|]. split; [exact Hn|].
  split; [exact Hall | exact Hflag].
Defined.

Lemma setup_derived_block_unit_step_witness :
  m_hasBeenSetup state_moving = false /\
  m_x1 (setup 1 [ [1; 0]; [0; 1] ] state_moving)
  = Some (x_pred_spec (derived_spec 1 1 [ [1; 0]; [0; 1] ]
                         (m_P state_moving) (m_x state_moving))).
Proof.
  split; [reflexivity|].
  exact (proj1 (proj2 (setup_derived_block_unit_step 1 [ [1; 0]; [0; 1] ]
                         state_moving eq_refl))).
Defined.

Lemma end_continue_complementary_witness :
  0 < m_lambda_x mdl_unit /\
  (0 <= m_numSkipped state_at_rest)%Z /\
  exp (getEndLogLikelihood mdl_unit state_at_rest)
  + exp (getContinueLogLikelihood mdl_unit state_at_rest) = 1.
Proof.
  assert (Hl : 0 < m_lambda_x mdl_unit) by (simpl; lra).
  assert (Hm : (0 <= m_numSkipped state_at_rest)%Z) by (simpl; lia).
  split; [exact Hl|]. split; [exact Hm|].
  exact (proj2 (proj2 (proj2 (end_continue_complementary mdl_unit state_at_rest))
                  Hl Hm)).
Defined.

End Instances.

(* ------------------------------------------------------------------ *)
(** * When [getCorr] returns, for any numbers *)

Section TextureFacts.
Context {D : Type} {DD : Double D}.
Local Open Scope double_scope.

Lemma foldM_corrStep_Some (st rp : Texture_t D) (l : list (Z * Z)) (m m' : D) :
  foldM (corrStep st rp) l m = Some m' <->
  Forall (fun p => corr_in_range (corrAt st rp (fst p) (snd p)) = true) l /\
  m' = sliding_max st rp l m.
Proof.
  revert m. induction l as [|p l IH]; intros m; cbn [foldM sliding_max fold_left].
  - split.
    + intros E. injection E as <-. split; [constructor | reflexivity].
    + intros [_ ->]. reflexivity.
  - unfold corrStep at 1.
    destruct (corr_in_range (corrAt st rp (fst p) (snd p))) eqn:Hr;
      cbn [assert bind ret].
    + rewrite IH. unfold sliding_max. split.
      * intros [HF ->]. split; [constructor; assumption | reflexivity].
      * intros [HF ->]. inversion HF; subst. split; [assumption | reflexivity].
    + split; [discriminate|]. intros [HF _]. inversion HF; subst. congruence.
Qed.

Lemma foldM_corrStep_None (st rp : Texture_t D) (l : list (Z * Z)) (m : D) :
  foldM (corrStep st rp) l m = None <->
  Exists (fun p => corr_in_range (corrAt st rp (fst p) (snd p)) = false) l.
Proof.
  revert m. induction l as [|p l IH]; intros m; cbn [foldM].
  - split; [discriminate | intros H; inversion H].
  - unfold corrStep at 1.
    destruct (corr_in_range (corrAt st rp (fst p) (snd p))) eqn:Hr;
      cbn [assert bind ret].
    + rewrite IH. split.
      * intros H. apply Exists_cons_tl. exact H.
      * intros H. inversion H; subst; [congruence | assumption].
    + split; [intros _; apply Exists_cons_hd; exact Hr | reflexivity].
Qed.

(** [getCorr] returns when each of the nine correlations passes the
    assertion, and then it returns the running maximum; it aborts when one
    of them fails the assertion. *)
Lemma getCorr_Some (st rp : Texture_t D) (maxCorr : D) :
  getCorr st rp = Some maxCorr <->
  Forall (fun p => corr_in_range (corrAt st rp (fst p) (snd p)) = true) pq /\
  maxCorr = sliding_max st rp pq (- dHUGE).
Proof. unfold getCorr. apply foldM_corrStep_Some. Qed.

Lemma getCorr_None (st rp : Texture_t D) :
  getCorr st rp = None <->
  Exists (fun p => corr_in_range (corrAt st rp (fst p) (snd p)) = false) pq.
Proof. unfold getCorr. apply foldM_corrStep_None. Qed.

End TextureFacts.

(* ------------------------------------------------------------------ *)
(** * More on the model: [setup], [getNewState], [getCorr] *)

Section MoreModelFacts.
Context {D : Type} {DD : Double D} {LD : Libm D}.
Local Open Scope double_scope.


Lemma setup_populates (pv : D) (Rm : MATRIX D) (s : CONSTVEL_STATE D) :
  populated s ->
  exists Sinv W nextP x1,
    m_Sinv (setup pv Rm s) = Some Sinv /\ m_W (setup pv Rm s) = Some W /\
    m_nextP (setup pv Rm s) = Some nextP /\ m_x1 (setup pv Rm s) = Some x1.
Proof.
  intros Hp. unfold setup. destruct (m_hasBeenSetup s) eqn:E.
  - exact (Hp E).
  - do 4 eexists. repeat split.
Qed.

(** The velocity [getNewState] writes into a state that has been set up
    does not reach the state returned. *)
Lemma getNewState_after_setup (mdl : CONSTVEL_MDL D)
    (s : CONSTVEL_STATE D) (report : option (CONSTPOS_REPORT D)) :
  m_hasBeenSetup s = true ->
  option_map snd (getNewState mdl 0 (Some s) report)
  = option_map snd (getNextState mdl (Some s) report).
Proof.
  intros Hs. unfold getNewState. cbn [Z.eqb].
  destruct report as [r|]; [|reflexivity].
  destruct (deqb (getDX s) (dofZ 0) && deqb (getDY s) (dofZ 0)); [|reflexivity].
  cbv zeta.
  set (s1 := setDY (setDX s (r_x r - getX s)) (r_y r - getY s)).
  unfold getNextState.
  rewrite (setup_once _ _ s Hs), (setup_once _ _ s1 Hs).
  change (getPrediction s1) with (getPrediction s).
  change (getSinv s1) with (getSinv s).
  change (getW s1) with (getW s).
  change (getNextP s1) with (getNextP s).
  change (m_prevTextureInfo s1) with (m_prevTextureInfo s).
  change (m_logLikelihoodCoef s1) with (m_logLikelihoodCoef s).
  destruct (getPrediction s) as [x1|]; cbn [bind option_map]; [|reflexivity].
  destruct (getSinv s) as [Sinv|]; cbn [bind option_map]; [|reflexivity].
  destruct (dltb _ _); [reflexivity|].
  destruct (getCorr _ _) as [c|]; cbn [bind option_map]; [|reflexivity].
  destruct (negb _); [reflexivity|].
  destruct (getW s) as [W|]; cbn [bind option_map]; [|reflexivity].
  destruct (getNextP s) as [nP|]; cbn [bind option_map]; reflexivity.
Qed.

(** X1.  once [setup] has run on a state, the velocity that [getNewState]
    writes into it has no effect on the state returned: the call returns
    what [getNextState] returns for the state as it was, whatever the
    report. *)
Theorem velocity_write_is_dead_after_setup (mdl : CONSTVEL_MDL D)
    (s : CONSTVEL_STATE D) (report : option (CONSTPOS_REPORT D)) :
  m_hasBeenSetup s = true ->
  option_map snd (getNewState mdl 0 (Some s) report)
  = option_map snd (getNextState mdl (Some s) report).
Proof. exact (@getNewState_after_setup mdl s report). Qed.

(** ** When [getNewState] aborts *)

Lemma velocity_written_keeps (s : CONSTVEL_STATE D) (r : CONSTPOS_REPORT D) :
  populated s ->
  populated (velocity_written s r) /\
  m_prevTextureInfo (velocity_written s r) = m_prevTextureInfo s.
Proof.
  intros H. unfold velocity_written.
  destruct (deqb (getDX s) (dofZ 0) && deqb (getDY s) (dofZ 0));
    (split; [exact H | reflexivity]).
Qed.

Lemma getNewState_velocity_written (mdl : CONSTVEL_MDL D) (s : CONSTVEL_STATE D)
    (r : CONSTPOS_REPORT D) :
  getNewState mdl 0 (Some s) (Some r)
  = getNextState mdl (Some (velocity_written s r)) (Some r).
Proof.
  unfold getNewState, velocity_written. cbn [Z.eqb].
  destruct (deqb (getDX s) (dofZ 0) && deqb (getDY s) (dofZ 0)); reflexivity.
Qed.

(** X6.  In any arithmetic, on a state that holds its derived block when
    its flag is raised, [getNewState] aborts in three cases and in no
    other: the state number is not 0; there is neither a state nor a
    report; or there are both, the report passes the distance gate (the
    state taken with the velocity [getNewState] writes, and set up), and
    one of the nine correlations of the two textures fails the assertion
    of [getCorr]. *)
Theorem getNewState_aborts_exactly_when (mdl : CONSTVEL_MDL D) (stateNum : Z)
    (state : option (CONSTVEL_STATE D)) (report : option (CONSTPOS_REPORT D)) :
  (forall s, state = Some s -> populated s) ->
  getNewState mdl stateNum state report = None
  <-> stateNum <> 0%Z \/
      (state = None /\ report = None) \/
      (stateNum = 0%Z /\
       exists s r x_pred Sinv,
         state = Some s /\ report = Some r /\
         let s' := setup (m_processVariance mdl) (m_R mdl) (velocity_written s r) in
         m_x1 s' = Some x_pred /\ m_Sinv s' = Some Sinv /\
         let v := msub (getZ r) (mmul H_mat x_pred) in
         dltb (m_maxDistance mdl) (mget (mmul (mmul (mtrans v) Sinv) v) 0 0) = false /\
         Exists (fun p => corr_in_range
                            (corrAt (m_prevTextureInfo s) (m_textureInfo r)
                               (fst p) (snd p)) = false) pq).
Proof.
  intros Hp.
  destruct (Z.eqb_spec stateNum 0) as [->|Hne].
  2:{ unfold getNewState. destruct (Z.eqb_spec stateNum 0) as [?|_]; [contradiction|].
      split; [intros _; left; exact Hne | reflexivity]. }
  destruct state as [s|].
  2:{ destruct report as [r|].
      - split; [discriminate|].
        intros [H | [[_ H] | (_ & s & r' & x & S & H & _)]];
          [contradiction | discriminate | discriminate].
      - split; [intros _; right; left; split; reflexivity | reflexivity]. }
  pose proof (Hp s eq_refl) as Hs.
  destruct report as [r|].
  - rewrite getNewState_velocity_written.
    destruct (velocity_written_keeps r Hs) as [Hs1 Ht1].
    set (s1 := velocity_written s r) in *.
    destruct (setup_populates (m_processVariance mdl) (m_R mdl) Hs1)
      as (Sinv & W & nextP & x1 & ES & EW & EP & E1).
    pose proof (getNextState_gate_rejects mdl s1 r E1 ES) as Hgate.
    pose proof (getNextState_corr_aborts mdl s1 r E1 ES) as Hout.
    pose proof (fun c => getNextState_measured mdl s1 r E1 ES EW EP (maxCorr := c))
      as Hin.
    cbv zeta in Hgate, Hout, Hin.
    assert (Htex : m_prevTextureInfo
                     (setup (m_processVariance mdl) (m_R mdl) s1)
                   = m_prevTextureInfo s).
    { destruct (setup_keeps (m_processVariance mdl) (m_R mdl) s1)
        as (_ & _ & _ & -> & _). exact Ht1. }
    rewrite Htex in Hin, Hout.
    set (d := mget (mmul (mmul (mtrans (msub (getZ r) (mmul H_mat x1))) Sinv)
                      (msub (getZ r) (mmul H_mat x1))) 0 0) in *.
    split.
    + intros E. right; right. split; [reflexivity|].
      exists s, r, x1, Sinv. split; [reflexivity|]. split; [reflexivity|].
      cbv zeta. split; [exact E1|]. split; [exact ES|].
      fold d.
      destruct (dltb (m_maxDistance mdl) d) eqn:Hd.
      * rewrite (Hgate eq_refl) in E. discriminate.
      * split; [reflexivity|]. apply getCorr_None.
        destruct (getCorr (m_prevTextureInfo s) (m_textureInfo r)) as [c|] eqn:Ec;
          [|reflexivity].
        rewrite (Hin c eq_refl) in E.
        destruct (negb (dltb (m_intensityThreshold mdl) c)); discriminate.
    + intros [H | [[H _] | (_ & s2 & r2 & x2 & S2 & Hs2 & Hr2 & H)]];
        [contradiction | discriminate |].
      injection Hs2 as <-. injection Hr2 as <-. cbv zeta in H.
      fold s1 in H. destruct H as (E1' & ES' & Hd & Hex).
      rewrite E1 in E1'. injection E1' as <-.
      rewrite ES in ES'. injection ES' as <-.
      apply Hout; [exact Hd | apply getCorr_None; exact Hex].
  - split.
    + intros E. exfalso. unfold getNewState in E. cbn [Z.eqb] in E.
      destruct (setup_populates (m_processVariance mdl) (m_R mdl) Hs)
        as (Sinv & W & nextP & x1 & ES & EW & EP & E1).
      unfold getNextState, getPrediction, getNextP in E. rewrite E1, EP in E.
      discriminate.
    + intros [H | [[H _] | (_ & s2 & r2 & x2 & S2 & _ & Hr2 & _)]];
        [contradiction | discriminate | discriminate].
Qed.

End MoreModelFacts.

(** The operations of the instance of the real numbers, unfolded. *)
Ltac to_R :=
  cbn [dofZ dadd dsub dmul ddiv dopp dsqrt deqb dltb dleb dHUGE dis_neg_inf
       dexp dlog Double_R Libm_R] in *.

Section MoreRealFacts.
Local Open Scope R_scope.

(** X2.  a track that is skipped coasts.  For a state that has not been set
    up, [getNewState] without a report sets the state up and returns the
    state one step along the velocity: position plus velocity, the same
    velocity, the same texture, the covariance [setup] predicted,
    log-likelihood 0 and one more skipped scan. *)
Theorem skip_coasts (mdl : CONSTVEL_MDL R) (s : CONSTVEL_STATE R) (x dx y dy : R) :
  m_hasBeenSetup s = false ->
  m_x s = colvec [x; dx; y; dy] ->
  exists P_next,
    m_nextP (setup (m_processVariance mdl) (m_R mdl) s) = Some P_next /\
    getNewState mdl 0 (Some s) None
    = Some (Some (setup (m_processVariance mdl) (m_R mdl) s),
            Some (CONSTVEL_STATE_new mdl (x + dx) dx (y + dy) dy
                    (m_prevTextureInfo s) P_next 0 (m_numSkipped s + 1))).
Proof.
  intros Hs Hx.
  unfold getNewState, getNextState. cbn [Z.eqb].
  unfold getPrediction, getNextP.
  destruct (setup_keeps (m_processVariance mdl) (m_R mdl) s)
    as (_ & _ & _ & Ht & _ & Hn).
  rewrite Ht, Hn.
  unfold setup. rewrite Hs. cbn [m_x1 m_nextP bind].
  eexists. split; [reflexivity|].
  rewrite Hx. unfold ret. do 3 f_equal.
  cbv [vget mget mmul mtrans colvec map mcol seq length nth dot combine fold_left
       fst snd F_of]. to_R.
  f_equal; ring.
Qed.



(** ** The correlation of a texture with itself *)

Lemma corrAt_self (t : Texture_t R) : corrAt t t 2 2 = 1.
Proof.
  assert (Hc : corrSum t t 2 2 = 9 * (windowSigma t 2 2 * windowSigma t 2 2)).
  { rewrite corrSum_rsum, deviations_variance, windowSigma_sq. reflexivity. }
  unfold corrAt. to_R. unfold Rbool_eq.
  destruct (Req_dec_T (corrSum t t 2 2) 0) as [H0|H0];
    destruct (Req_dec_T (windowSigma t 2 2 * windowSigma t 2 2) 0) as [Hp|Hp];
    cbn [negb orb]; try reflexivity.
  - exfalso. rewrite Hc in H0. lra.
  - exfalso. apply H0. rewrite Hc, Hp. ring.
  - rewrite Hc. field. intros Hz. apply Hp. rewrite Hz. ring.
Qed.

(** In exact arithmetic a texture correlates perfectly with itself. *)
Lemma getCorr_self (t : Texture_t R) : getCorr t t = Some 1.
Proof.
  destruct (getCorr_max t t) as (maxCorr & E & (p & Hp & Hat) & Hall).
  rewrite E. f_equal.
  assert (H22 : In (2, 2)%Z pq) by (cbv; tauto).
  pose proof (Hall _ H22) as Hge. cbn [fst snd] in Hge. rewrite corrAt_self in Hge.
  pose proof (corrAt_range t t (fst p) (snd p)) as [_ Hle].
  rewrite <- Hat in Hle. lra.
Qed.

(** ** The correlation rule *)

Lemma rsum_sum_of {X} (f : X -> R) (l : list X) : rsum f l = sum_of (map f l).
Proof.
  unfold rsum, sum_of. induction l as [|x l IH]; [reflexivity|].
  cbn [fold_right map]. now rewrite IH.
Qed.

(** The windows the loops of [getCorr] read are the windows of the
    specification, and its mean, sigma and covariance are theirs. *)
Lemma window_tex (t : Texture_t R) ym xm :
  window t ym xm = map (fun q => tex t (index_of ym xm q)) ji.
Proof. reflexivity. Qed.

Lemma windowMean_spec (t : Texture_t R) ym xm :
  windowMean t ym xm = mean_of (window t ym xm).
Proof.
  rewrite windowMean_rsum, rsum_sum_of, <- window_tex. reflexivity.
Qed.

Lemma windowSigma_spec (t : Texture_t R) ym xm :
  windowSigma t ym xm = sigma_of (window t ym xm).
Proof.
  rewrite windowSigma_sqrt. unfold sigma_of. f_equal.
  rewrite <- windowMean_spec, window_tex, map_map, <- rsum_sum_of.
  rewrite deviations_variance. field.
Qed.

Lemma corrSum_spec (st rp : Texture_t R) ym xm :
  corrSum st rp ym xm = covariance_of (window st 2 2) (window rp ym xm).
Proof.
  rewrite corrSum_rsum. unfold covariance_of.
  rewrite <- !windowMean_spec, !window_tex.
  rewrite rsum_sum_of. reflexivity.
Qed.

Lemma corrAt_rule (st rp : Texture_t R) (ym xm : Z) :
  let stateSigma := sigma_of (window st 2 2) in
  let reportSigma := sigma_of (window rp ym xm) in
  let cov := covariance_of (window st 2 2) (window rp ym xm) in
  ((stateSigma = 0 \/ reportSigma = 0) /\ cov = 0 -> corrAt st rp ym xm = 1) /\
  (~ ((stateSigma = 0 \/ reportSigma = 0) /\ cov = 0) ->
   corrAt st rp ym xm = cov / (9 * (stateSigma * reportSigma))) /\
  (stateSigma = 0 \/ reportSigma = 0 -> cov = 0).
Proof.
  intros stateSigma reportSigma cov.
  pose proof (corrSum_bound st rp ym xm) as Hb. cbv zeta in Hb.
  unfold corrAt.
  rewrite !windowSigma_spec, corrSum_spec in *.
  fold stateSigma reportSigma cov in Hb |- *.
  assert (Hz : stateSigma = 0 \/ reportSigma = 0 -> cov = 0).
  { intros [Hs|Hs]; rewrite Hs in Hb; lra. }
  to_R. unfold Rbool_eq.
  destruct (Req_dec_T cov 0) as [Hc|Hc];
    destruct (Req_dec_T (reportSigma * stateSigma) 0) as [Hp|Hp];
    cbn [negb orb]; (split; [|split; [|exact Hz]]); intros Hyp.
  - reflexivity.
  - exfalso; apply Hyp; split; [|exact Hc].
    destruct (Rmult_integral _ _ Hp); tauto.
  - exfalso. destruct Hyp as [[H0|H0] _]; apply Hp; rewrite H0; ring.
  - f_equal; ring.
  - tauto.
  - f_equal; ring.
  - tauto.
  - f_equal; ring.
Qed.

(** C8.  The correlation at an offset (ym, xm), with the standard
    deviations and the centred covariance of the two windows as the
    specification defines them, in exact arithmetic: when a standard
    deviation is zero and the centred covariance is zero the correlation
    is 1; otherwise it is the centred covariance divided by 9 times the
    product of the two standard deviations (and a zero standard deviation
    makes the covariance zero, so that the quotient is never taken by
    zero).  What [getCorr] returns, in any arithmetic: it returns exactly
    when each of the nine correlations passes the assertion, and then the
    running maximum of the nine, which in exact arithmetic is their
    maximum.  The measured branch, in any arithmetic: for a report that
    has passed the gate and a maximal correlation that [getCorr] has
    returned, [getNextState] returns a new state exactly when the maximal
    correlation exceeds the threshold (the test
    [intDistance > m_intensityThreshold]). *)
Theorem texture_correlation_rule :
  (forall (st rp : Texture_t R) (ym xm : Z),
     let stateSigma := sigma_of (window st 2 2) in
     let reportSigma := sigma_of (window rp ym xm) in
     let cov := covariance_of (window st 2 2) (window rp ym xm) in
     ((stateSigma = 0 \/ reportSigma = 0) /\ cov = 0 ->
      corrAt st rp ym xm = 1) /\
     (~ ((stateSigma = 0 \/ reportSigma = 0) /\ cov = 0) ->
      corrAt st rp ym xm = cov / (9 * (stateSigma * reportSigma))) /\
     (stateSigma = 0 \/ reportSigma = 0 -> cov = 0)) /\
  (forall (D : Type) (DD : Double D) (st rp : Texture_t D) (maxCorr : D),
     getCorr st rp = Some maxCorr <->
     Forall (fun p => corr_in_range (corrAt st rp (fst p) (snd p)) = true) pq /\
     maxCorr = sliding_max st rp pq (dopp dHUGE)) /\
  (forall (st rp : Texture_t R) (maxCorr : R),
     getCorr st rp = Some maxCorr ->
     (exists p, In p pq /\ maxCorr = corrAt st rp (fst p) (snd p)) /\
     (forall p, In p pq -> corrAt st rp (fst p) (snd p) <= maxCorr)) /\
  (forall (D : Type) (DD : Double D) (LD : Libm D)
          (mdl : CONSTVEL_MDL D) (s0 : CONSTVEL_STATE D) (r : CONSTPOS_REPORT D)
          (x_pred Sinv W P_next : MATRIX D) (maxCorr : D),
     let s := setup (m_processVariance mdl) (m_R mdl) s0 in
     m_x1 s = Some x_pred ->
     m_Sinv s = Some Sinv ->
     m_W s = Some W ->
     m_nextP s = Some P_next ->
     let v := msub (getZ r) (mmul H_mat x_pred) in
     dltb (m_maxDistance mdl) (mget (mmul (mmul (mtrans v) Sinv) v) 0 0) = false ->
     getCorr (m_prevTextureInfo s) (m_textureInfo r) = Some maxCorr ->
     (dltb (m_intensityThreshold mdl) maxCorr = true <->
      exists next, getNextState mdl (Some s0) (Some r) = Some (Some s, Some next))).
Proof.
  split; [exact corrAt_rule|]. split; [intros D DD; apply getCorr_Some|]. split.
  - intros st rp maxCorr E.
    destruct (getCorr_max st rp) as (m & Em & Hat & Hall).
    rewrite Em in E. injection E as <-. split; assumption.
  - intros D DD LD mdl s0 r x_pred Sinv W P_next maxCorr s Hx HS HW HP v Hd Ecorr.
    pose proof (getNextState_measured mdl s0 r Hx HS HW HP Ecorr) as Estep.
    cbv zeta in Estep. fold s in Estep. fold v in Estep.
    rewrite Hd in Estep. rewrite Estep.
    destruct (dltb (m_intensityThreshold mdl) maxCorr); cbn [negb].
    + split; [intros _; eexists; reflexivity | reflexivity].
    + split; [discriminate | intros (next & E); discriminate E].
Qed.

End MoreRealFacts.

(* ------------------------------------------------------------------ *)
(** * The gate of a started track *)

Section GateFacts.
Local Open Scope R_scope.

(** The innovation covariance of a state a model has just started. *)
Lemma S_start (pVx pVy pv sv : R) :
  madd (mmul (mmul H_mat
                (madd (mmul (mmul (F_of 1)
                               [ [pVx; 0; 0; 0]; [0; sv; 0; 0];
                                 [0; 0; pVy; 0]; [0; 0; 0; sv] ])
                         (mtrans (F_of 1)))
                   (mscale (Q_of 1) pv)))
          (mtrans H_mat))
       [ [pVx; 0]; [0; pVy] ]
  = [ [2 * pVx + sv + pv / 3; 0]; [0; 2 * pVy + sv + pv / 3] ].
Proof.
  cbv [F_of Q_of H_mat mscale madd mmul mtrans mcol zipWith map seq length nth dot
       combine fold_left fst snd].
  to_R. repeat (f_equal; try field).
Qed.

Lemma minv_diag (a b : R) :
  a <> 0 -> b <> 0 -> minv [ [a; 0]; [0; b] ] = [ [/ a; 0]; [0; / b] ].
Proof.
  intros Ha Hb. cbv [minv mdet mget nth]. to_R.
  repeat (f_equal; try (field; split; assumption)).
Qed.

(** The derived block of a state a model has just started. *)
Lemma start_state_block (pVx pVy gV iV pv startProb lambda_x detectProb sv thr maxD : R)
    (r0 : CONSTPOS_REPORT R) :
  0 < pVx -> 0 < pVy -> 0 <= pv -> 0 <= sv ->
  let mdl := CONSTVEL_MDL_new pVx pVy gV iV pv startProb lambda_x detectProb sv
               thr maxD in
  let s := setup (m_processVariance mdl) (m_R mdl) (start_state mdl r0) in
  let a := 2 * pVx + sv + pv / 3 in
  let b := 2 * pVy + sv + pv / 3 in
  m_x1 s = Some (colvec [r_x r0; 0; r_y r0; 0]) /\
  m_Sinv s = Some [ [/ a; 0]; [0; / b] ] /\
  m_logLikelihoodCoef s = - (1.5963597 + ln (a * b) / 2) /\
  (exists W, m_W s = Some W) /\ (exists P, m_nextP s = Some P).
Proof.
  intros HpVx HpVy Hpv Hsv mdl s a b.
  assert (Ha : 0 < a) by (unfold a; lra).
  assert (Hb : 0 < b) by (unfold b; lra).
  unfold s, mdl, setup.
  cbn [start_state CONSTVEL_STATE_new CONSTVEL_MDL_new m_hasBeenSetup m_P m_x
       m_R m_startP m_processVariance m_stateVariance].
  cbv zeta. cbn [m_x1 m_Sinv m_W m_nextP m_logLikelihoodCoef].
  to_R. rewrite !S_start. fold a b.
  split; [|split; [|split; [|split; eexists; reflexivity]]].
  - f_equal.
    cbv [F_of mmul mtrans mcol colvec map seq length nth dot combine fold_left
         fst snd]. to_R.
    repeat (f_equal; try ring).
  - rewrite minv_diag by lra. reflexivity.
  - cbv [mdet mget nth LOG_NORMFACTOR]. to_R.
    replace (a * b - 0 * 0) with (a * b) by ring. lra.
Qed.


(** The distance of a report to a predicted position, for a diagonal
    inverse innovation covariance. *)
Lemma gate_distance (a b x0 y0 : R) (r : CONSTPOS_REPORT R) :
  a <> 0 -> b <> 0 ->
  mget (mmul (mmul (mtrans (msub (getZ r) (mmul H_mat (colvec [x0; 0; y0; 0]))))
                [ [/ a; 0]; [0; / b] ])
          (msub (getZ r) (mmul H_mat (colvec [x0; 0; y0; 0])))) 0 0
  = (r_x r - x0) * (r_x r - x0) / a + (r_y r - y0) * (r_y r - y0) / b.
Proof.
  intros Ha Hb.
  cbv [msub getZ zipWith mmul mtrans colvec map mcol seq length nth dot combine
       fold_left fst snd H_mat mget]. to_R. field. split; assumption.
Qed.


End GateFacts.

(* ------------------------------------------------------------------ *)
(** * The output collector *)

Section CollectorFacts.
Context {D : Type} {DD : Double D}.

Lemma size_t_of_int_range (i : Z) : (0 <= size_t_of_int i mod sizeof_color < 25)%Z.
Proof. unfold sizeof_color. apply Z.mod_pos_bound. lia. Qed.

(** X8.  [getTrackColor] reads inside the palette for every [int], also a
    negative one; for the ids 0, 1, 2, ... it walks the palette with period
    25, and two ids of one period get different colours. *)
Theorem getTrackColor_in_palette (trackId : Z) :
  In (getTrackColor trackId) color /\
  ((0 <= trackId < 2 ^ 31)%Z ->
   getTrackColor trackId = nth (Z.to_nat (trackId mod 25)) color 0%Z /\
   getTrackColor (trackId + 25) = getTrackColor trackId) /\
  (forall other : Z,
     (0 <= trackId < 25)%Z -> (0 <= other < 25)%Z ->
     getTrackColor trackId = getTrackColor other -> trackId = other).
Proof.
  split; [|split].
  - unfold getTrackColor. apply nth_In.
    pose proof (size_t_of_int_range trackId) as H.
    change (length color) with 25%nat. lia.
  - intros Hr. unfold getTrackColor, size_t_of_int, sizeof_color.
    rewrite (Z.mod_small trackId) by lia.
    rewrite (Z.mod_small (trackId + 25)) by lia.
    split; [reflexivity|].
    replace (trackId + 25)%Z with (trackId + 1 * 25)%Z by lia.
    rewrite Z.mod_add by lia. reflexivity.
  - intros other H1 H2.
    unfold getTrackColor, size_t_of_int, sizeof_color.
    rewrite (Z.mod_small trackId (2 ^ 64)), (Z.mod_small other (2 ^ 64)) by lia.
    rewrite (Z.mod_small trackId 25), (Z.mod_small other 25) by lia.
    assert (Ht : (trackId = 0 \/ trackId = 1 \/ trackId = 2 \/ trackId = 3 \/
                  trackId = 4 \/ trackId = 5 \/ trackId = 6 \/ trackId = 7 \/
                  trackId = 8 \/ trackId = 9 \/ trackId = 10 \/ trackId = 11 \/
                  trackId = 12 \/ trackId = 13 \/ trackId = 14 \/ trackId = 15 \/
                  trackId = 16 \/ trackId = 17 \/ trackId = 18 \/ trackId = 19 \/
                  trackId = 20 \/ trackId = 21 \/ trackId = 22 \/ trackId = 23 \/
                  trackId = 24)%Z) by lia.
    assert (Ho : (other = 0 \/ other = 1 \/ other = 2 \/ other = 3 \/
                  other = 4 \/ other = 5 \/ other = 6 \/ other = 7 \/
                  other = 8 \/ other = 9 \/ other = 10 \/ other = 11 \/
                  other = 12 \/ other = 13 \/ other = 14 \/ other = 15 \/
                  other = 16 \/ other = 17 \/ other = 18 \/ other = 19 \/
                  other = 20 \/ other = 21 \/ other = 22 \/ other = 23 \/
                  other = 24)%Z) by lia.
    clear H1 H2.
    repeat (destruct Ht as [-> | Ht]); try subst trackId;
      repeat (destruct Ho as [-> | Ho]); try subst other;
      cbv; intros E; first [reflexivity | discriminate E].
Qed.

(** ** [findTrack] and [verify] *)

Lemma findTrack_loop_Some id (l : list (CORNER_TRACK D)) i :
  findTrack_loop id l = Some i ->
  exists t, nth_error l i = Some t /\ ct_id t = id /\ track_of id l = Some t.
Proof.
  revert i. induction l as [|t l IH]; intros i; cbn [findTrack_loop]; [discriminate|].
  unfold track_of. cbn [find].
  destruct (Z.eqb_spec (ct_id t) id) as [E|E].
  - intros H; injection H as <-. exists t. repeat split; assumption.
  - destruct (findTrack_loop id l) as [j|]; cbn [option_map]; [|discriminate].
    intros H; injection H as <-.
    destruct (IH j eq_refl) as (t' & H1 & H2 & H3). exists t'. repeat split; assumption.
Qed.

Lemma findTrack_loop_None id (l : list (CORNER_TRACK D)) :
  findTrack_loop id l = None ->
  track_of id l = None /\ ~ In id (map (@ct_id D) l).
Proof.
  induction l as [|t l IH]; cbn [findTrack_loop]; [intros _; split; [reflexivity | intros []]|].
  unfold track_of. cbn [find map].
  destruct (Z.eqb_spec (ct_id t) id) as [E|E]; [discriminate|].
  destruct (findTrack_loop id l) as [j|]; cbn [option_map]; [discriminate|].
  intros _. destruct (IH eq_refl) as [H1 H2].
  split; [exact H1|]. intros [H|H]; [exact (E H) | exact (H2 H)].
Qed.

Lemma track_of_app id (l l' : list (CORNER_TRACK D)) :
  track_of id (l ++ l')
  = match track_of id l with Some t => Some t | None => track_of id l' end.
Proof.
  unfold track_of. induction l as [|t l IH]; cbn [app find]; [reflexivity|].
  destruct (ct_id t =? id)%Z; [reflexivity | exact IH].
Qed.

Lemma push_back_at_ids i e (l : list (CORNER_TRACK D)) :
  map (@ct_id D) (push_back_at i e l) = map (@ct_id D) l /\
  map (@ct_color D) (push_back_at i e l) = map (@ct_color D) l.
Proof.
  revert i. induction l as [|t l IH]; intros i; [destruct i; split; reflexivity|].
  destruct i as [|i]; cbn [push_back_at map]; [split; reflexivity|].
  destruct (IH i) as [-> ->]. split; reflexivity.
Qed.

Lemma push_back_at_track_of i e (l : list (CORNER_TRACK D)) id t :
  findTrack_loop id l = Some i ->
  track_of id l = Some t ->
  track_of id (push_back_at i e l)
  = Some {| ct_id := ct_id t; ct_color := ct_color t; ct_list := ct_list t ++ [e] |} /\
  (forall id', id' <> id -> track_of id' (push_back_at i e l) = track_of id' l).
Proof.
  revert i. induction l as [|t0 l IH]; intros i; cbn [findTrack_loop]; [discriminate|].
  unfold track_of. cbn [find].
  destruct (Z.eqb_spec (ct_id t0) id) as [E|E].
  - intros H Ht; injection H as <-; injection Ht as <-. cbn [push_back_at find ct_id].
    split.
    + destruct (Z.eqb_spec (ct_id t0) id); [reflexivity | contradiction].
    + intros id' Hne. destruct (Z.eqb_spec (ct_id t0) id'); [congruence | reflexivity].
  - destruct (findTrack_loop id l) as [j|] eqn:Ej; cbn [option_map]; [|discriminate].
    intros H Ht; injection H as <-. cbn [push_back_at find].
    destruct (IH j eq_refl Ht) as [H1 H2].
    destruct (Z.eqb_spec (ct_id t0) id); [contradiction|].
    split; [exact H1|].
    intros id' Hne. destruct (ct_id t0 =? id')%Z; [reflexivity | exact (H2 id' Hne)].
Qed.

(** X9.  [verify] appends the element to the track of the given id, which it
    creates, with the colour of the id, when no track has the id; the track
    a reader finds for any other id is untouched. *)
Theorem verify_appends_to_its_track (g_time trackId : Z)
    (r_x r_y s_x s_y logLikelihood : D) (modelType frame id : Z)
    (tracks : list (CORNER_TRACK D)) :
  let e := {| e_sx := s_x; e_sy := s_y; e_rx := r_x; e_ry := r_y;
              e_logLikelihood := logLikelihood; e_model := modelType;
              e_time := g_time; e_frameNo := frame; e_cornerID := id |} in
  let tracks' := CORNER_TRACK_MHT_verify g_time trackId r_x r_y s_x s_y
                   logLikelihood modelType frame id tracks in
  track_of trackId tracks'
  = Some (match track_of trackId tracks with
          | Some t => {| ct_id := ct_id t; ct_color := ct_color t;
                         ct_list := ct_list t ++ [e] |}
          | None => {| ct_id := trackId; ct_color := getTrackColor trackId;
                       ct_list := [e] |}
          end) /\
  (forall other, other <> trackId -> track_of other tracks' = track_of other tracks).
Proof.
  intros e tracks'. unfold tracks', CORNER_TRACK_MHT_verify, findTrack. fold e.
  destruct (findTrack_loop trackId tracks) as [i|] eqn:Ei.
  - destruct (@findTrack_loop_Some trackId tracks i Ei) as (t & _ & _ & Ht).
    rewrite Ht. exact (@push_back_at_track_of i e tracks trackId t Ei Ht).
  - destruct (@findTrack_loop_None trackId tracks Ei) as [Hn _]. rewrite Hn.
    assert (Hpush : push_back_at (length tracks) e
                      (tracks ++ [CORNER_TRACK_new trackId (getTrackColor trackId)])
                    = tracks ++ [ {| ct_id := trackId;
                                     ct_color := getTrackColor trackId;
                                     ct_list := [e] |} ]).
    { clear. induction tracks as [|t l IH]; [reflexivity|].
      cbn [length app push_back_at]. now rewrite IH. }
    rewrite Hpush. split.
    + rewrite track_of_app, Hn. unfold track_of. cbn [find ct_id].
      now rewrite Z.eqb_refl.
    + intros other Hne. rewrite track_of_app.
      destruct (track_of other tracks); [reflexivity|].
      unfold track_of. cbn [find ct_id].
      destruct (Z.eqb_spec trackId other); [congruence | reflexivity].
Qed.

Lemma findTrack_loop_existsb id (l : list (CORNER_TRACK D)) :
  existsb (fun t => (ct_id t =? id)%Z) l
  = match findTrack_loop id l with Some _ => true | None => false end.
Proof.
  induction l as [|t l IH]; cbn [existsb findTrack_loop]; [reflexivity|].
  destruct (ct_id t =? id)%Z; cbn [orb]; [reflexivity|].
  rewrite IH. destruct (findTrack_loop id l); reflexivity.
Qed.

Lemma push_back_at_elements i e (l : list (CORNER_TRACK D)) :
  (i < length l)%nat ->
  length (flat_map (@ct_list D) (push_back_at i e l))
  = S (length (flat_map (@ct_list D) l)).
Proof.
  revert i. induction l as [|t l IH]; intros i Hi; cbn [length] in Hi; [lia|].
  destruct i as [|i]; cbn [push_back_at flat_map ct_list].
  - rewrite !length_app. cbn [length]. lia.
  - rewrite !length_app, IH by lia. lia.
Qed.

Lemma findTrack_loop_lt id (l : list (CORNER_TRACK D)) i :
  findTrack_loop id l = Some i -> (i < length l)%nat.
Proof.
  revert i. induction l as [|t l IH]; intros i; cbn [findTrack_loop]; [discriminate|].
  destruct (ct_id t =? id)%Z.
  - intros H; injection H as <-. cbn [length]. lia.
  - destruct (findTrack_loop id l) as [j|]; cbn [option_map]; [|discriminate].
    intros H; injection H as <-. specialize (IH j eq_refl). cbn [length]. lia.
Qed.

Lemma push_back_at_colors i e (l : list (CORNER_TRACK D)) :
  Forall (fun t => ct_color t = getTrackColor (ct_id t)) l ->
  Forall (fun t => ct_color t = getTrackColor (ct_id t)) (push_back_at i e l).
Proof.
  revert i. induction l as [|t l IH]; intros i H; [destruct i; exact H|].
  apply Forall_cons_iff in H as [Ht Hl].
  destruct i as [|i]; cbn [push_back_at]; constructor; auto.
Qed.

(** X10.  [verify] keeps the table of tracks: the tracks stay in the order of
    their creation, a track is added at the end exactly when the id is
    new, no id comes twice when none did, every track keeps the colour of
    its id, and the elements of all the tracks are one more. *)
Theorem verify_keeps_the_track_table (g_time trackId : Z)
    (r_x r_y s_x s_y logLikelihood : D) (modelType frame id : Z)
    (tracks : list (CORNER_TRACK D)) :
  let tracks' := CORNER_TRACK_MHT_verify g_time trackId r_x r_y s_x s_y
                   logLikelihood modelType frame id tracks in
  map (@ct_id D) tracks'
  = (if existsb (fun t => (ct_id t =? trackId)%Z) tracks
     then map (@ct_id D) tracks else map (@ct_id D) tracks ++ [trackId]) /\
  (NoDup (map (@ct_id D) tracks) -> NoDup (map (@ct_id D) tracks')) /\
  (Forall (fun t => ct_color t = getTrackColor (ct_id t)) tracks ->
   Forall (fun t => ct_color t = getTrackColor (ct_id t)) tracks') /\
  length (flat_map (@ct_list D) tracks') = S (length (flat_map (@ct_list D) tracks)).
Proof.
  intros tracks'. unfold tracks', CORNER_TRACK_MHT_verify, findTrack.
  rewrite findTrack_loop_existsb.
  set (e := {| e_sx := s_x; e_sy := s_y; e_rx := r_x; e_ry := r_y;
               e_logLikelihood := logLikelihood; e_model := modelType;
               e_time := g_time; e_frameNo := frame; e_cornerID := id |}).
  destruct (findTrack_loop trackId tracks) as [i|] eqn:Ei.
  - destruct (push_back_at_ids i e tracks) as [Hids _].
    rewrite Hids. split; [reflexivity|]. split; [tauto|].
    split; [apply push_back_at_colors|].
    apply push_back_at_elements. exact (@findTrack_loop_lt trackId tracks i Ei).
  - destruct (@findTrack_loop_None trackId tracks Ei) as [_ Hnin].
    destruct (push_back_at_ids (length tracks) e
                (tracks ++ [CORNER_TRACK_new trackId (getTrackColor trackId)]))
      as [Hids _].
    rewrite Hids, map_app. cbn [map CORNER_TRACK_new ct_id].
    split; [reflexivity|]. split; [|split].
    + intros Hnd. apply NoDup_app; [exact Hnd | repeat constructor; intros [] |].
      intros x Hx [<-|[]]. exact (Hnin Hx).
    + intros Hc. apply push_back_at_colors. apply Forall_app. split; [exact Hc|].
      repeat constructor.
    + rewrite push_back_at_elements by (rewrite length_app; cbn [length]; lia).
      rewrite flat_map_app, length_app. cbn. lia.
Qed.

End CollectorFacts.

(* ------------------------------------------------------------------ *)
(** * Growing a node in a scan *)

Section GrowthFacts.
Context {D : Type} {DD : Double D} {LD : Libm D}.
Local Open Scope double_scope.

(** X11.  a DUMMY, FALARM or END leaf grows one child in a scan, whatever the
    reports: a DUMMY of the same log-likelihood, one scan later. *)
Theorem ending_leaf_grows_one_dummy (modelList : list (CONSTVEL_MDL D))
    (reports : list (CONSTPOS_REPORT D)) (h : T_HYPO D) (cs : list (TNODE D))
    (next : nat) :
  t_kind h = DUMMY \/ t_kind h = FALARM \/ t_kind h = END ->
  grow modelList reports (Node h cs, next)
  = Some (Node h (Node (setStamp (MDL_DUMMY_T_HYPO_new next (t_logLikelihood h))
                          (m_timeStamp h + 1)) [] :: cs),
          S next).
Proof.
  intros Hk. unfold grow.
  assert (E1 : makeDefaultChildren (Node h cs, next)
               = DUMMY_makeDefaultChildren (Node h cs, next)).
  { unfold makeDefaultChildren. cbn [fst node_hypo].
    destruct Hk as [-> | [-> | ->]]; reflexivity. }
  rewrite E1. cbn [DUMMY_makeDefaultChildren ret bind installChild node_hypo].
  set (g := (Node h _, S next)).
  assert (Hg : t_kind (node_hypo (fst g)) = t_kind h) by reflexivity.
  clearbody g. induction reports as [|r rs IH]; [reflexivity|].
  cbn [foldM]. unfold makeChildrenFor at 1. rewrite Hg.
  destruct Hk as [Hk | [Hk | Hk]]; rewrite Hk; cbn [bind ret]; exact IH.
Qed.

(** One START child per model. *)
Lemma ROOT_start_one (mdl : CONSTVEL_MDL D) (report : CONSTPOS_REPORT D)
    (h : T_HYPO D) (cs : list (TNODE D)) (next : nat) :
  foldM (fun (g : GROWN D) i =>
           let '(n, next) := g in
           do r <- getNewState mdl i None (Some report);
           match snd r with
           | Some state =>
               ret (installChild n (MDL_START_T_HYPO_new next state report),
                    S next)
           | None => ret (n, next)
           end)
        (iota (beginNewStates mdl None (Some report))) (Node h cs, next)
  = Some (Node h (Node (setStamp (MDL_START_T_HYPO_new next (start_state mdl report)
                                    report) (m_timeStamp h + 1)) [] :: cs),
          S next).
Proof. reflexivity. Qed.

Lemma ROOT_start_loop (report : CONSTPOS_REPORT D) (h : T_HYPO D) :
  forall (modelList : list (CONSTVEL_MDL D)) (cs : list (TNODE D)) (next : nat),
    foldM (fun g mdl =>
             let numStartStates := beginNewStates mdl None (Some report) in
             foldM (fun (g : GROWN D) i =>
                      let '(n, next) := g in
                      do r <- getNewState mdl i None (Some report);
                      match snd r with
                      | Some state =>
                          ret (installChild n (MDL_START_T_HYPO_new next state report),
                               S next)
                      | None => ret (n, next)
                      end)
                   (iota numStartStates) g)
          modelList (Node h cs, next)
    = Some (Node h (rev (start_children (m_timeStamp h + 1) report next modelList)
                    ++ cs),
            (next + length modelList)%nat).
Proof.
  induction modelList as [|mdl ml IH]; intros cs next.
  - cbn [foldM ret start_children rev app length]. now rewrite Nat.add_0_r.
  - cbn [foldM]. cbv zeta. rewrite ROOT_start_one. cbn [bind].
    rewrite IH. cbn [start_children rev length]. rewrite <- app_assoc.
    cbn [app]. do 2 f_equal. lia.
Qed.

(** the tree of a report: under the root, a START child for every model
    of the list (the last model first), the FALARM child of the report and
    the DUMMY child. *)
Lemma root_children_for_a_report (modelList : list (CONSTVEL_MDL D))
    (report : CONSTPOS_REPORT D) (h : T_HYPO D) (next : nat) :
  t_kind h = ROOT ->
  grow modelList [report] (Node h [], next)
  = Some (Node h
            (rev (start_children (m_timeStamp h + 1) report (S (S next)) modelList)
             ++ [ Node (setStamp (MDL_FALARM_T_HYPO_new (S next) report)
                          (m_timeStamp h + 1)) [];
                  Node (setStamp (MDL_DUMMY_T_HYPO_new next (dofZ 0))
                          (m_timeStamp h + 1)) [] ]),
          (S (S next) + length modelList)%nat).
Proof.
  intros Hk. unfold grow, makeDefaultChildren. cbn [fst node_hypo]. rewrite Hk.
  cbn [ROOT_makeDefaultChildren ret bind installChild foldM].
  unfold makeChildrenFor. cbn [fst node_hypo]. rewrite Hk.
  unfold ROOT_makeChildrenFor. cbn [installChild].
  rewrite ROOT_start_loop. reflexivity.
Qed.


(** X12.  the default children of a START, CONTINUE or SKIP leaf whose two
    log-likelihoods are finite: an END child and, in front of it, a SKIP
    child on the predicted state, with one more skipped scan; the leaf's
    own state is left set up. *)
Theorem tracked_leaf_default_children (h : T_HYPO D) (cs : list (TNODE D))
    (next : nat) (s : CONSTVEL_STATE D) :
  t_kind h = START \/ t_kind h = CONTINUE \/ t_kind h = SKIP ->
  t_state h = Some s ->
  populated s ->
  dis_neg_inf (getEndLogLikelihood (m_mdl s) s) = false ->
  dis_neg_inf (getContinueLogLikelihood (m_mdl s) s) = false ->
  let mdl := m_mdl s in
  let s' := setup (m_processVariance mdl) (m_R mdl) s in
  exists x1 nextP,
    m_x1 s' = Some x1 /\
    m_nextP s' = Some nextP /\
    makeDefaultChildren (Node h cs, next)
    = Some (Node (set_state h (Some s'))
              (Node (setStamp
                       (MDL_SKIP_T_HYPO_new (S next) (t_logLikelihood h)
                          (getContinueLogLikelihood mdl s)
                          (getSkipLogLikelihood mdl s)
                          (CONSTVEL_STATE_new mdl (vget x1 0) (vget x1 1)
                             (vget x1 2) (vget x1 3) (m_prevTextureInfo s) nextP
                             (dofZ 0) (m_numSkipped s + 1)))
                       (m_timeStamp h + 1)) []
               :: Node (setStamp
                          (MDL_END_T_HYPO_new next (t_logLikelihood h)
                             (getSkipLogLikelihood mdl s)
                             (getEndLogLikelihood mdl s))
                          (m_timeStamp h + 1)) []
               :: cs),
            S (S next)).
Proof.
  intros Hk Hs Hp He Hc. cbv zeta.
  set (mdl := m_mdl s) in *.
  set (s' := setup (m_processVariance mdl) (m_R mdl) s).
  destruct (@setup_populates D _ _ (m_processVariance mdl) (m_R mdl) s Hp)
    as (Sinv & W & nextP & x1 & _ & _ & EP & E1).
  fold s' in EP, E1.
  exists x1, nextP. split; [exact E1|]. split; [exact EP|].
  assert (E0 : makeDefaultChildren (Node h cs, next)
               = CONTINUE_makeDefaultChildren (Node h cs, next)).
  { unfold makeDefaultChildren. cbn [fst node_hypo].
    destruct Hk as [-> | [-> | ->]]; reflexivity. }
  rewrite E0. unfold CONTINUE_makeDefaultChildren. cbn [node_hypo].
  rewrite Hs. cbn [bind]. fold mdl. rewrite He, Hc. cbn [negb].
  change (iota (beginNewStates mdl (Some s) None)) with [0%Z].
  cbn [foldM installChild node_hypo]. rewrite Hs.
  unfold getNewState. cbn [Z.eqb]. unfold getNextState. fold mdl. fold s'.
  unfold getPrediction, getNextP. rewrite E1, EP. cbn [bind ret fst snd].
  destruct (setup_keeps (m_processVariance mdl) (m_R mdl) s)
    as (_ & _ & _ & Ht & _ & Hn).
  fold s' in Ht, Hn. rewrite Ht, Hn.
  reflexivity.
Qed.


(** ** Children are only added *)

Lemma grown_refl (n : TNODE D) (next : nat) : grown n next n next.
Proof.
  exists []. cbn [app length map rev seq]. rewrite Nat.add_0_r.
  repeat split; [constructor|]. destruct n as [[] cs]. reflexivity.
Qed.

Lemma grown_trans (n1 n2 n3 : TNODE D) (k1 k2 k3 : nat) :
  grown n1 k1 n2 k2 -> grown n2 k2 n3 k3 -> grown n1 k1 n3 k3.
Proof.
  intros (a1 & C1 & F1 & A1 & K1 & H1) (a2 & C2 & F2 & A2 & K2 & H2).
  exists (a2 ++ a1).
  assert (Ht : m_timeStamp (node_hypo n2) = m_timeStamp (node_hypo n1))
    by (rewrite H1; reflexivity).
  split; [rewrite C2, C1, app_assoc; reflexivity|].
  split.
  { apply Forall_app. split; [|exact F1].
    revert F2. apply Forall_impl. intros c [Hc1 Hc2]. split; [exact Hc1|].
    rewrite Hc2, Ht. reflexivity. }
  split.
  { rewrite map_app, A1, A2, length_app, K1.
    rewrite (Nat.add_comm (length a2)), seq_app, rev_app_distr. reflexivity. }
  split; [rewrite K2, K1, length_app; lia|].
  rewrite H2, H1. reflexivity.
Qed.

Lemma grown_by_installChild (n : TNODE D) (next : nat) (s : option (CONSTVEL_STATE D))
    (c : T_HYPO D) :
  t_addr c = next ->
  grown n next (installChild (node_set_state n s) c) (S next).
Proof.
  intros Hc. destruct n as [h cs].
  exists [Node (setStamp c (m_timeStamp h + 1)) []].
  cbn [installChild node_set_state node_children node_hypo app length map rev seq
       set_state m_timeStamp setStamp t_addr t_state].
  rewrite Hc. repeat split; [|lia].
  repeat constructor.
Qed.

Lemma grown_by_installChild_same (n : TNODE D) (next : nat) (c : T_HYPO D) :
  t_addr c = next -> grown n next (installChild n c) (S next).
Proof.
  intros Hc. destruct n as [h cs].
  exists [Node (setStamp c (m_timeStamp h + 1)) []].
  cbn [installChild node_children node_hypo app length map rev seq
       set_state m_timeStamp setStamp t_addr t_state].
  rewrite Hc. repeat split; [|lia|destruct h; reflexivity].
  repeat constructor.
Qed.

Lemma grown_set_state (n : TNODE D) (next : nat) (s : option (CONSTVEL_STATE D)) :
  grown n next (node_set_state n s) next.
Proof.
  destruct n as [h cs]. exists [].
  cbn [node_set_state node_children node_hypo app length map rev seq].
  rewrite Nat.add_0_r. repeat split. constructor.
Qed.

(** A loop of steps that add children adds children. *)
Lemma grown_foldM {B} (f : GROWN D -> B -> M (GROWN D)) :
  (forall g b g', f g b = Some g' -> grown (fst g) (snd g) (fst g') (snd g')) ->
  forall l g g', foldM f l g = Some g' -> grown (fst g) (snd g) (fst g') (snd g').
Proof.
  intros Hf l. induction l as [|b l IH]; cbn [foldM]; intros g g' E.
  - injection E as <-. apply grown_refl.
  - apply bind_Some in E as (g1 & E1 & E).
    eapply grown_trans; [exact (Hf _ _ _ E1) | exact (IH _ _ E)].
Qed.

Lemma CONTINUE_makeDefaultChildren_grown (g g' : GROWN D) :
  CONTINUE_makeDefaultChildren g = Some g' ->
  grown (fst g) (snd g) (fst g') (snd g').
Proof.
  destruct g as [n next]. unfold CONTINUE_makeDefaultChildren. cbn [fst snd].
  intros E. apply bind_Some in E as (m_state & _ & E).
  set (g1 := if negb (dis_neg_inf (getEndLogLikelihood (m_mdl m_state) m_state))
             then _ else (n, next)) in E.
  assert (H1 : grown n next (fst g1) (snd g1)).
  { unfold g1. destruct (negb _); cbn [fst snd];
      [apply grown_by_installChild_same; reflexivity | apply grown_refl]. }
  destruct (negb (dis_neg_inf (getContinueLogLikelihood _ _)));
    [|injection E as <-; exact H1].
  eapply grown_trans; [exact H1|].
  eapply grown_foldM; [|exact E].
  intros [m k] i g2 E2. cbn [fst snd].
  apply bind_Some in E2 as (r & _ & E2).
  destruct (snd r); injection E2 as <-; cbn [fst snd].
  - apply grown_by_installChild. reflexivity.
  - apply grown_set_state.
Qed.

Lemma CONTINUE_makeChildrenFor_grown (report : CONSTPOS_REPORT D) (g g' : GROWN D) :
  CONTINUE_makeChildrenFor report g = Some g' ->
  grown (fst g) (snd g) (fst g') (snd g').
Proof.
  destruct g as [n next]. unfold CONTINUE_makeChildrenFor. cbn [fst snd].
  intros E. apply bind_Some in E as (m_state & _ & E).
  change n with (fst (n, next)) at 1. change next with (snd (n, next)) at 2.
  eapply grown_foldM; [|exact E].
  intros [m k] i g2 E2. cbn [fst snd].
  apply bind_Some in E2 as (r & _ & E2).
  destruct (snd r); injection E2 as <-; cbn [fst snd].
  - apply grown_by_installChild. reflexivity.
  - apply grown_set_state.
Qed.

Lemma ROOT_makeChildrenFor_grown (modelList : list (CONSTVEL_MDL D))
    (report : CONSTPOS_REPORT D) (g g' : GROWN D) :
  ROOT_makeChildrenFor modelList report g = Some g' ->
  grown (fst g) (snd g) (fst g') (snd g').
Proof.
  destruct g as [n next]. unfold ROOT_makeChildrenFor. cbn [fst snd].
  intros E.
  eapply grown_trans;
    [apply (@grown_by_installChild_same n next (MDL_FALARM_T_HYPO_new next report));
     reflexivity|].
  change (S next) with (snd (installChild n (MDL_FALARM_T_HYPO_new next report), S next)).
  change (installChild n (MDL_FALARM_T_HYPO_new next report))
    with (fst (installChild n (MDL_FALARM_T_HYPO_new next report), S next)) at 1.
  eapply grown_foldM; [|exact E].
  intros g1 mdl g2 E2. cbv zeta in E2.
  eapply grown_foldM; [|exact E2].
  intros [m k] i g3 E3. cbn [fst snd].
  apply bind_Some in E3 as (r & _ & E3).
  destruct (snd r); injection E3 as <-; cbn [fst snd].
  - apply grown_by_installChild_same. reflexivity.
  - apply grown_refl.
Qed.

Lemma makeDefaultChildren_grown (g g' : GROWN D) :
  makeDefaultChildren g = Some g' -> grown (fst g) (snd g) (fst g') (snd g').
Proof.
  unfold makeDefaultChildren.
  destruct (t_kind (node_hypo (fst g)));
    try apply CONTINUE_makeDefaultChildren_grown;
    destruct g as [n next]; intros E; injection E as <-;
    apply grown_by_installChild_same; reflexivity.
Qed.

Lemma makeChildrenFor_grown (modelList : list (CONSTVEL_MDL D))
    (report : CONSTPOS_REPORT D) (g g' : GROWN D) :
  makeChildrenFor modelList report g = Some g' ->
  grown (fst g) (snd g) (fst g') (snd g').
Proof.
  unfold makeChildrenFor.
  destruct (t_kind (node_hypo (fst g)));
    first [ apply ROOT_makeChildrenFor_grown
          | apply CONTINUE_makeChildrenFor_grown
          | intros E; injection E as <-; apply grown_refl ].
Qed.

(** X13.  what a scan does to a node: it adds children in front of the
    children the node has, leaves that are stamped with the node's time
    plus one and allocated at fresh addresses, the latest in front; the
    children the node had are untouched, and so are the members of the
    node itself but for the state. *)
Theorem a_scan_only_adds_children (modelList : list (CONSTVEL_MDL D))
    (reports : list (CONSTPOS_REPORT D)) (n n' : TNODE D) (next next' : nat) :
  grow modelList reports (n, next) = Some (n', next') ->
  grown n next n' next'.
Proof.
  unfold grow. intros E. apply bind_Some in E as (g1 & E1 & E).
  eapply grown_trans; [exact (makeDefaultChildren_grown _ E1)|].
  change n' with (fst (n', next')). change next' with (snd (n', next')) at 2.
  eapply grown_foldM; [|exact E].
  intros g r g' Eg. exact (makeChildrenFor_grown _ _ _ Eg).
Qed.

End GrowthFacts.

(* ------------------------------------------------------------------ *)
(** * Taking in the reports and verifying the roots *)

Section IngestFacts.
Context {D : Type} {DD : Double D} {LD : Libm D}.
Local Open Scope double_scope.

Lemma count_from_S first n :
  count_from first (S n) = first :: count_from (first + 1) n.
Proof.
  unfold count_from. cbn [seq map]. f_equal; [lia|].
  rewrite <- seq_shift, map_map. apply map_ext. intros i. lia.
Qed.

Lemma number_from_rows (k : Z) (l : list (CONSTPOS_REPORT D)) :
  map (@m_rowNum D) (number_from k l) = count_from k (length l) /\
  map (@r_addr D) (number_from k l) = map (@r_addr D) l /\
  map (@m_groupId D) (number_from k l) = map (@m_groupId D) l.
Proof.
  revert k. induction l as [|r l IH]; intros k; [repeat split|].
  cbn [number_from map length]. rewrite count_from_S.
  destruct (IH (k + 1)%Z) as (-> & -> & ->). repeat split.
Qed.

(** X14.  [importNewReports] numbers the new reports 0, 1, 2, ... in their
    order and moves them behind the old reports, whose row numbers it
    leaves alone; the list of new reports is left empty. *)
Theorem importNewReports_numbers_the_rows (st : MHT D) :
  exists imported,
    m_oldReportList (importNewReports st) = m_oldReportList st ++ imported /\
    m_newReportList (importNewReports st) = [] /\
    map (@m_rowNum D) imported = count_from 0 (length (m_newReportList st)) /\
    map (@r_addr D) imported = map (@r_addr D) (m_newReportList st) /\
    map (@m_groupId D) imported = map (@m_groupId D) (m_newReportList st) /\
    map report_data imported = map report_data (m_newReportList st) /\
    map (@m_falarmLogLikelihood D) imported
    = map (@m_falarmLogLikelihood D) (m_newReportList st).
Proof.
  exists (number_from 0 (m_newReportList st)).
  destruct (number_from_rows 0 (m_newReportList st)) as (H1 & H2 & H3).
  split; [reflexivity|]. split; [reflexivity|].
  split; [exact H1|]. split; [exact H2|]. split; [exact H3|].
  clear H1 H2 H3.
  generalize 0%Z. induction (m_newReportList st) as [|r l IH]; intros k;
    [split; reflexivity|].
  cbn [number_from map]. destruct (IH (k + 1)%Z) as [-> ->]. split; reflexivity.
Qed.

(** X15.  [measure] installs one report per detection of the batch, in the
    order of the batch, behind the reports already waiting; a report
    carries the position, texture, frame number and id of its detection and
    the false-alarm log-likelihood of the engine, with row number 0 and
    group id 0; the reports are distinct objects. *)
Theorem measure_installs_one_report_per_corner (newReports : list (CORNERXY D))
    (st : MHT D) :
  exists reports,
    m_newReportList (measure newReports st) = m_newReportList st ++ reports /\
    map report_data reports = map corner_data newReports /\
    map (@r_addr D) reports = seq (m_nextReport st) (length newReports) /\
    m_nextReport (measure newReports st)
    = (m_nextReport st + length newReports)%nat /\
    Forall (fun r => m_falarmLogLikelihood r = mht_falarmLogLikelihood st /\
                     m_rowNum r = 0%Z /\ m_groupId r = 0%Z) reports.
Proof.
  unfold measure. revert st.
  induction newReports as [|c l IH]; intros st.
  - exists []. cbn [fold_left map length seq]. rewrite app_nil_r, Nat.add_0_r.
    repeat split. constructor.
  - cbn [fold_left].
    set (r := {| r_addr := m_nextReport st; m_rowNum := 0; m_groupId := 0;
                 m_falarmLogLikelihood := mht_falarmLogLikelihood st;
                 r_x := c_x c; r_y := c_y c; m_textureInfo := c_textureInfo c;
                 m_frameNo := c_frameNo c; m_cornerID := c_cornerID c |}).
    destruct (IH (installReport r (set_nextReport (S (m_nextReport st)) st)))
      as (reports & H1 & H2 & H3 & H4 & H5).
    exists (r :: reports).
    rewrite H1, H4. cbn [installReport set_newReportList set_nextReport
                         m_newReportList m_nextReport mht_falarmLogLikelihood] in *.
    rewrite <- app_assoc. cbn [app map length seq].
    split; [reflexivity|]. split; [now rewrite H2|]. split; [now rewrite H3|].
    split; [lia|]. constructor; [repeat split | exact H5].
Qed.


(** ** Verifying the roots *)

Lemma verifyRoot_popsTo (id : Z) :
  forall (t t' : TNODE D) (ev : list (EVENT D)),
    verifyRoot id t = Some (ev, t') -> exists popped, popsTo t popped t'.
Proof.
  fix IH 1. intros t t' ev.
  destruct t as [h cs].
  assert (Hfinal : forall cs',
             hasOneChild (Node h cs') && negb (m_endsTrack h) = false ->
             (do e <- verify_if (m_endsTrack h && m_mustVerify h) id h;
              ret (e, Node h cs')) = Some (ev, t') ->
             exists popped, popsTo (Node h cs') popped t').
  { intros cs' Hst E. apply bind_Some in E as (e & _ & E). injection E as _ <-.
    exists []. constructor. exact Hst. }
  destruct cs as [|c [|c' cs]].
  - cbn [verifyRoot]. apply Hfinal. reflexivity.
  - cbn [verifyRoot]. intros E. destruct (negb (m_endsTrack h)) eqn:He.
    + apply negb_true_iff in He.
      apply bind_Some in E as (e & _ & E).
      apply bind_Some in E as ([ev1 r1] & E1 & E). injection E as _ <-.
      cbn [snd]. destruct (IH c r1 ev1 E1) as (popped & Hp).
      exists (h :: popped). constructor; assumption.
    + apply (Hfinal [c]); [|exact E].
      reflexivity.
  - cbn [verifyRoot]. apply Hfinal. reflexivity.
Qed.

Lemma popsTo_stable (t t' : TNODE D) popped :
  popsTo t popped t' ->
  hasOneChild t' && negb (m_endsTrack (node_hypo t')) = false.
Proof. induction 1; assumption. Qed.

(** X16.  [verifyTTreeRoots] keeps the list of trees: the same trees in the
    same order, each with its track id and group id, its root popped down
    to a root that the loop would not pop again, an empty tree left empty;
    the calls it makes into the application come after those made before,
    and no other member of the engine changes. *)
Theorem verifyTTreeRoots_keeps_the_trees (st st' : MHT D) :
  verifyTTreeRoots st = Some st' ->
  Forall2 popped_from (m_tTreeList st) (m_tTreeList st') /\
  Forall root_is_stable (m_tTreeList st') /\
  (exists events, m_verified st' = m_verified st ++ events) /\
  st' = set_tTreeList (m_tTreeList st') (set_verified (m_verified st') st).
Proof.
  unfold verifyTTreeRoots. intros E.
  apply bind_Some in E as ([evs trees] & E & E'). injection E' as <-.
  cbn [fst snd m_tTreeList m_verified set_tTreeList set_verified].
  assert (loop : forall l (acc acc' : list (EVENT D) * list (T_TREE D)),
            foldM
              (fun (acc : list (EVENT D) * list (T_TREE D)) tTree =>
                 match m_tree tTree with
                 | None => ret (fst acc, snd acc ++ [tTree])
                 | Some root =>
                     do r <- verifyRoot (m_id tTree) root;
                     ret (fst acc ++ fst r, snd acc ++ [set_tree tTree (Some (snd r))])
                 end) l acc = Some acc' ->
            exists news events,
              snd acc' = snd acc ++ news /\ fst acc' = fst acc ++ events /\
              Forall2 popped_from l news /\ Forall root_is_stable news).
  { induction l as [|t l IHl]; intros acc acc' El; cbn [foldM] in El.
    - injection El as <-. exists [], []. rewrite !app_nil_r.
      repeat split; constructor.
    - apply bind_Some in El as (acc1 & E1 & El).
      destruct (IHl _ _ El) as (news & events & H1 & H2 & H3 & H4).
      destruct (m_tree t) as [root|] eqn:Et.
      + apply bind_Some in E1 as ([ev r] & Ev & E1). injection E1 as <-.
        cbn [fst snd] in *.
        destruct (verifyRoot_popsTo _ _ Ev) as (popped & Hp).
        exists (set_tree t (Some r) :: news), (ev ++ events).
        rewrite H1, H2, <- !app_assoc. cbn [app].
        split; [reflexivity|]. split; [reflexivity|]. split.
        * constructor; [|exact H3].
          unfold popped_from. cbn [set_tree m_id t_groupId m_tree]. rewrite Et.
          repeat split. exists popped. exact Hp.
        * constructor; [|exact H4].
          unfold root_is_stable. cbn [set_tree m_tree].
          exact (popsTo_stable Hp).
      + injection E1 as <-. cbn [fst snd] in *.
        exists (t :: news), events.
        rewrite H1, H2, <- !app_assoc. cbn [app].
        split; [reflexivity|]. split; [reflexivity|]. split.
        * constructor; [|exact H3].
          unfold popped_from. rewrite Et. repeat split.
        * constructor; [|exact H4]. unfold root_is_stable. rewrite Et. exact I. }
  destruct (loop _ _ _ E) as (news & events & H1 & H2 & H3 & H4).
  cbn [fst snd app] in H1, H2. subst trees evs.
  split; [exact H3|]. split; [exact H4|]. split; [exists events; reflexivity|].
  reflexivity.
Qed.

End IngestFacts.

(* ------------------------------------------------------------------ *)
(** * The tree of a report *)

Section TreeFacts.
Context {D : Type} {DD : Double D} {LD : Libm D}.
Local Open Scope double_scope.

Lemma ROOT_grow (modelList : list (CONSTVEL_MDL D)) (report : CONSTPOS_REPORT D)
    (h : T_HYPO D) (next : nat) :
  t_kind h = ROOT ->
  makeDefaultChildren (Node h [], next)
  = Some (Node h [Node (setStamp (MDL_DUMMY_T_HYPO_new next (dofZ 0))
                          (m_timeStamp h + 1)) []], S next) /\
  forall cs next',
    makeChildrenFor modelList report (Node h cs, next')
    = Some (Node h
              (rev (start_children (m_timeStamp h + 1) report (S next') modelList)
               ++ Node (setStamp (MDL_FALARM_T_HYPO_new next' report)
                          (m_timeStamp h + 1)) [] :: cs),
            (S next' + length modelList)%nat).
Proof.
  intros Hk. split.
  - unfold makeDefaultChildren. cbn [fst node_hypo]. rewrite Hk. reflexivity.
  - intros cs next'. unfold makeChildrenFor. cbn [fst node_hypo]. rewrite Hk.
    unfold ROOT_makeChildrenFor. cbn [installChild].
    rewrite ROOT_start_loop. reflexivity.
Qed.

(** The engine after [rootNewTree]. *)
Lemma rootNewTree_tree (st : MHT D) (report : CONSTPOS_REPORT D) :
  fresh_above (m_nextTHypo st) (m_tTreeList st) ->
  exists st',
    rootNewTree st report = Some st' /\
    m_tTreeList st' = m_tTreeList st ++ [new_tree st report] /\
    m_lastTrackIdUsed st' = (m_lastTrackIdUsed st + 1)%Z /\
    m_nextNewTTree st'
    = match m_nextNewTTree st with
      | Some id => Some id
      | None => Some (m_lastTrackIdUsed st)
      end /\
    m_nextTHypo st' = (S (S (S (m_nextTHypo st))) + length (m_modelList st))%nat /\
    m_activeTHypoList st' = m_activeTHypoList st ++ [m_nextTHypo st] /\
    m_newReportList st' = m_newReportList st.
Proof.
  intros Hf.
  destruct st as [lastId time maxDepth ratio maxG trees cursor groups olds
                  news active queue first models falarmLL verified nextT nextR].
  cbn [m_nextTHypo m_tTreeList m_modelList m_lastTrackIdUsed m_currentTime
       m_nextNewTTree m_activeTHypoList m_newReportList] in *.
  unfold new_tree.
  cbn [m_nextTHypo m_tTreeList m_modelList m_lastTrackIdUsed m_currentTime].
  set (root := setStamp (MDL_ROOT_T_HYPO_new nextT) (time + -1)).
  destruct (@ROOT_grow models report root (S nextT) eq_refl) as [Ed Ec].
  unfold rootNewTree, installTree.
  destruct cursor; cbn -[growAt makeDefaultChildren makeChildrenFor];
    fold root;
    (erewrite growAt_last;
     [|exact Hf|reflexivity|reflexivity|reflexivity|apply Nat.le_refl|exact Ed]);
    cbn -[growAt makeDefaultChildren makeChildrenFor];
    (erewrite growAt_last;
     [|exact Hf|reflexivity|reflexivity|reflexivity|apply Nat.le_refl|apply Ec]);
    eexists; (split; [reflexivity|]);
    cbn; repeat split.
Qed.

End TreeFacts.

(* ------------------------------------------------------------------ *)
(** * Track ids, groups and the value of [scan] *)

Section TrackIdFacts.
Context {D : Type} {DD : Double D} {LD : Libm D}.
Local Open Scope double_scope.

Lemma grown_from_refl (st : MHT D) : grown_from st st.
Proof.
  split; [destruct st; reflexivity|].
  induction (m_tTreeList st); constructor; [tauto | assumption].
Qed.

Lemma Forall2_trans_keep (l1 l2 l3 : list (T_TREE D)) :
  Forall2 (fun t t' => m_id t' = m_id t /\ t_groupId t' = t_groupId t /\
                       (m_tree t = None <-> m_tree t' = None)) l1 l2 ->
  Forall2 (fun t t' => m_id t' = m_id t /\ t_groupId t' = t_groupId t /\
                       (m_tree t = None <-> m_tree t' = None)) l2 l3 ->
  Forall2 (fun t t' => m_id t' = m_id t /\ t_groupId t' = t_groupId t /\
                       (m_tree t = None <-> m_tree t' = None)) l1 l3.
Proof.
  intros H12. revert l3. induction H12 as [|a b l1 l2 Hab H12 IH]; intros l3 H23.
  - inversion H23. constructor.
  - inversion H23 as [|b' c l2' l3' Hbc H23']; subst. constructor; [|auto].
    destruct Hab as (A1 & A2 & A3), Hbc as (B1 & B2 & B3).
    repeat split; try congruence; tauto.
Qed.

Lemma grown_from_trans (st1 st2 st3 : MHT D) :
  grown_from st1 st2 -> grown_from st2 st3 -> grown_from st1 st3.
Proof.
  intros [E12 F12] [E23 F23]. split.
  - transitivity (set_nextTHypo (m_nextTHypo st3) (set_tTreeList (m_tTreeList st3) st2));
      [exact E23|]. rewrite E12. reflexivity.
  - eapply Forall2_trans_keep; eassumption.
Qed.

Lemma grown_from_growAt a f (st st' : MHT D) :
  growAt a f st = Some st' -> grown_from st st'.
Proof.
  unfold growAt; intros E.
  apply bind_Some in E as (n & _ & E).
  apply bind_Some in E as (g & _ & E).
  injection E as <-. split; [reflexivity|].
  cbn [m_tTreeList set_nextTHypo set_tTreeList]. unfold replaceInTrees.
  induction (m_tTreeList st) as [|t l IH]; cbn [map]; constructor; [|exact IH].
  cbn [set_tree m_id t_groupId m_tree]. repeat split.
  - intros ->. reflexivity.
  - destruct (m_tree t); [discriminate | reflexivity].
Qed.

Lemma grown_from_growLeaf (st st' : MHT D) a :
  growLeaf st a = Some st' -> grown_from st st'.
Proof.
  unfold growLeaf; intros E.
  apply bind_Some in E as (st1 & E1 & E).
  eapply grown_from_trans; [eapply grown_from_growAt; exact E1|].
  eapply (foldM_invariant (grown_from st1)); [|apply grown_from_refl|exact E].
  intros x r x' Fx Ex.
  eapply grown_from_trans; [exact Fx | eapply grown_from_growAt; exact Ex].
Qed.

Lemma Forall2_keep_ids (l l' : list (T_TREE D)) :
  Forall2 (fun t t' => m_id t' = m_id t /\ t_groupId t' = t_groupId t /\
                       (m_tree t = None <-> m_tree t' = None)) l l' ->
  map (@m_id D) l' = map (@m_id D) l.
Proof.
  induction 1 as [|t t' l l' (H & _) F IH]; [reflexivity|].
  cbn [map]. now rewrite H, IH.
Qed.

Lemma grown_from_ids (st st' : MHT D) :
  grown_from st st' ->
  map (@m_id D) (m_tTreeList st') = map (@m_id D) (m_tTreeList st) /\
  m_lastTrackIdUsed st' = m_lastTrackIdUsed st /\
  m_nextNewTTree st' = m_nextNewTTree st /\
  m_groupList st' = m_groupList st /\
  m_newReportList st' = m_newReportList st /\
  m_modelList st' = m_modelList st /\
  m_currentTime st' = m_currentTime st.
Proof.
  intros [E F]. split.
  - exact (Forall2_keep_ids F).
  - rewrite E. repeat split.
Qed.


Lemma new_tree_rooted (st : MHT D) (report : CONSTPOS_REPORT D) :
  rooted_at_ROOT (new_tree st report) /\ m_id (new_tree st report) = m_lastTrackIdUsed st.
Proof. split; [|reflexivity]. do 2 eexists. repeat split. Qed.

(** The loop of [measureAndValidate] over the reports. *)
Lemma rootNewTree_fold :
  forall (rs : list (CONSTPOS_REPORT D)) (st : MHT D),
    fresh_above (m_nextTHypo st) (m_tTreeList st) ->
    exists st' news,
      foldM rootNewTree rs st = Some st' /\
      m_tTreeList st' = m_tTreeList st ++ news /\
      map (@m_id D) news = count_from (m_lastTrackIdUsed st) (length rs) /\
      Forall rooted_at_ROOT news /\
      m_lastTrackIdUsed st' = (m_lastTrackIdUsed st + Z.of_nat (length rs))%Z /\
      m_nextNewTTree st'
      = match m_nextNewTTree st, rs with
        | Some id, _ => Some id
        | None, [] => None
        | None, _ :: _ => Some (m_lastTrackIdUsed st)
        end /\
      m_groupList st' = m_groupList st.
Proof.
  induction rs as [|r rs IH]; intros st Hf.
  - exists st, []. cbn [foldM length]. rewrite app_nil_r, Z.add_0_r.
    repeat split; [constructor | destruct (m_nextNewTTree st); reflexivity].
  - destruct (rootNewTree_tree st r Hf) as (st1 & E1 & Ht & Hl & Hc & _).
    pose proof (@rootNewTree_fresh D _ _ st st1 r Hf E1) as Hf1.
    destruct (frame_rootNewTree _ _ E1) as (_ & _ & Hg & _).
    destruct (IH st1 Hf1) as (st' & news & E & Ht' & Hids & Hroot & Hl' & Hc' & Hg').
    exists st', (new_tree st r :: news).
    cbn [foldM]. rewrite E1. cbn [bind].
    split; [exact E|].
    split; [rewrite Ht', Ht, <- app_assoc; reflexivity|].
    split.
    { cbn [map length]. rewrite count_from_S, Hids, Hl. reflexivity. }
    split; [constructor; [apply new_tree_rooted | exact Hroot]|].
    split; [rewrite Hl', Hl; cbn [length]; lia|].
    split; [|congruence].
    rewrite Hc', Hc. destruct (m_nextNewTTree st); [reflexivity|].
    destruct rs; reflexivity.
Qed.

(** The engine between the two loops of [measureAndValidate]. *)
Lemma measureAndValidate_split (batch : list (CORNERXY D)) (dT : D)
    (st st' : MHT D) :
  fresh_above (m_nextTHypo st) (m_tTreeList st) ->
  measureAndValidate batch dT st = Some st' ->
  exists st1,
    foldM rootNewTree (m_newReportList st1) st1 = Some st' /\
    fresh_above (m_nextTHypo st1) (m_tTreeList st1) /\
    grown_from (measure batch st) st1 /\
    length (m_newReportList st1)
    = (length (m_newReportList st) + length batch)%nat.
Proof.
  intros Hf E. unfold measureAndValidate in E.
  apply bind_Some in E as (st1 & E1 & E2).
  destruct (measure_reports batch st) as [Hn Ht].
  set (st0 := measure batch st) in *.
  assert (Hf0 : fresh_above (m_nextTHypo st0) (m_tTreeList st0)).
  { rewrite Ht. unfold st0. rewrite measure_nextTHypo. exact Hf. }
  assert (P1 : fresh_above (m_nextTHypo st1) (m_tTreeList st1) /\
               grown_from st0 st1).
  { eapply (foldM_invariant
              (fun x : MHT D =>
                 fresh_above (m_nextTHypo x) (m_tTreeList x) /\ grown_from st0 x));
      [| |exact E1].
    - intros x a x' [Hx1 Hx2] Ex. split.
      + eapply growLeaf_fresh; eassumption.
      + eapply grown_from_trans; [exact Hx2 | eapply grown_from_growLeaf; exact Ex].
    - split; [exact Hf0 | apply grown_from_refl]. }
  destruct P1 as [Hf1 Hg1].
  destruct (grown_from_ids Hg1) as (_ & _ & _ & _ & Hnew & _).
  exists st1. split; [exact E2|]. split; [exact Hf1|]. split; [exact Hg1|].
  rewrite Hnew. exact Hn.
Qed.

Lemma measure_keeps (batch : list (CORNERXY D)) (st : MHT D) :
  m_tTreeList (measure batch st) = m_tTreeList st /\
  m_lastTrackIdUsed (measure batch st) = m_lastTrackIdUsed st /\
  m_nextNewTTree (measure batch st) = m_nextNewTTree st /\
  m_groupList (measure batch st) = m_groupList st.
Proof.
  unfold measure. revert st.
  induction batch as [|c l IH]; intros st; [repeat split|].
  cbn [fold_left].
  destruct (IH (installReport
                  {| r_addr := m_nextReport st; m_rowNum := 0; m_groupId := 0;
                     m_falarmLogLikelihood := mht_falarmLogLikelihood st;
                     r_x := c_x c; r_y := c_y c;
                     m_textureInfo := c_textureInfo c;
                     m_frameNo := c_frameNo c; m_cornerID := c_cornerID c |}
                  (set_nextReport (S (m_nextReport st)) st)))
    as (-> & -> & -> & ->).
  repeat split.
Qed.

Lemma count_from_bounds first n x :
  In x (count_from first n) -> (first <= x < first + Z.of_nat n)%Z.
Proof.
  unfold count_from. rewrite in_map_iff. intros (i & <- & Hi).
  apply in_seq in Hi. lia.
Qed.

Lemma count_from_NoDup first n : NoDup (count_from first n).
Proof.
  revert first. induction n as [|n IH]; intros first; [constructor|].
  rewrite count_from_S. constructor; [|apply IH].
  intros H. apply count_from_bounds in H. lia.
Qed.

(** X17.  [measureAndValidate] numbers the tracks: the trees it finds keep
    their track ids, every report gets a tree with the next id of the
    counter, in the order of the reports, and the ids of the trees stay
    distinct and below the counter. *)
Theorem measureAndValidate_numbers_the_tracks (batch : list (CORNERXY D))
    (dT : D) (st st' : MHT D) :
  fresh_above (m_nextTHypo st) (m_tTreeList st) ->
  track_ids_fresh st ->
  measureAndValidate batch dT st = Some st' ->
  let n := (length (m_newReportList st) + length batch)%nat in
  map (@m_id D) (m_tTreeList st')
  = map (@m_id D) (m_tTreeList st) ++ count_from (m_lastTrackIdUsed st) n /\
  m_lastTrackIdUsed st' = (m_lastTrackIdUsed st + Z.of_nat n)%Z /\
  track_ids_fresh st'.
Proof.
  intros Hf [Hnd Hlt] E n.
  destruct (@measureAndValidate_split batch dT st st' Hf E) as (st1 & E2 & Hf1 & Hg & Hlen).
  destruct (grown_from_ids Hg) as (Hids & Hlast & _).
  destruct (measure_keeps batch st) as (Ht0 & Hl0 & _).
  rewrite Ht0 in Hids. rewrite Hl0 in Hlast.
  destruct (rootNewTree_fold (m_newReportList st1) st1 Hf1)
    as (st2 & news & E2' & Ht & Hnews & _ & Hl & _).
  rewrite E2 in E2'. injection E2' as <-.
  rewrite Hlen in Hnews, Hl. fold n in Hnews, Hl. rewrite Hlast in Hnews, Hl.
  assert (Hmap : map (@m_id D) (m_tTreeList st')
                 = map (@m_id D) (m_tTreeList st) ++ count_from (m_lastTrackIdUsed st) n)
    by (rewrite Ht, map_app, Hids, Hnews; reflexivity).
  split; [exact Hmap|]. split; [exact Hl|].
  unfold track_ids_fresh. rewrite Hmap, Hl. split.
  - apply NoDup_app; [exact Hnd | apply count_from_NoDup |].
    intros x Hx Hc. apply count_from_bounds in Hc.
    apply in_map_iff in Hx as (t & <- & Hin).
    rewrite Forall_forall in Hlt. specialize (Hlt t Hin). lia.
  - apply Forall_forall. intros t Hin.
    assert (Hx : In (m_id t) (map (@m_id D) (m_tTreeList st'))) by (apply in_map; exact Hin).
    rewrite Hmap in Hx. apply in_app_or in Hx as [Hx|Hx].
    + apply in_map_iff in Hx as (t0 & Et & Hin0).
      rewrite Forall_forall in Hlt. specialize (Hlt t0 Hin0). lia.
    + apply count_from_bounds in Hx. lia.
Qed.


Lemma from_tree_app id (olds news : list (T_TREE D)) :
  Forall (fun t => (m_id t < id)%Z) olds ->
  match news with t :: _ => m_id t = id | [] => True end ->
  from_tree id (olds ++ news) = news.
Proof.
  intros Ho Hn. induction olds as [|t l IH]; cbn [app from_tree].
  - destruct news as [|t news]; [reflexivity|].
    cbn [from_tree]. rewrite Hn, Z.eqb_refl. reflexivity.
  - apply Forall_cons_iff in Ho as [Ht Hl].
    destruct (Z.eqb_spec (m_id t) id); [lia | exact (IH Hl)].
Qed.

Lemma makeNewGroups_loop :
  forall (news : list (T_TREE D)) (st : MHT D),
    Forall rooted_at_ROOT news ->
    exists groups,
      foldM (fun st tree =>
               do g <- GROUP_new tree;
               ret (set_groupList (m_groupList st ++ [g]) st)) news st
      = Some (set_groupList (m_groupList st ++ groups) st) /\
      Forall2 group_of_tree news groups.
Proof.
  induction news as [|t news IH]; intros st Hr.
  - exists []. cbn [foldM]. rewrite app_nil_r. split; [|constructor].
    destruct st; reflexivity.
  - apply Forall_cons_iff in Hr as [(root & cs & Et & Hk & _) Hr].
    destruct (@IH (set_groupList (m_groupList st ++ [new_group root]) st) Hr)
      as (groups & E & HF).
    exists (new_group root :: groups).
    cbn [foldM]. unfold GROUP_new at 1. rewrite Et. cbn [bind ret node_hypo].
    fold (new_group root). split.
    + etransitivity; [exact E|]. cbn [m_groupList set_groupList].
      rewrite <- app_assoc. reflexivity.
    + constructor; [|exact HF]. exists root, cs. repeat split; assumption.
Qed.

(** X18.  a scan makes one group for every tree it has rooted: after
    [measureAndValidate], [makeNewGroups] appends a group for each new
    tree, in the order of the trees; the group has one hypothesis, which
    postulates the root of its tree; the cursor to the first new tree is
    reset, and nothing else changes. *)
Theorem one_group_per_new_tree (batch : list (CORNERXY D)) (dT : D)
    (st st1 : MHT D) :
  fresh_above (m_nextTHypo st) (m_tTreeList st) ->
  Forall (fun t => (m_id t < m_lastTrackIdUsed st)%Z) (m_tTreeList st) ->
  m_nextNewTTree st = None ->
  measureAndValidate batch dT st = Some st1 ->
  exists olds news groups,
    m_tTreeList st1 = olds ++ news /\
    length olds = length (m_tTreeList st) /\
    length news = (length (m_newReportList st) + length batch)%nat /\
    makeNewGroups st1
    = Some (set_nextNewTTree None
              (set_groupList (m_groupList st ++ groups) st1)) /\
    Forall2 group_of_tree news groups.
Proof.
  intros Hf Hlt Hc E.
  destruct (@measureAndValidate_split batch dT st st1 Hf E)
    as (st0 & E2 & Hf0 & Hg & Hlen).
  destruct (grown_from_ids Hg) as (Hids & Hlast & Hcur & Hgrp & _).
  destruct (measure_keeps batch st) as (Ht0 & Hl0 & Hc0 & Hg0).
  rewrite Ht0 in Hids. rewrite Hl0 in Hlast. rewrite Hc0, Hc in Hcur.
  rewrite Hg0 in Hgrp.
  destruct (rootNewTree_fold (m_newReportList st0) st0 Hf0)
    as (st2 & news & E2' & Ht & Hnews & Hroot & Hl & Hcur' & Hgrp').
  rewrite E2 in E2'. injection E2' as <-.
  rewrite Hcur in Hcur'. rewrite Hgrp in Hgrp'. rewrite Hlast in Hnews, Hcur'.
  assert (Hlnews : length news = length (m_newReportList st0)).
  { rewrite <- (length_map (@m_id D) news), Hnews. unfold count_from.
    now rewrite length_map, length_seq. }
  destruct (@makeNewGroups_loop news st1 Hroot) as (groups & Eloop & HF).
  exists (m_tTreeList st0), news, groups.
  split; [exact Ht|].
  split; [rewrite <- (length_map (@m_id D) (m_tTreeList st0)), Hids; apply length_map|].
  split; [rewrite Hlnews; exact Hlen|].
  split; [|exact HF].
  unfold makeNewGroups. rewrite Hcur'.
  destruct (m_newReportList st0) as [|r rs] eqn:Hrs.
  - destruct news; [|discriminate Hlnews].
    inversion HF; subst. rewrite app_nil_r.
    destruct st1. cbn in *. subst. reflexivity.
  - rewrite Ht, from_tree_app.
    + rewrite Eloop. cbn [bind ret]. rewrite Hgrp'. reflexivity.
    + assert (Hmap : map (@m_id D) (m_tTreeList st0) = map (@m_id D) (m_tTreeList st))
        by exact Hids.
      apply Forall_forall. intros t Hin.
      assert (Hx : In (m_id t) (map (@m_id D) (m_tTreeList st)))
        by (rewrite <- Hmap; apply in_map; exact Hin).
      apply in_map_iff in Hx as (t0 & Et & Hin0).
      rewrite Forall_forall in Hlt. specialize (Hlt t0 Hin0). lia.
    + destruct news as [|t news]; [exact I|].
      cbn [length] in Hnews. rewrite count_from_S in Hnews.
      cbn [map] in Hnews. injection Hnews as Hid _. exact Hid.
Qed.


(** X19.  the tree a report gets: a new tree at the end of the tree list,
    with the next track id of the counter, rooted at a ROOT one scan back
    whose children, stamped with the current time, are a START for every
    model, the FALARM of the report and a DUMMY; the root goes on the list
    of active nodes, and the cursor to the first new tree is set when it
    was not. *)
Theorem a_report_roots_a_tree (st : MHT D) (report : CONSTPOS_REPORT D) :
  fresh_above (m_nextTHypo st) (m_tTreeList st) ->
  exists st',
    rootNewTree st report = Some st' /\
    m_tTreeList st' = m_tTreeList st ++ [new_tree st report] /\
    m_lastTrackIdUsed st' = (m_lastTrackIdUsed st + 1)%Z /\
    m_nextNewTTree st'
    = match m_nextNewTTree st with
      | Some id => Some id
      | None => Some (m_lastTrackIdUsed st)
      end /\
    m_nextTHypo st' = (S (S (S (m_nextTHypo st))) + length (m_modelList st))%nat /\
    m_activeTHypoList st' = m_activeTHypoList st ++ [m_nextTHypo st] /\
    m_newReportList st' = m_newReportList st.
Proof. exact (rootNewTree_tree st report). Qed.

(** X20.  what the value [scan] returns tells.  It is 0 or 1.  On 1 a batch
    was taken off the queue and the first-scan flag is down.  On 0 either
    the queue was empty and nothing changed, or the batch taken was empty
    and the engine had no tree: the batch is gone and the clock has
    advanced all the same. *)
Theorem scan_return_value (G : GROUPING D) (st st' : MHT D) (r : Z) :
  scan G st = Some (r, st') ->
  (r = 0%Z /\ m_reportsQueue st = [] /\ st' = st) \/
  (r = 0%Z /\
   exists batch queue,
     m_reportsQueue st = batch :: queue /\ c_list batch = [] /\
     m_tTreeList st = [] /\ m_tTreeList st' = [] /\
     m_reportsQueue st' = queue /\
     m_currentTime st' = (m_currentTime st + 1)%Z) \/
  (r = 1%Z /\ m_reportsQueue st <> [] /\ m_isFirstScan st' = false).
Proof.
  unfold scan. destruct (m_reportsQueue st) as [|batch queue] eqn:HQ.
  - intros E; injection E as <- <-. left. repeat split.
  - intros E. apply bind_Some in E as (st1 & E1 & E). right.
    destruct (m_tTreeList
                (importNewReports
                   (set_activeTHypoList [] (set_currentTime (m_currentTime st1 + 1) st1))))
      as [|t ts] eqn:HT.
    + injection E as <- <-. left. split; [reflexivity|].
      exists batch, queue. cbn in HT.
      destruct (no_tree_after_ingest _ _ _ E1 HT) as (Ht & _ & Hb).
      destruct (frame_measureAndValidate _ _ _ E1) as (Hc & Hq & _).
      cbn in Ht, Hc, Hq. cbn. rewrite Hc, Hq.
      repeat split; assumption.
    + apply bind_Some in E as (s1 & _ & E).
      apply bind_Some in E as (s2 & _ & E).
      apply bind_Some in E as (s3 & _ & E).
      apply bind_Some in E as (s4 & _ & E).
      apply bind_Some in E as (s5 & _ & E).
      apply bind_Some in E as (s6 & _ & E).
      apply bind_Some in E as (s7 & _ & E).
      apply bind_Some in E as (s8 & _ & E).
      apply bind_Some in E as (s9 & _ & E).
      apply bind_Some in E as (s10 & _ & E).
      injection E as <- <-. right. repeat split. discriminate.
Qed.

End TrackIdFacts.

(* ------------------------------------------------------------------ *)
(** * Reading the parameter file *)

Section ParameterFacts.
Context {D : Type}.
Variable atof : String.string -> D.
Variable atoi : String.string -> Z.

Lemma skip_comments_values (fp : list String.string) :
  skip_comments (value_lines fp)
  = (fst (skip_comments fp), value_lines (snd (skip_comments fp))).
Proof.
  induction fp as [|buf fp IH]; [reflexivity|].
  unfold value_lines in *. cbn [filter skip_comments].
  destruct (is_comment buf) eqn:E; cbn [negb]; [exact IH|].
  cbn [skip_comments]. rewrite E. reflexivity.
Qed.

Lemma skip_comments_value (buf : String.string) (fp : list String.string) :
  is_comment buf = false -> skip_comments (buf :: fp) = (Some buf, fp).
Proof. intros E. cbn [skip_comments]. rewrite E. reflexivity. Qed.

Lemma read_param_values (fp : list String.string) :
  read_param atof atoi (value_lines fp) = read_param atof atoi fp.
Proof.
  unfold read_param.
  repeat (rewrite skip_comments_values;
          match goal with
          | |- context [skip_comments (snd ?p)] => fail 1
          | |- context [skip_comments ?x] =>
              is_var x; destruct (skip_comments x) as [? ?]; cbn [fst snd]
          end).
  reflexivity.
Qed.

Lemma read_param_of_values (v : list String.string) :
  Forall (fun buf => is_comment buf = false) v ->
  read_param atof atoi v = parameters_of atof atoi v.
Proof.
  intros H. unfold read_param.
  repeat (destruct v as [|? v]; [reflexivity|];
          apply Forall_cons_iff in H as [? H];
          rewrite skip_comments_value by assumption).
  reflexivity.
Qed.

(** X21.  [read_param] gives the value lines of the parameter file, the lines
    that do not begin with a semicolon, to the 23 parameters by their
    position, in the order of the file.  An empty line is not skipped: it
    is a value line like any other.  A parameter the value lines do not
    reach is not assigned. *)
Theorem read_param_reads_the_values_in_order (fp : list String.string) :
  read_param atof atoi fp = parameters_of atof atoi (value_lines fp).
Proof.
  rewrite <- read_param_values. apply read_param_of_values.
  unfold value_lines. apply Forall_forall. intros buf Hin.
  apply filter_In in Hin as [_ Hb]. now apply negb_true_iff in Hb.
Qed.

End ParameterFacts.

(* ------------------------------------------------------------------ *)
(** * States and reports once they are exposed *)

Section ExposedFacts.
Context {D : Type} {DD : Double D} {LD : Libm D}.
Local Open Scope double_scope.







End ExposedFacts.

(* ------------------------------------------------------------------ *)
(** * More theorems at concrete inputs *)

Section MoreInstances.
Local Open Scope R_scope.

Lemma velocity_write_is_dead_after_setup_witness :
  m_hasBeenSetup (setup 1 [ [1; 0]; [0; 1] ] state_moving) = true /\
  option_map snd (getNewState mdl_unit 0
                    (Some (setup 1 [ [1; 0]; [0; 1] ] state_moving))
                    (Some report_east))
  = option_map snd (getNextState mdl_unit
                      (Some (setup 1 [ [1; 0]; [0; 1] ] state_moving))
                      (Some report_east)).
Proof.
  split; [reflexivity|].
  exact (@velocity_write_is_dead_after_setup R _ _ mdl_unit
           (setup 1 [ [1; 0]; [0; 1] ] state_moving) (Some report_east) eq_refl).
Defined.

Lemma skip_coasts_witness :
  m_hasBeenSetup state_moving = false /\
  m_x state_moving = colvec [0; 1; 0; 0] /\
  exists P_next,
    getNewState mdl_unit 0 (Some state_moving) None
    = Some (Some (setup (m_processVariance mdl_unit) (m_R mdl_unit) state_moving),
            Some (CONSTVEL_STATE_new mdl_unit (0 + 1) 1 (0 + 0) 0
                    (m_prevTextureInfo state_moving) P_next 0
                    (m_numSkipped state_moving + 1))).
Proof.
  split; [reflexivity|]. split; [reflexivity|].
  destruct (@skip_coasts mdl_unit state_moving 0 1 0 0 eq_refl eq_refl)
    as (P_next & _ & E).
  exists P_next. exact E.
Defined.

Lemma ending_leaf_grows_one_dummy_witness :
  t_kind (MDL_FALARM_T_HYPO_new 0 report_east) = FALARM /\
  grow [mdl_unit] [report_east] (Node (MDL_FALARM_T_HYPO_new 0 report_east) [], 1%nat)
  = Some (Node (MDL_FALARM_T_HYPO_new 0 report_east)
            [Node (setStamp (MDL_DUMMY_T_HYPO_new 1
                               (t_logLikelihood (MDL_FALARM_T_HYPO_new 0 report_east)))
                     (0 + 1)) []],
          2%nat).
Proof.
  split; [reflexivity|].
  exact (@ending_leaf_grows_one_dummy R _ _ [mdl_unit] [report_east]
           (MDL_FALARM_T_HYPO_new 0 report_east) [] 1
           (or_intror (or_introl eq_refl))).
Defined.

Lemma tracked_leaf_default_children_witness :
  t_state (MDL_START_T_HYPO_new 0 state_at_rest report_east) = Some state_at_rest /\
  populated state_at_rest /\
  exists x1 nextP,
    m_x1 (setup (m_processVariance (m_mdl state_at_rest))
            (m_R (m_mdl state_at_rest)) state_at_rest) = Some x1 /\
    m_nextP (setup (m_processVariance (m_mdl state_at_rest))
               (m_R (m_mdl state_at_rest)) state_at_rest) = Some nextP.
Proof.
  assert (Hp : populated state_at_rest) by (intros H; discriminate H).
  split; [reflexivity|]. split; [exact Hp|].
  assert (He : dis_neg_inf (getEndLogLikelihood (m_mdl state_at_rest) state_at_rest)
               = false) by (cbn [dis_neg_inf Double_R]; reflexivity).
  assert (Hc : dis_neg_inf (getContinueLogLikelihood (m_mdl state_at_rest) state_at_rest)
               = false) by (cbn [dis_neg_inf Double_R]; reflexivity).
  destruct (@tracked_leaf_default_children R _ _
              (MDL_START_T_HYPO_new 0 state_at_rest report_east) [] 1
              state_at_rest (or_introl eq_refl) eq_refl Hp He Hc)
    as (x1 & nextP & E1 & EP & _).
  exists x1, nextP. split; [exact E1 | exact EP].
Defined.

Lemma a_scan_only_adds_children_witness :
  exists n' next',
    grow [mdl_unit] [report_east] (Node (MDL_ROOT_T_HYPO_new 0) [], 1%nat)
    = Some (n', next') /\
    grown (Node (MDL_ROOT_T_HYPO_new 0) []) 1 n' next'.
Proof.
  assert (E : {g | grow [mdl_unit] [report_east]
                     (Node (@MDL_ROOT_T_HYPO_new R _ 0) [], 1%nat) = Some g})
    by (eexists; reflexivity).
  destruct E as [[n' next'] E]. exists n', next'. split; [exact E|].
  exact (@a_scan_only_adds_children R _ _ [mdl_unit] [report_east] _ n' 1 next' E).
Defined.

Lemma a_report_roots_a_tree_witness :
  fresh_above (m_nextTHypo engine0) (m_tTreeList engine0) /\
  exists st',
    rootNewTree engine0 report_east = Some st' /\
    m_tTreeList st' = [new_tree engine0 report_east].
Proof.
  assert (Hf : fresh_above (m_nextTHypo engine0) (m_tTreeList engine0))
    by apply Forall_nil.
  split; [exact Hf|].
  destruct (@a_report_roots_a_tree R _ _ engine0 report_east Hf)
    as (st' & E & Ht & _).
  exists st'. split; [exact E | exact Ht].
Defined.

Lemma measureAndValidate_numbers_the_tracks_witness :
  fresh_above (m_nextTHypo engine0) (m_tTreeList engine0) /\
  track_ids_fresh engine0 /\
  exists st',
    measureAndValidate [corner_east] 1 engine0 = Some st' /\
    map (@m_id R) (m_tTreeList st') = [0%Z] /\
    m_lastTrackIdUsed st' = 1%Z.
Proof.
  assert (Hf : fresh_above (m_nextTHypo engine0) (m_tTreeList engine0))
    by apply Forall_nil.
  assert (Hi : track_ids_fresh engine0) by (split; constructor).
  split; [exact Hf|]. split; [exact Hi|].
  assert (E : {st' | measureAndValidate [corner_east] 1 engine0 = Some st'})
    by (eexists; cbv; reflexivity).
  destruct E as [st' E]. exists st'. split; [exact E|].
  destruct (@measureAndValidate_numbers_the_tracks R _ _ [corner_east] 1 engine0 st'
              Hf Hi E) as (Hm & Hl & _).
  split; [exact Hm | exact Hl].
Defined.

Lemma one_group_per_new_tree_witness :
  fresh_above (m_nextTHypo engine0) (m_tTreeList engine0) /\
  m_nextNewTTree engine0 = None /\
  exists st1 news groups,
    measureAndValidate [corner_east] 1 engine0 = Some st1 /\
    length news = 1%nat /\
    makeNewGroups st1
    = Some (set_nextNewTTree None (set_groupList (m_groupList engine0 ++ groups) st1)) /\
    Forall2 group_of_tree news groups.
Proof.
  assert (Hf : fresh_above (m_nextTHypo engine0) (m_tTreeList engine0))
    by apply Forall_nil.
  split; [exact Hf|]. split; [reflexivity|].
  assert (E : {st' | measureAndValidate [corner_east] 1 engine0 = Some st'})
    by (eexists; cbv; reflexivity).
  destruct E as [st1 E]. exists st1.
  destruct (@one_group_per_new_tree R _ _ [corner_east] 1 engine0 st1
              Hf (Forall_nil _) eq_refl E)
    as (olds & news & groups & _ & _ & Hn & Hg & HF).
  exists news, groups. split; [exact E|]. split; [exact Hn|].
  split; [exact Hg | exact HF].
Defined.

Lemma scan_return_value_witness :
  scan no_grouping engine0 = Some (0%Z, engine0) /\
  ((0 = 0)%Z /\ m_reportsQueue engine0 = [] /\ engine0 = engine0 \/
   (0 = 0)%Z /\
   (exists batch queue,
      m_reportsQueue engine0 = batch :: queue /\ c_list batch = [] /\
      m_tTreeList engine0 = [] /\ m_tTreeList engine0 = [] /\
      m_reportsQueue engine0 = queue /\
      m_currentTime engine0 = (m_currentTime engine0 + 1)%Z) \/
   (0 = 1)%Z /\ m_reportsQueue engine0 <> [] /\ m_isFirstScan engine0 = false).
Proof.
  split; [reflexivity|].
  exact (@scan_return_value R _ _ no_grouping engine0 engine0 0 eq_refl).
Defined.

(** ** The measured branch, the correlation rule and the gate *)

(** The derived block of the track the model starts on the report at the
    origin. *)
Lemma spot_track_block :
  let s := setup (m_processVariance mdl_unit) (m_R mdl_unit)
             (start_state mdl_unit spot_origin) in
  m_x1 s = Some (colvec [0; 0; 0; 0]) /\
  m_Sinv s = Some [ [/ (2 * 1 + 1 + 1 / 3); 0]; [0; / (2 * 1 + 1 + 1 / 3)] ] /\
  (exists W, m_W s = Some W) /\ (exists P, m_nextP s = Some P).
Proof.
  destruct (@start_state_block 1 1 1 1 1 1 1 (1 / 2) 1 0 10 spot_origin
              ltac:(lra) ltac:(lra) ltac:(lra) ltac:(lra))
    as (E1 & ES & _ & HW & HP).
  cbv zeta in *. split; [exact E1|]. split; [exact ES|]. split; [exact HW | exact HP].
Qed.

Lemma spot_east_distance :
  mget (mmul (mmul (mtrans (msub (getZ spot_east)
                              (mmul H_mat (colvec [0; 0; 0; 0]))))
                [ [/ (2 * 1 + 1 + 1 / 3); 0]; [0; / (2 * 1 + 1 + 1 / 3)] ])
          (msub (getZ spot_east) (mmul H_mat (colvec [0; 0; 0; 0])))) 0 0
  = 3 / 10.
Proof.
  rewrite gate_distance by lra. cbn [spot_east spot_at r_x r_y]. field.
Qed.

Lemma spot_far_distance :
  mget (mmul (mmul (mtrans (msub (getZ spot_far)
                              (mmul H_mat (colvec [0; 0; 0; 0]))))
                [ [/ (2 * 1 + 1 + 1 / 3); 0]; [0; / (2 * 1 + 1 + 1 / 3)] ])
          (msub (getZ spot_far) (mmul H_mat (colvec [0; 0; 0; 0])))) 0 0
  = 3000.
Proof.
  rewrite gate_distance by lra. cbn [spot_far spot_at r_x r_y]. field.
Qed.

Lemma measured_branch_witness :
  exists x_pred Sinv W P_next,
    m_x1 (setup (m_processVariance mdl_unit) (m_R mdl_unit)
            (start_state mdl_unit spot_origin)) = Some x_pred /\
    m_Sinv (setup (m_processVariance mdl_unit) (m_R mdl_unit)
              (start_state mdl_unit spot_origin)) = Some Sinv /\
    m_W (setup (m_processVariance mdl_unit) (m_R mdl_unit)
           (start_state mdl_unit spot_origin)) = Some W /\
    m_nextP (setup (m_processVariance mdl_unit) (m_R mdl_unit)
               (start_state mdl_unit spot_origin)) = Some P_next /\
    (exists next,
       getNextState mdl_unit (Some (start_state mdl_unit spot_origin)) (Some spot_east)
       = Some (Some (setup (m_processVariance mdl_unit) (m_R mdl_unit)
                       (start_state mdl_unit spot_origin)), Some next) /\
       m_x next
       = (let mean := madd x_pred
                        (mmul W (msub (getZ spot_east) (mmul H_mat x_pred))) in
          colvec [vget mean 0; vget mean 1; vget mean 2; vget mean 3]) /\
       m_P next = P_next /\
       m_logLikelihood next
       = m_logLikelihoodCoef (setup (m_processVariance mdl_unit) (m_R mdl_unit)
                                (start_state mdl_unit spot_origin)) - 3 / 10 / 2 /\
       m_numSkipped next = 0%Z /\
       m_prevTextureInfo next = texture_spot /\
       m_hasBeenSetup next = false) /\
    getNextState mdl_unit (Some (start_state mdl_unit spot_origin)) (Some spot_far)
    = Some (Some (setup (m_processVariance mdl_unit) (m_R mdl_unit)
                    (start_state mdl_unit spot_origin)), None).
Proof.
  destruct spot_track_block as (E1 & ES & (W & EW) & (P & EP)).
  cbv zeta in E1, ES, EW, EP.
  exists (colvec [0; 0; 0; 0]),
         [ [/ (2 * 1 + 1 + 1 / 3); 0]; [0; / (2 * 1 + 1 + 1 / 3)] ], W, P.
  split; [exact E1|]. split; [exact ES|]. split; [exact EW|]. split; [exact EP|].
  split.
  - destruct (@measured_branch R _ _ mdl_unit (start_state mdl_unit spot_origin)
                spot_east _ _ W P E1 ES EW EP) as (_ & Hacc & _).
    rewrite spot_east_distance in Hacc.
    assert (Hg : dltb (m_maxDistance mdl_unit) (3 / 10) = false)
      by (apply Rbool_lt_false; cbn [mdl_unit CONSTVEL_MDL_new m_maxDistance]; lra).
    assert (Hc : dltb (m_intensityThreshold mdl_unit) 1 = true)
      by (apply Rbool_lt_true; cbn [mdl_unit CONSTVEL_MDL_new m_intensityThreshold]; lra).
    destruct (proj1 (Hacc Hg 1 (getCorr_self texture_spot)) Hc)
      as (next & E & Hm & HP' & Hl & Hn & Ht & Hf).
    exists next. split; [exact E|]. split; [exact Hm|]. split; [exact HP'|].
    split; [exact Hl|]. split; [exact Hn|]. split; [exact Ht | exact Hf].
  - destruct (@measured_branch R _ _ mdl_unit (start_state mdl_unit spot_origin)
                spot_far _ _ W P E1 ES EW EP) as (Hrej & _).
    rewrite spot_far_distance in Hrej.
    apply Hrej. apply Rbool_lt_true.
    cbn [mdl_unit CONSTVEL_MDL_new m_maxDistance]. lra.
Defined.


Lemma black_window ym xm :
  In (ym, xm) pq -> window texture_black ym xm = repeat 0 9.
Proof.
  intros H. cbv [pq flat_map map app] in H.
  repeat (destruct H as [H|H]; [injection H as <- <-; reflexivity|]).
  destruct H.
Qed.

Lemma spot_window : window texture_spot 2 2 = [0; 0; 0; 0; 1; 0; 0; 0; 0].
Proof. reflexivity. Qed.

Lemma texture_correlation_rule_witness :
  corrAt texture_black texture_black 1 1 = 1 /\
  corrAt texture_spot texture_spot 2 2
  = covariance_of (window texture_spot 2 2) (window texture_spot 2 2)
    / (9 * (sigma_of (window texture_spot 2 2) * sigma_of (window texture_spot 2 2))) /\
  Forall (fun p => corr_in_range
                     (corrAt texture_ramp texture_ramp (fst p) (snd p)) = true) pq /\
  (forall p, In p pq -> corrAt texture_spot texture_spot (fst p) (snd p) <= 1) /\
  (exists next,
     getNextState mdl_unit (Some (start_state mdl_unit spot_origin)) (Some spot_east)
     = Some (Some (setup (m_processVariance mdl_unit) (m_R mdl_unit)
                     (start_state mdl_unit spot_origin)), Some next)).
Proof.
  destruct texture_correlation_rule as (Hrule & Hret & Hmax & Hacc).
  split; [|split; [|split; [|split]]].
  - apply (proj1 (Hrule texture_black texture_black 1%Z 1%Z)).
    rewrite !black_window by (cbv; tauto).
    assert (Hm : mean_of (repeat 0 9) = 0)
      by (cbv [mean_of sum_of repeat fold_right]; lra).
    split.
    + left. unfold sigma_of. rewrite Hm.
      replace (sum_of (map (fun v => (v - 0) * (v - 0)) (repeat 0 9)) / 9) with 0
        by (cbv [sum_of repeat map fold_right]; lra).
      apply sqrt_0.
    + unfold covariance_of. rewrite Hm.
      cbv [sum_of repeat map combine fold_right fst snd]. lra.
  - apply (proj1 (proj2 (Hrule texture_spot texture_spot 2%Z 2%Z))).
    intros [_ Hc]. rewrite spot_window in Hc.
    assert (Hm : mean_of [0; 0; 0; 0; 1; 0; 0; 0; 0] = 1 / 9)
      by (cbv [mean_of sum_of fold_right]; lra).
    unfold covariance_of in Hc. rewrite Hm in Hc.
    cbv [sum_of map combine fold_right fst snd] in Hc. lra.
  - apply (proj1 (Hret float Double_float texture_ramp texture_ramp 1%float)).
    vm_compute. reflexivity.
  - exact (proj2 (Hmax texture_spot texture_spot 1 (getCorr_self texture_spot))).
  - destruct spot_track_block as (E1 & ES & (W & EW) & (P & EP)).
    cbv zeta in E1, ES, EW, EP.
    apply (proj1 (Hacc R Double_R Libm_R mdl_unit (start_state mdl_unit spot_origin)
                    spot_east _ _ W P 1 E1 ES EW EP
                    ltac:(rewrite spot_east_distance; apply Rbool_lt_false;
                          cbn [mdl_unit CONSTVEL_MDL_new m_maxDistance]; lra)
                    (getCorr_self texture_spot))).
    apply Rbool_lt_true. cbn [mdl_unit CONSTVEL_MDL_new m_intensityThreshold]. lra.
Defined.

Lemma corr_in_range_R (st rp : Texture_t R) ym xm :
  corr_in_range (corrAt st rp ym xm) = true.
Proof.
  destruct (corrAt_range st rp ym xm) as [Hl Hu].
  unfold corr_in_range. apply andb_true_iff.
  split; apply Rbool_le_true; cbn [dopp dofZ Double_R]; lra.
Qed.


Lemma getNewState_aborts_exactly_when_witness :
  (forall s, Some (start_state mdl_unit spot_origin) = Some s -> populated s) /\
  getNewState mdl_unit 1 (Some (start_state mdl_unit spot_origin)) (Some spot_east)
  = None /\
  getNewState mdl_unit 0 (Some (start_state mdl_unit spot_origin)) (Some spot_east)
  <> None.
Proof.
  assert (Hp : forall s, Some (start_state mdl_unit spot_origin) = Some s -> populated s).
  { intros s E. injection E as <-. intros H. discriminate H. }
  split; [exact Hp|]. split.
  - apply (proj2 (@getNewState_aborts_exactly_when R _ _ mdl_unit 1 _ (Some spot_east) Hp)).
    left. discriminate.
  - intros E.
    apply (proj1 (@getNewState_aborts_exactly_when R _ _ mdl_unit 0 _ (Some spot_east) Hp))
      in E.
    destruct E as [H | [[H _] | (_ & s & r & x & S & _ & _ & H)]].
    + apply H. reflexivity.
    + discriminate H.
    + cbv zeta in H. destruct H as (_ & _ & _ & Hex).
      apply Exists_exists in Hex. destruct Hex as (p & _ & Hf).
      rewrite corr_in_range_R in Hf. discriminate Hf.
Defined.


Lemma verifyTTreeRoots_keeps_the_trees_witness :
  exists st',
    verifyTTreeRoots engine_track_done = Some st' /\
    map (@m_tree R) (m_tTreeList st')
    = [Some (Node (MDL_END_T_HYPO_new 2 0 0 0) [])] /\
    length (m_verified st') = 2%nat /\
    Forall2 popped_from (m_tTreeList engine_track_done) (m_tTreeList st') /\
    Forall root_is_stable (m_tTreeList st') /\
    (exists events, m_verified st' = m_verified engine_track_done ++ events).
Proof.
  assert (E : {st' | verifyTTreeRoots engine_track_done = Some st' /\
                     map (@m_tree R) (m_tTreeList st')
                     = [Some (Node (MDL_END_T_HYPO_new 2 0 0 0) [])] /\
                     length (m_verified st') = 2%nat}).
  { eexists. split; [cbv; reflexivity|]. split; reflexivity. }
  destruct E as (st' & E & Ht & Hv). exists st'.
  split; [exact E|]. split; [exact Ht|]. split; [exact Hv|].
  destruct (@verifyTTreeRoots_keeps_the_trees R engine_track_done st' E)
    as (H1 & H2 & H3 & _).
  split; [exact H1|]. split; [exact H2 | exact H3].
Defined.


End MoreInstances.
